(** * go-ipam: the store contract, its two backends and the replicated state machine

    A shallow embedding of [pkg/store/pebble.go] (the Pebble-backed store),
    [pkg/store/raft.go] (the Raft-backed store) and the Raft state machine
    of package [store] ([ipamStateMachine], with [applyEntry], [Lookup],
    [SaveSnapshot], [RecoverFromSnapshot] and [rebuildIndexes]), followed by
    the properties of the specification that concern them.

    Conventions of the embedding.
    - Go strings are [string] (lists of 8-bit characters); [fmt.Sprintf]
      with [%s] is concatenation, with [%d] it is the decimal printer
      [pretty] on [Z].
    - Go maps are [gmap string _]; a missing key reads as the zero value.
      The order in which [range] enumerates a map is not fixed by the
      language: functions that range over a map take the enumeration as an
      argument, and [go_range] says which enumerations are possible.
    - A Go function returning a pointer and an error returns a pair of options here:
      [None] in the first component is the nil pointer, [None] in the second
      the nil error.
    - A value of type [interface{}] is an [iface]: the untyped nil [INil] is
      distinct from a nil pointer of a pointer type ([INetwork None]); only
      the former compares equal to [nil].
    - [int] is the 64-bit two's complement integer, written as [Z] with the
      wrap-around [int_wrap] where the code subtracts.
    - Locks, deadlines and the consensus round trip are not represented:
      a proposed command is applied once, a read observes the current state.
      An allocation that the runtime accepts succeeds: [make] panics on a
      capacity that [makeslice] refuses ([maxSliceCap]), and the machine
      does not run out of memory otherwise.
    - [encoding/json] and [encoding/gob] belong to the Go library: stored
      values are kept as the records that decoding returns ([value]), and a
      command reaches the state machine as the record that was encoded; the
      byte-level entry points [Update] and [LookupBytes] take the decoder as
      an argument.  [encoding/gob] writes a string byte for byte;
      [encoding/json] does so when the string is valid UTF-8 ([validUTF8])
      and replaces every other byte by U+FFFD, so that a record read from
      the Pebble store is the record saved when the strings of the saved
      record are valid UTF-8 ([utf8Network], [utf8Allocation],
      [utf8Entry]).  A property that relates a read of the Pebble store to
      a record passed to a save is a property of the program for such
      records.
    - Functions of the Go library that the code calls ([net.SplitHostPort],
      [strconv.Atoi], [strconv.ParseUint], [strings.TrimSpace]) are section
      variables; [strings.Split] and [strings.SplitN] on a separator of one
      byte are written out.

    The callers of the stores are embedded as far as the properties below
    reach: [GetClusterInfo] of raft.go, the handlers [deleteNetwork] and
    [listAllocations] of api/server.go, the commands
    [network delete] and [release] and the helper [truncate] of package
    cmd, and [Validate] and [ParseInitialMembers] of package config. *)

From stdpp Require Import gmap strings list fin_maps sorting pretty.
From Stdlib Require Import ZArith Lia.

Open Scope string_scope.
Open Scope list_scope.

(** ** Records of package ipam *)

Module Network.
(** Modelled from the spec: the declaration of [ipam.Network] is not among
    the sources; the fields are those of the data model (identity,
    canonical CIDR, description, tag set, creation and update timestamps)
    under the names the store code and its tests use.  Timestamps are
    nanoseconds since the epoch. *)
Record t := mk {
  ID : string;
  CIDR : string;
  Description : string;
  Tags : list string;
  CreatedAt : Z;
  UpdatedAt : Z
}.
End Network.

Module IPAllocation.
(** Modelled from the spec: the declaration of [ipam.IPAllocation] is not
    among the sources; the fields are those of the data model under the
    names the store code, the CLI and the API use.  [EndIP] is empty for a
    single address; [ExpiresAt] and [ReleasedAt] are nil pointers when
    [None]. *)
Record t := mk {
  ID : string;
  NetworkID : string;
  IP : string;
  EndIP : string;
  Hostname : string;
  Description : string;
  Tags : list string;
  Status : string;
  AllocatedAt : Z;
  ExpiresAt : option Z;
  ReleasedAt : option Z
}.
End IPAllocation.

Module AuditEntry.
(** Modelled from the spec: the declaration of [ipam.AuditEntry] is not
    among the sources; the fields are those of the data model under the
    names the tests use.  [Timestamp] is the value of
    [entry.Timestamp.UnixNano()]. *)
Record t := mk {
  ID : string;
  Timestamp : Z;
  Action : string;
  Resource : string;
  Details : string;
  User : string
}.
End AuditEntry.

(** Modelled from the spec: the sentinel errors [ipam.ErrNetworkNotFound]
    and [ipam.ErrIPNotAllocated] are declared outside the sources; they are
    the error kinds [network_not_found] and [ip_not_allocated] of the store
    contract.  Every other error (a failed decode, [fmt.Errorf]) is
    [ErrInternal] with its message. *)
Inductive error :=
| ErrNetworkNotFound
| ErrIPNotAllocated
| ErrInternal (msg : string).

(** The key [fmt.Sprintf("%s:%s", networkID, ip)] of the IP index. *)
Definition ipKey (networkID ip : string) : string :=
  networkID +:+ ":" +:+ ip.

(** The possible results of [for k, v := range m]. *)
Definition go_range {V : Type} (m : gmap string V) (l : list (string * V)) : Prop :=
  l ≡ₚ map_to_list m.

(** Two's complement wrap-around of a 64-bit [int]. *)
Definition int_wrap (z : Z) : Z :=
  ((z + 2 ^ 63) `mod` 2 ^ 64 - 2 ^ 63)%Z.

(** [len(l)] as an [int]. *)
Definition len {A : Type} (l : list A) : Z := Z.of_nat (length l).

(** The elements [l[len(l)-1], ..., l[start]] collected by the loop
    [for i := len(l) - 1; i >= start; i-- { r = append(r, l[i]) }],
    for [0 <= start]. *)
Definition collect_down {A : Type} (l : list A) (start : Z) : list A :=
  rev (drop (Z.to_nat start) l).

(** * The replicated state machine *)

Record ipamStateMachine := mkSM {
  clusterID : Z;
  nodeID : Z;
  networks : gmap string Network.t;
  allocations : gmap string IPAllocation.t;
  audit : list AuditEntry.t;
  networkByCIDR : gmap string string;
  allocationByIP : gmap string string;
  allocationsByNet : gmap string (list string)
}.

Definition newIPAMStateMachine (clusterID nodeID : Z) : ipamStateMachine :=
  {| clusterID := clusterID; nodeID := nodeID;
     networks := ∅; allocations := ∅; audit := [];
     networkByCIDR := ∅; allocationByIP := ∅; allocationsByNet := ∅ |}.

(** Commands and queries, as the structs that travel in the log. *)
Inductive command :=
| saveNetworkCmd (Network : Network.t)
| deleteNetworkCmd (ID : string)
| saveAllocationCmd (Allocation : IPAllocation.t)
| deleteAllocationCmd (ID : string)
| saveAuditCmd (Entry : AuditEntry.t).

Inductive query :=
| getNetworkQuery (ID : string)
| getNetworkByCIDRQuery (CIDR : string)
| listNetworksQuery
| getAllocationQuery (ID : string)
| getAllocationByIPQuery (NetworkID IP : string)
| listAllocationsQuery (NetworkID : string)
| listAuditQuery (Limit : Z).

(** The [iota] constants [cmdSaveNetwork .. cmdSaveAudit] and
    [queryGetNetwork .. queryListAudit]: the first byte of an encoded
    command or query. *)
Definition commandType (c : command) : N :=
  match c with
  | saveNetworkCmd _ => 0
  | deleteNetworkCmd _ => 1
  | saveAllocationCmd _ => 2
  | deleteAllocationCmd _ => 3
  | saveAuditCmd _ => 4
  end.

Definition queryType (q : query) : N :=
  match q with
  | getNetworkQuery _ => 0
  | getNetworkByCIDRQuery _ => 1
  | listNetworksQuery => 2
  | getAllocationQuery _ => 3
  | getAllocationByIPQuery _ _ => 4
  | listAllocationsQuery _ => 5
  | listAuditQuery _ => 6
  end.

(** [case cmdSaveNetwork] of [applyEntry]. *)
Definition applySaveNetwork (n : Network.t) (s : ipamStateMachine) : ipamStateMachine :=
  {| clusterID := clusterID s; nodeID := nodeID s;
     networks := <[Network.ID n := n]> (networks s);
     allocations := allocations s;
     audit := audit s;
     networkByCIDR := <[Network.CIDR n := Network.ID n]> (networkByCIDR s);
     allocationByIP := allocationByIP s;
     allocationsByNet := allocationsByNet s |}.

(** One turn of the loop over [allocIDs] in [case cmdDeleteNetwork]: the
    allocation, when it is still stored, is deleted together with the IP
    index entry under its own network id and address. *)
Definition cascadeStep
    (acc : gmap string IPAllocation.t * gmap string string) (allocID : string)
    : gmap string IPAllocation.t * gmap string string :=
  match acc.1 !! allocID with
  | Some alloc =>
      (delete allocID acc.1,
       delete (ipKey (IPAllocation.NetworkID alloc) (IPAllocation.IP alloc)) acc.2)
  | None => acc
  end.

(** [case cmdDeleteNetwork] of [applyEntry]. *)
Definition applyDeleteNetwork (id : string) (s : ipamStateMachine) : ipamStateMachine :=
  match networks s !! id with
  | Some network =>
      let nets := delete id (networks s) in
      let byCIDR := delete (Network.CIDR network) (networkByCIDR s) in
      match allocationsByNet s !! id with
      | Some allocIDs =>
          let r := foldl cascadeStep (allocations s, allocationByIP s) allocIDs in
          {| clusterID := clusterID s; nodeID := nodeID s;
             networks := nets; allocations := r.1; audit := audit s;
             networkByCIDR := byCIDR; allocationByIP := r.2;
             allocationsByNet := delete id (allocationsByNet s) |}
      | None =>
          {| clusterID := clusterID s; nodeID := nodeID s;
             networks := nets; allocations := allocations s; audit := audit s;
             networkByCIDR := byCIDR; allocationByIP := allocationByIP s;
             allocationsByNet := allocationsByNet s |}
      end
  | None => s
  end.

(** The scan [for _, id := range list { if id == x { found = true; break } }]. *)
Definition found (x : string) (l : list string) : bool :=
  existsb (String.eqb x) l.

(** [case cmdSaveAllocation] of [applyEntry]. *)
Definition applySaveAllocation (alloc : IPAllocation.t) (s : ipamStateMachine) : ipamStateMachine :=
  let nid := IPAllocation.NetworkID alloc in
  let byNet1 :=
    match allocationsByNet s !! nid with
    | Some _ => allocationsByNet s
    | None => <[nid := []]> (allocationsByNet s)
    end in
  let l := default [] (byNet1 !! nid) in
  let byNet2 :=
    if found (IPAllocation.ID alloc) l then byNet1
    else <[nid := l ++ [IPAllocation.ID alloc]]> byNet1 in
  {| clusterID := clusterID s; nodeID := nodeID s;
     networks := networks s;
     allocations := <[IPAllocation.ID alloc := alloc]> (allocations s);
     audit := audit s;
     networkByCIDR := networkByCIDR s;
     allocationByIP :=
       <[ipKey nid (IPAllocation.IP alloc) := IPAllocation.ID alloc]> (allocationByIP s);
     allocationsByNet := byNet2 |}.

(** [case cmdDeleteAllocation] of [applyEntry]. *)
Definition applyDeleteAllocation (id : string) (s : ipamStateMachine) : ipamStateMachine :=
  match allocations s !! id with
  | Some alloc =>
      let nid := IPAllocation.NetworkID alloc in
      {| clusterID := clusterID s; nodeID := nodeID s;
         networks := networks s;
         allocations := delete id (allocations s);
         audit := audit s;
         networkByCIDR := networkByCIDR s;
         allocationByIP := delete (ipKey nid (IPAllocation.IP alloc)) (allocationByIP s);
         allocationsByNet :=
           match allocationsByNet s !! nid with
           | Some allocIDs =>
               <[nid := filter (λ x, x ≠ id) allocIDs]>
                 (allocationsByNet s)
           | None => allocationsByNet s
           end |}
  | None => s
  end.

(** The bound of the audit list. *)
Definition auditCap : Z := 10000.

(** [case cmdSaveAudit] of [applyEntry]: append, then keep
    [s.audit[len(s.audit)-10000:]] when the list is longer than 10000. *)
Definition applySaveAudit (e : AuditEntry.t) (s : ipamStateMachine) : ipamStateMachine :=
  let a := audit s ++ [e] in
  {| clusterID := clusterID s; nodeID := nodeID s;
     networks := networks s; allocations := allocations s;
     audit := if decide (auditCap < len a)%Z then drop (Z.to_nat (len a - auditCap)) a else a;
     networkByCIDR := networkByCIDR s;
     allocationByIP := allocationByIP s;
     allocationsByNet := allocationsByNet s |}.

(** The body of [applyEntry] once the command is decoded. *)
Definition apply (c : command) (s : ipamStateMachine) : ipamStateMachine :=
  match c with
  | saveNetworkCmd n => applySaveNetwork n s
  | deleteNetworkCmd id => applyDeleteNetwork id s
  | saveAllocationCmd a => applySaveAllocation a s
  | deleteAllocationCmd id => applyDeleteAllocation id s
  | saveAuditCmd e => applySaveAudit e s
  end.

(** The state after a log of commands, applied in order. *)
Definition applyAll (cs : list command) (s : ipamStateMachine) : ipamStateMachine :=
  foldl (λ st c, apply c st) s cs.

(** ** Queries *)

(** A value of type [interface{}] returned by [Lookup].  [INil] is the
    untyped [nil]; [INetwork None] and [IAllocation None] are nil pointers
    of type [*ipam.Network] and [*ipam.IPAllocation] stored in the
    interface, which are not equal to [nil]. *)
Inductive iface :=
| INil
| INetwork (p : option Network.t)
| IAllocation (p : option IPAllocation.t)
| INetworks (l : list Network.t)
| IAllocations (l : list IPAllocation.t)
| IAuditEntries (l : list AuditEntry.t).

(** The result of a call: it returns, or it stops in a run-time panic. *)
Inductive outcome (A : Type) :=
| Returns (a : A)
| Panics (msg : string).
Arguments Returns {A} a.
Arguments Panics {A} msg.

(** The loop of [case queryListAllocations]: the stored allocations among
    [allocIDs], in the order of the list. *)
Definition lookupAllocations (allocs : gmap string IPAllocation.t) (allocIDs : list string)
    : list IPAllocation.t :=
  omap (λ id, allocs !! id) allocIDs.

(** The largest capacity that [make([]*ipam.AuditEntry, 0, n)] accepts:
    [makeslice] panics when the capacity is negative or when its size in
    bytes, 8 for each pointer, exceeds [maxAlloc], which is 2^48 on the
    64-bit platforms. *)
Definition maxSliceCap : Z := 2 ^ 45.

(** [Lookup] once the query is decoded.  [order] is the enumeration of
    [s.networks] that [case queryListNetworks] ranges over.  In
    [case queryListAudit], [start] is computed first; then
    [make([]*ipam.AuditEntry, 0, q.Limit)] panics when the limit is
    negative or above [maxSliceCap]. *)
Definition Lookup (order : list (string * Network.t)) (s : ipamStateMachine) (q : query)
    : outcome (iface * option error) :=
  match q with
  | getNetworkQuery id => Returns (INetwork (networks s !! id), None)
  | getNetworkByCIDRQuery cidr =>
      match networkByCIDR s !! cidr with
      | Some id => Returns (INetwork (networks s !! id), None)
      | None => Returns (INil, None)
      end
  | listNetworksQuery => Returns (INetworks (order.*2), None)
  | getAllocationQuery id => Returns (IAllocation (allocations s !! id), None)
  | getAllocationByIPQuery networkID ip =>
      match allocationByIP s !! ipKey networkID ip with
      | Some id => Returns (IAllocation (allocations s !! id), None)
      | None => Returns (INil, None)
      end
  | listAllocationsQuery networkID =>
      let allocIDs := default [] (allocationsByNet s !! networkID) in
      Returns (IAllocations (lookupAllocations (allocations s) allocIDs), None)
  | listAuditQuery limit =>
      let start0 := int_wrap (len (audit s) - limit) in
      let start := if decide (start0 < 0 ∨ limit ≤ 0)%Z then 0%Z else start0 in
      if decide (limit < 0 ∨ maxSliceCap < limit)%Z then Panics "makeslice: cap out of range"
      else Returns (IAuditEntries (collect_down (audit s) start), None)
  end.

(** ** Snapshots *)

Record snapshotData := mkSnapshot {
  Networks : gmap string Network.t;
  Allocations : gmap string IPAllocation.t;
  Audit : list AuditEntry.t
}.

(** The snapshot that [SaveSnapshot] encodes. *)
Definition SaveSnapshot (s : ipamStateMachine) : snapshotData :=
  {| Networks := networks s; Allocations := allocations s; Audit := audit s |}.

(** One turn of the second loop of [rebuildIndexes]. *)
Definition rebuildAllocStep
    (acc : gmap string string * gmap string (list string))
    (kv : string * IPAllocation.t) : gmap string string * gmap string (list string) :=
  let id := kv.1 in
  let nid := IPAllocation.NetworkID kv.2 in
  let byNet1 :=
    match acc.2 !! nid with
    | Some _ => acc.2
    | None => <[nid := []]> acc.2
    end in
  (<[ipKey nid (IPAllocation.IP kv.2) := id]> acc.1,
   <[nid := default [] (byNet1 !! nid) ++ [id]]> byNet1).

(** [rebuildIndexes], over the enumerations [nets] of [s.networks] and
    [allocs] of [s.allocations] that its two loops range over. *)
Definition rebuildIndexes
    (nets : list (string * Network.t)) (allocs : list (string * IPAllocation.t))
    (s : ipamStateMachine) : ipamStateMachine :=
  let byCIDR := foldl (λ m kv, <[Network.CIDR kv.2 := kv.1]> m) ∅ nets in
  let r := foldl rebuildAllocStep (∅, ∅) allocs in
  {| clusterID := clusterID s; nodeID := nodeID s;
     networks := networks s; allocations := allocations s; audit := audit s;
     networkByCIDR := byCIDR; allocationByIP := r.1; allocationsByNet := r.2 |}.

(** [RecoverFromSnapshot] on a decoded snapshot. *)
Definition RecoverFromSnapshot
    (nets : list (string * Network.t)) (allocs : list (string * IPAllocation.t))
    (snapshot : snapshotData) (s : ipamStateMachine) : ipamStateMachine :=
  rebuildIndexes nets allocs
    {| clusterID := clusterID s; nodeID := nodeID s;
       networks := Networks snapshot; allocations := Allocations snapshot;
       audit := Audit snapshot;
       networkByCIDR := networkByCIDR s; allocationByIP := allocationByIP s;
       allocationsByNet := allocationsByNet s |}.

(** The states a recovery can produce: one for each pair of enumerations of
    the two restored maps. *)
Definition recovers (snapshot : snapshotData) (s s' : ipamStateMachine) : Prop :=
  ∃ nets allocs,
    go_range (Networks snapshot) nets ∧ go_range (Allocations snapshot) allocs ∧
    s' = RecoverFromSnapshot nets allocs snapshot s.

(** ** The byte-level entry points *)

(** The function [decode] of raft.go at each command and query struct;
    [None] is a decoding error.  The structs hold the record itself: a
    command carrying a nil record pointer is outside the model. *)
Record gobDecoder := mkDecoder {
  decodeSaveNetworkCmd : list Byte.byte → option Network.t;
  decodeDeleteNetworkCmd : list Byte.byte → option string;
  decodeSaveAllocationCmd : list Byte.byte → option IPAllocation.t;
  decodeDeleteAllocationCmd : list Byte.byte → option string;
  decodeSaveAuditCmd : list Byte.byte → option AuditEntry.t;
  decodeGetNetworkQuery : list Byte.byte → option string;
  decodeGetNetworkByCIDRQuery : list Byte.byte → option string;
  decodeGetAllocationQuery : list Byte.byte → option string;
  decodeGetAllocationByIPQuery : list Byte.byte → option (string * string);
  decodeListAllocationsQuery : list Byte.byte → option string;
  decodeListAuditQuery : list Byte.byte → option Z
}.

Definition errDecode : error := ErrInternal "gob: decoding error".

(** The [switch] of [applyEntry] on a decoded command: [d] is the result of
    [decode], [mk] builds the command from the decoded struct. *)
Definition withDecoded {A : Type} (d : option A) (mk : A → command) (s : ipamStateMachine)
    : ipamStateMachine * (option (list Byte.byte) * option error) :=
  match d with
  | Some c => (apply (mk c) s, (None, None))
  | None => (s, (None, Some errDecode))
  end.

(** [applyEntry] on the bytes of a log entry: the first byte selects the
    command type, the rest is decoded at that type. *)
Definition applyEntry (g : gobDecoder) (s : ipamStateMachine) (cmd : list Byte.byte)
    : ipamStateMachine * (option (list Byte.byte) * option error) :=
  match cmd with
  | [] => (s, (None, Some (ErrInternal "empty command")))
  | b :: cmdData =>
      match Byte.to_N b with
      | 0%N => withDecoded (decodeSaveNetworkCmd g cmdData) saveNetworkCmd s
      | 1%N => withDecoded (decodeDeleteNetworkCmd g cmdData) deleteNetworkCmd s
      | 2%N => withDecoded (decodeSaveAllocationCmd g cmdData) saveAllocationCmd s
      | 3%N => withDecoded (decodeDeleteAllocationCmd g cmdData) deleteAllocationCmd s
      | 4%N => withDecoded (decodeSaveAuditCmd g cmdData) saveAuditCmd s
      | cmdType =>
          (s, (None, Some (ErrInternal ("unknown command type: " +:+ pretty cmdType))))
      end
  end.

(** [sm.Result]. *)
Record Result := mkResult { Value : Z; Data : option (list Byte.byte) }.

(** [err.Error()].  Modelled from the spec: the texts of the two sentinel
    errors are declared outside the sources and stand here under the names
    of their kinds; [applyEntry] returns neither. *)
Definition errorString (err : error) : string :=
  match err with
  | ErrNetworkNotFound => "network_not_found"
  | ErrIPNotAllocated => "ip_not_allocated"
  | ErrInternal msg => msg
  end.

(** [Update]: the new state and the result handed back to the driver. *)
Definition Update (g : gobDecoder) (s : ipamStateMachine) (data : list Byte.byte)
    : ipamStateMachine * (Result * option error) :=
  match applyEntry g s data with
  | (s', (_, Some err)) =>
      (s', ({| Value := 0; Data := Some (String.list_byte_of_string (errorString err)) |},
            Some err))
  | (s', (result, None)) => (s', ({| Value := 1; Data := result |}, None))
  end.

(** The bytes [data] decode to the struct of the command [c]. *)
Definition decodesCommand (g : gobDecoder) (data : list Byte.byte) (c : command) : Prop :=
  match c with
  | saveNetworkCmd n => decodeSaveNetworkCmd g data = Some n
  | deleteNetworkCmd id => decodeDeleteNetworkCmd g data = Some id
  | saveAllocationCmd a => decodeSaveAllocationCmd g data = Some a
  | deleteAllocationCmd id => decodeDeleteAllocationCmd g data = Some id
  | saveAuditCmd e => decodeSaveAuditCmd g data = Some e
  end.

(** The bytes [data] decode to the struct of the query [q]. *)
Definition decodesQuery (g : gobDecoder) (data : list Byte.byte) (q : query) : Prop :=
  match q with
  | getNetworkQuery id => decodeGetNetworkQuery g data = Some id
  | getNetworkByCIDRQuery cidr => decodeGetNetworkByCIDRQuery g data = Some cidr
  | listNetworksQuery => True
  | getAllocationQuery id => decodeGetAllocationQuery g data = Some id
  | getAllocationByIPQuery networkID ip =>
      decodeGetAllocationByIPQuery g data = Some (networkID, ip)
  | listAllocationsQuery networkID => decodeListAllocationsQuery g data = Some networkID
  | listAuditQuery limit => decodeListAuditQuery g data = Some limit
  end.

(** The state after a log of entries, each applied by [Update]. *)
Definition replay (g : gobDecoder) (log : list (list Byte.byte)) (s : ipamStateMachine)
    : ipamStateMachine :=
  foldl (λ st data, (Update g st data).1) s log.

(** The results [Update] hands back along a log. *)
Fixpoint replayResults (g : gobDecoder) (log : list (list Byte.byte)) (s : ipamStateMachine)
    : list (Result * option error) :=
  match log with
  | [] => []
  | data :: log' => (Update g s data).2 :: replayResults g log' (Update g s data).1
  end.

(** The [switch] of [Lookup] on a decoded query. *)
Definition lookupDecoded {A : Type} (d : option A) (mk : A → query)
    (order : list (string * Network.t)) (s : ipamStateMachine)
    : outcome (iface * option error) :=
  match d with
  | Some q => Lookup order s (mk q)
  | None => Returns (INil, Some errDecode)
  end.

(** [Lookup] on the bytes of a query; [case queryListNetworks] decodes
    nothing. *)
Definition LookupBytes (g : gobDecoder) (order : list (string * Network.t))
    (s : ipamStateMachine) (data : list Byte.byte) : outcome (iface * option error) :=
  match data with
  | [] => Returns (INil, Some (ErrInternal "empty query"))
  | b :: queryData =>
      match Byte.to_N b with
      | 0%N => lookupDecoded (decodeGetNetworkQuery g queryData) getNetworkQuery order s
      | 1%N => lookupDecoded (decodeGetNetworkByCIDRQuery g queryData) getNetworkByCIDRQuery order s
      | 2%N => Lookup order s listNetworksQuery
      | 3%N => lookupDecoded (decodeGetAllocationQuery g queryData) getAllocationQuery order s
      | 4%N => lookupDecoded (decodeGetAllocationByIPQuery g queryData)
                 (λ p, getAllocationByIPQuery p.1 p.2) order s
      | 5%N => lookupDecoded (decodeListAllocationsQuery g queryData) listAllocationsQuery order s
      | 6%N => lookupDecoded (decodeListAuditQuery g queryData) listAuditQuery order s
      | qt => Returns (INil, Some (ErrInternal ("unknown query type: " +:+ pretty qt)))
      end
  end.

(** * The Raft-backed store (raft.go) *)

Module RaftStore.
Section Driver.
(** The enumeration of [s.networks] seen by the [Lookup] that serves a
    call; only [ListNetworks] depends on it. *)
Variable order : list (string * Network.t).

(** [executeCommand]: the command is encoded, proposed, and applied by
    [Update] once committed; the error of [SyncPropose] is returned. *)
Definition executeCommand (c : command) (s : ipamStateMachine)
    : ipamStateMachine * option error :=
  (apply c s, None).

(** [executeQuery]: the value [Lookup] returned, or [nil] with its error. *)
Definition executeQuery (q : query) (s : ipamStateMachine) : outcome (iface * option error) :=
  match Lookup order s q with
  | Returns (_, Some err) => Returns (INil, Some err)
  | Returns (result, None) => Returns (result, None)
  | Panics msg => Panics msg
  end.

Definition conversionPanic {A : Type} : outcome A := Panics "interface conversion".

Definition SaveNetwork (network : Network.t) := executeCommand (saveNetworkCmd network).

(** The test [result == nil] succeeds on [INil] only; the type assertion
    [result.( *ipam.Network)] returns the pointer held by the interface. *)
Definition GetNetwork (id : string) (s : ipamStateMachine)
    : outcome (option Network.t * option error) :=
  match executeQuery (getNetworkQuery id) s with
  | Panics msg => Panics msg
  | Returns (_, Some err) => Returns (None, Some err)
  | Returns (INil, None) => Returns (None, Some ErrNetworkNotFound)
  | Returns (INetwork p, None) => Returns (p, None)
  | Returns (_, None) => conversionPanic
  end.

Definition GetNetworkByCIDR (cidr : string) (s : ipamStateMachine)
    : outcome (option Network.t * option error) :=
  match executeQuery (getNetworkByCIDRQuery cidr) s with
  | Panics msg => Panics msg
  | Returns (_, Some err) => Returns (None, Some err)
  | Returns (INil, None) => Returns (None, Some ErrNetworkNotFound)
  | Returns (INetwork p, None) => Returns (p, None)
  | Returns (_, None) => conversionPanic
  end.

Definition ListNetworks (s : ipamStateMachine) : outcome (list Network.t * option error) :=
  match executeQuery listNetworksQuery s with
  | Panics msg => Panics msg
  | Returns (_, Some err) => Returns ([], Some err)
  | Returns (INetworks l, None) => Returns (l, None)
  | Returns (_, None) => conversionPanic
  end.

Definition DeleteNetwork (id : string) := executeCommand (deleteNetworkCmd id).

Definition SaveAllocation (allocation : IPAllocation.t) :=
  executeCommand (saveAllocationCmd allocation).

Definition GetAllocation (id : string) (s : ipamStateMachine)
    : outcome (option IPAllocation.t * option error) :=
  match executeQuery (getAllocationQuery id) s with
  | Panics msg => Panics msg
  | Returns (_, Some err) => Returns (None, Some err)
  | Returns (INil, None) => Returns (None, Some ErrIPNotAllocated)
  | Returns (IAllocation p, None) => Returns (p, None)
  | Returns (_, None) => conversionPanic
  end.

Definition GetAllocationByIP (networkID ip : string) (s : ipamStateMachine)
    : outcome (option IPAllocation.t * option error) :=
  match executeQuery (getAllocationByIPQuery networkID ip) s with
  | Panics msg => Panics msg
  | Returns (_, Some err) => Returns (None, Some err)
  | Returns (INil, None) => Returns (None, Some ErrIPNotAllocated)
  | Returns (IAllocation p, None) => Returns (p, None)
  | Returns (_, None) => conversionPanic
  end.

Definition ListAllocations (networkID : string) (s : ipamStateMachine)
    : outcome (list IPAllocation.t * option error) :=
  match executeQuery (listAllocationsQuery networkID) s with
  | Panics msg => Panics msg
  | Returns (_, Some err) => Returns ([], Some err)
  | Returns (IAllocations l, None) => Returns (l, None)
  | Returns (_, None) => conversionPanic
  end.

Definition DeleteAllocation (id : string) := executeCommand (deleteAllocationCmd id).

Definition SaveAuditEntry (entry : AuditEntry.t) := executeCommand (saveAuditCmd entry).

Definition ListAuditEntries (limit : Z) (s : ipamStateMachine)
    : outcome (list AuditEntry.t * option error) :=
  match executeQuery (listAuditQuery limit) s with
  | Panics msg => Panics msg
  | Returns (_, Some err) => Returns ([], Some err)
  | Returns (IAuditEntries l, None) => Returns (l, None)
  | Returns (_, None) => conversionPanic
  end.
End Driver.
End RaftStore.

(** * Strings that [encoding/json] keeps *)

(** The byte [c] lies between [lo] and [hi]. *)
Definition byteIn (lo hi : N) (c : Ascii.ascii) : bool :=
  (lo <=? Ascii.N_of_ascii c)%N && (Ascii.N_of_ascii c <=? hi)%N.

(** [utf8.ValidString]: the string is a sequence of well-formed UTF-8
    encodings.  A byte up to 0x7f stands alone; a lead byte 0xc2..0xdf takes
    one continuation byte 0x80..0xbf, a lead byte 0xe0..0xef two and a lead
    byte 0xf0..0xf4 three, where the first continuation byte is at least
    0xa0 after 0xe0, at most 0x9f after 0xed, at least 0x90 after 0xf0 and
    at most 0x8f after 0xf4.  [json.Marshal] writes such a string as it
    is, and [json.Unmarshal] reads it back; of any other string it replaces
    the offending bytes by U+FFFD. *)
Fixpoint validUTF8 (s : string) : bool :=
  match s with
  | EmptyString => true
  | String c0 s1 =>
      if byteIn 0x00 0x7f c0 then validUTF8 s1
      else
        match s1 with
        | EmptyString => false
        | String c1 s2 =>
            if byteIn 0xc2 0xdf c0 then byteIn 0x80 0xbf c1 && validUTF8 s2
            else
              match s2 with
              | EmptyString => false
              | String c2 s3 =>
                  if byteIn 0xe0 0xef c0 then
                    byteIn (if byteIn 0xe0 0xe0 c0 then 0xa0 else 0x80)
                           (if byteIn 0xed 0xed c0 then 0x9f else 0xbf) c1
                    && byteIn 0x80 0xbf c2 && validUTF8 s3
                  else
                    match s3 with
                    | EmptyString => false
                    | String c3 s4 =>
                        byteIn 0xf0 0xf4 c0
                        && byteIn (if byteIn 0xf0 0xf0 c0 then 0x90 else 0x80)
                                  (if byteIn 0xf4 0xf4 c0 then 0x8f else 0xbf) c1
                        && byteIn 0x80 0xbf c2 && byteIn 0x80 0xbf c3 && validUTF8 s4
                    end
              end
        end
  end.

(** Records whose strings are valid UTF-8: the records that the JSON
    encoding of the Pebble store returns as they were saved. *)
Definition utf8Network (n : Network.t) : Prop :=
  validUTF8 (Network.ID n) = true ∧ validUTF8 (Network.CIDR n) = true ∧
  validUTF8 (Network.Description n) = true ∧
  Forall (λ tag, validUTF8 tag = true) (Network.Tags n).

Definition utf8Allocation (a : IPAllocation.t) : Prop :=
  validUTF8 (IPAllocation.ID a) = true ∧ validUTF8 (IPAllocation.NetworkID a) = true ∧
  validUTF8 (IPAllocation.IP a) = true ∧ validUTF8 (IPAllocation.EndIP a) = true ∧
  validUTF8 (IPAllocation.Hostname a) = true ∧
  validUTF8 (IPAllocation.Description a) = true ∧
  Forall (λ tag, validUTF8 tag = true) (IPAllocation.Tags a) ∧
  validUTF8 (IPAllocation.Status a) = true.

Definition utf8Entry (e : AuditEntry.t) : Prop :=
  validUTF8 (AuditEntry.ID e) = true ∧ validUTF8 (AuditEntry.Action e) = true ∧
  validUTF8 (AuditEntry.Resource e) = true ∧ validUTF8 (AuditEntry.Details e) = true ∧
  validUTF8 (AuditEntry.User e) = true.

(** A mutation that saves no record with a string that is not valid
    UTF-8. *)
Definition utf8Command (c : command) : Prop :=
  match c with
  | saveNetworkCmd n => utf8Network n
  | saveAllocationCmd a => utf8Allocation a
  | saveAuditCmd e => utf8Entry e
  | deleteNetworkCmd _ | deleteAllocationCmd _ => True
  end.

(** * The Pebble-backed store (pebble.go) *)

Module PebbleStore.

(** The bytes stored under a key: the JSON encoding of a record, kept as
    the record that [json.Unmarshal] returns for it, or the raw bytes of an
    id in an index entry.  For a record whose strings are valid UTF-8
    ([utf8Network], [utf8Allocation], [utf8Entry]) the record that
    [json.Unmarshal] returns is the record that [json.Marshal] was given,
    and the saves below keep it as such; the keys are built from the
    strings of the record passed to the save, byte for byte. *)
Inductive value :=
| VNetwork (n : Network.t)
| VAllocation (a : IPAllocation.t)
| VAuditEntry (e : AuditEntry.t)
| VRaw (id : string).

(** [json.Unmarshal] at each record type: the record kept for the stored
    bytes; [None] is its error. *)
Definition unmarshalNetwork (v : value) : option Network.t :=
  match v with VNetwork n => Some n | _ => None end.
Definition unmarshalAllocation (v : value) : option IPAllocation.t :=
  match v with VAllocation a => Some a | _ => None end.
Definition unmarshalAuditEntry (v : value) : option AuditEntry.t :=
  match v with VAuditEntry e => Some e | _ => None end.
(** [string(value)] on an index entry. *)
Definition rawString (v : value) : option string :=
  match v with VRaw id => Some id | _ => None end.

Definition errUnmarshal : error := ErrInternal "json: cannot unmarshal".

Definition prefixNetwork : string := "network:".
Definition prefixAllocation : string := "allocation:".
Definition prefixAudit : string := "audit:".
Definition prefixIndex : string := "index:".

Definition networkKey (id : string) : string := prefixNetwork +:+ id.
Definition allocationKey (id : string) : string := prefixAllocation +:+ id.
Definition cidrIndexKey (cidr : string) : string := prefixIndex +:+ "cidr:" +:+ cidr.
(** [fmt.Sprintf("%sip:%s:%s", prefixIndex, networkID, ip)]. *)
Definition ipIndexKey (networkID ip : string) : string :=
  prefixIndex +:+ "ip:" +:+ networkID +:+ ":" +:+ ip.
(** [fmt.Sprintf("%s%d_%s", prefixAudit, entry.Timestamp.UnixNano(), entry.ID)]. *)
Definition auditKey (e : AuditEntry.t) : string :=
  prefixAudit +:+ pretty (AuditEntry.Timestamp e) +:+ "_" +:+ AuditEntry.ID e.

(** The byte [0xff] that closes a prefix range. *)
Definition xff : string :=
  String (Ascii.Ascii true true true true true true true true) EmptyString.

(** A write batch and its atomic commit, operations in order. *)
Inductive batchOp :=
| BatchSet (key : string) (v : value)
| BatchDelete (key : string).

Definition applyOp (db : gmap string value) (op : batchOp) : gmap string value :=
  match op with
  | BatchSet k v => <[k := v]> db
  | BatchDelete k => delete k db
  end.

Definition Commit (batch : list batchOp) (db : gmap string value) : gmap string value :=
  foldl applyOp db batch.

(** An iterator with [LowerBound] (inclusive) and [UpperBound]
    (exclusive): the entries in the bounds, in the byte order of keys. *)
Definition inBounds (lower upper k : string) : Prop :=
  String.leb lower k = true ∧ String.ltb k upper = true.

Definition keyLe (x y : string * value) : Prop := String.le x.1 y.1.

#[global] Instance inBounds_dec lower upper k : Decision (inBounds lower upper k).
Proof. unfold inBounds. apply _. Defined.

#[global] Instance keyLe_dec x y : Decision (keyLe x y).
Proof. unfold keyLe. apply _. Defined.

Definition NewIter (lower upper : string) (db : gmap string value) : list (string * value) :=
  merge_sort keyLe (filter (λ kv, inBounds lower upper kv.1) (map_to_list db)).

Definition prefixIter (pfx : string) (db : gmap string value) : list (string * value) :=
  NewIter pfx (pfx +:+ xff) db.

Definition SaveNetwork (network : Network.t) (db : gmap string value)
    : gmap string value * option error :=
  let batch :=
    [ BatchSet (networkKey (Network.ID network)) (VNetwork network);
      BatchSet (cidrIndexKey (Network.CIDR network)) (VRaw (Network.ID network)) ] in
  (Commit batch db, None).

Definition GetNetwork (id : string) (db : gmap string value)
    : option Network.t * option error :=
  match db !! networkKey id with
  | None => (None, Some ErrNetworkNotFound)
  | Some v =>
      match unmarshalNetwork v with
      | Some network => (Some network, None)
      | None => (None, Some errUnmarshal)
      end
  end.

Definition GetNetworkByCIDR (cidr : string) (db : gmap string value)
    : option Network.t * option error :=
  match db !! cidrIndexKey cidr with
  | None => (None, Some ErrNetworkNotFound)
  | Some v =>
      match rawString v with
      | Some networkID => GetNetwork networkID db
      | None => (None, Some errUnmarshal)
      end
  end.

(** The loop of [ListNetworks]: the first value that does not decode ends
    it with the error. *)
Fixpoint decodeAll {A : Type} (dec : value → option A) (it : list (string * value))
    : list A * option error :=
  match it with
  | [] => ([], None)
  | kv :: it' =>
      match dec kv.2 with
      | None => ([], Some errUnmarshal)
      | Some x =>
          match decodeAll dec it' with
          | (_, Some err) => ([], Some err)
          | (xs, None) => (x :: xs, None)
          end
      end
  end.

Definition ListNetworks (db : gmap string value) : list Network.t * option error :=
  decodeAll unmarshalNetwork (prefixIter prefixNetwork db).

(** The deletes that the scan of [DeleteNetwork] adds to the batch for one
    entry of the allocation range; an entry that does not decode is
    skipped. *)
Definition cascadeOps (id : string) (kv : string * value) : list batchOp :=
  match unmarshalAllocation kv.2 with
  | None => []
  | Some allocation =>
      if decide (IPAllocation.NetworkID allocation = id) then
        [ BatchDelete kv.1;
          BatchDelete (ipIndexKey (IPAllocation.NetworkID allocation)
                                  (IPAllocation.IP allocation)) ]
      else []
  end.

Definition DeleteNetwork (id : string) (db : gmap string value)
    : gmap string value * option error :=
  match GetNetwork id db with
  | (_, Some err) => (db, Some err)
  | (None, None) => (db, Some errUnmarshal)
  | (Some network, None) =>
      let batch :=
        [ BatchDelete (networkKey id);
          BatchDelete (cidrIndexKey (Network.CIDR network)) ]
        ++ flat_map (cascadeOps id) (prefixIter prefixAllocation db) in
      (Commit batch db, None)
  end.

Definition SaveAllocation (allocation : IPAllocation.t) (db : gmap string value)
    : gmap string value * option error :=
  let batch :=
    [ BatchSet (allocationKey (IPAllocation.ID allocation)) (VAllocation allocation);
      BatchSet (ipIndexKey (IPAllocation.NetworkID allocation) (IPAllocation.IP allocation))
               (VRaw (IPAllocation.ID allocation)) ] in
  (Commit batch db, None).

Definition GetAllocation (id : string) (db : gmap string value)
    : option IPAllocation.t * option error :=
  match db !! allocationKey id with
  | None => (None, Some ErrIPNotAllocated)
  | Some v =>
      match unmarshalAllocation v with
      | Some allocation => (Some allocation, None)
      | None => (None, Some errUnmarshal)
      end
  end.

Definition GetAllocationByIP (networkID ip : string) (db : gmap string value)
    : option IPAllocation.t * option error :=
  match db !! ipIndexKey networkID ip with
  | None => (None, Some ErrIPNotAllocated)
  | Some v =>
      match rawString v with
      | Some allocationID => GetAllocation allocationID db
      | None => (None, Some errUnmarshal)
      end
  end.

Definition ListAllocations (networkID : string) (db : gmap string value)
    : list IPAllocation.t * option error :=
  match decodeAll unmarshalAllocation (prefixIter prefixAllocation db) with
  | (_, Some err) => ([], Some err)
  | (all, None) =>
      (filter (λ a, IPAllocation.NetworkID a = networkID) all, None)
  end.

Definition DeleteAllocation (id : string) (db : gmap string value)
    : gmap string value * option error :=
  match GetAllocation id db with
  | (_, Some err) => (db, Some err)
  | (None, None) => (db, Some errUnmarshal)
  | (Some allocation, None) =>
      let batch :=
        [ BatchDelete (allocationKey id);
          BatchDelete (ipIndexKey (IPAllocation.NetworkID allocation)
                                  (IPAllocation.IP allocation)) ] in
      (Commit batch db, None)
  end.

Definition SaveAuditEntry (entry : AuditEntry.t) (db : gmap string value)
    : gmap string value * option error :=
  (<[auditKey entry := VAuditEntry entry]> db, None).

Definition ListAuditEntries (limit : Z) (db : gmap string value)
    : list AuditEntry.t * option error :=
  match decodeAll unmarshalAuditEntry (prefixIter prefixAudit db) with
  | (_, Some err) => ([], Some err)
  | (allEntries, None) =>
      let start0 := int_wrap (len allEntries - limit) in
      let start := if decide (start0 < 0)%Z then 0%Z else start0 in
      (collect_down allEntries start, None)
  end.

End PebbleStore.

(** * Runs of the two stores *)

(** A mutation of the store contract, named by the command that the
    Raft-backed store proposes for it. *)
Definition pebbleMutate (c : command) (db : gmap string PebbleStore.value)
    : gmap string PebbleStore.value * option error :=
  match c with
  | saveNetworkCmd n => PebbleStore.SaveNetwork n db
  | deleteNetworkCmd id => PebbleStore.DeleteNetwork id db
  | saveAllocationCmd a => PebbleStore.SaveAllocation a db
  | deleteAllocationCmd id => PebbleStore.DeleteAllocation id db
  | saveAuditCmd e => PebbleStore.SaveAuditEntry e db
  end.

(** The database after a list of mutations, errors ignored. *)
Definition pebbleRun (cs : list command) (db : gmap string PebbleStore.value)
    : gmap string PebbleStore.value :=
  foldl (λ d c, (pebbleMutate c d).1) db cs.

(** The databases the store can hold: the empty one and those a mutation
    leaves. *)
Inductive pebbleReachable : gmap string PebbleStore.value → Prop :=
| pebbleReachable_empty : pebbleReachable ∅
| pebbleReachable_mutate c db :
    pebbleReachable db → pebbleReachable (pebbleMutate c db).1.

(** Every value sits under the key of its kind. *)
Definition typed (db : gmap string PebbleStore.value) : Prop :=
  ∀ k v, db !! k = Some v →
    match v with
    | PebbleStore.VNetwork n => k = PebbleStore.networkKey (Network.ID n)
    | PebbleStore.VAllocation a => k = PebbleStore.allocationKey (IPAllocation.ID a)
    | PebbleStore.VAuditEntry e => k = PebbleStore.auditKey e
    | PebbleStore.VRaw _ => ∃ r, k = PebbleStore.prefixIndex +:+ r
    end.

(** An id that does not begin with the byte [0xff]; no valid UTF-8 string
    does. *)
Definition textual (id : string) : Prop :=
  match id with
  | String c _ => c ≠ Ascii.Ascii true true true true true true true true
  | EmptyString => True
  end.


(** The states of a replica: a fresh state machine, a state after one more
    applied command, or a state recovered from the snapshot of a state of
    some replica. *)
Inductive reachable : ipamStateMachine → Prop :=
| reachable_new c n : reachable (newIPAMStateMachine c n)
| reachable_apply c s : reachable s → reachable (apply c s)
| reachable_recover s0 s s' :
    reachable s0 → reachable s → recovers (SaveSnapshot s0) s s' → reachable s'.

(** The state with the identity of another replica. *)
Definition withIDs (c n : Z) (s : ipamStateMachine) : ipamStateMachine :=
  {| clusterID := c; nodeID := n;
     networks := networks s; allocations := allocations s; audit := audit s;
     networkByCIDR := networkByCIDR s; allocationByIP := allocationByIP s;
     allocationsByNet := allocationsByNet s |}.

(** The audit entries that a list of commands appends, in order. *)
Definition appended (cs : list command) : list AuditEntry.t :=
  omap (λ c, match c with saveAuditCmd e => Some e | _ => None end) cs.

(** The last [n] elements of a list. *)
Definition lastN {A : Type} (n : Z) (l : list A) : list A :=
  drop (Z.to_nat (len l - n)) l.

(** The invariant of the state machine: records are stored under their own
    id, a per-network list holds no id twice, and every stored allocation
    is listed under the network it names. *)
Record consistent (s : ipamStateMachine) : Prop := mkConsistent {
  networks_keyed : ∀ id n, networks s !! id = Some n → Network.ID n = id;
  allocations_keyed : ∀ id a, allocations s !! id = Some a → IPAllocation.ID a = id;
  byNet_NoDup : ∀ nid l, allocationsByNet s !! nid = Some l → NoDup l;
  byNet_complete : ∀ id a, allocations s !! id = Some a →
    id ∈ default [] (allocationsByNet s !! IPAllocation.NetworkID a)
}.

(** The ids that an enumeration of the allocations lists under a network,
    in the order of the enumeration. *)
Definition byNetOf (allocs : list (string * IPAllocation.t)) (nid : string) : list string :=
  (filter (λ kv, IPAllocation.NetworkID kv.2 = nid) allocs).*1.

(** The keys that the scan of [DeleteNetwork] deletes for one entry. *)
Definition cascadeKeys (id : string) (kv : string * PebbleStore.value) : list string :=
  match PebbleStore.unmarshalAllocation kv.2 with
  | None => []
  | Some allocation =>
      if decide (IPAllocation.NetworkID allocation = id) then
        [ kv.1;
          PebbleStore.ipIndexKey (IPAllocation.NetworkID allocation)
                                 (IPAllocation.IP allocation) ]
      else []
  end.

(** The keys that [DeleteNetwork] deletes when it finds [network]. *)
Definition deleteNetworkKeys (id : string) (network : Network.t)
    (db : gmap string PebbleStore.value) : list string :=
  PebbleStore.networkKey id :: PebbleStore.cidrIndexKey (Network.CIDR network)
  :: flat_map (cascadeKeys id) (PebbleStore.prefixIter PebbleStore.prefixAllocation db).

(** ** Sample records, after the tests of the two stores *)

Definition net1 : Network.t :=
  {| Network.ID := "net1"; Network.CIDR := "10.0.0.0/24";
     Network.Description := "Test network"; Network.Tags := ["test"];
     Network.CreatedAt := 1700000000000000000; Network.UpdatedAt := 1700000000000000000 |}.

Definition net2 : Network.t :=
  {| Network.ID := "net2"; Network.CIDR := "10.0.1.0/24";
     Network.Description := "Test network"; Network.Tags := ["test"];
     Network.CreatedAt := 1700000000000000000; Network.UpdatedAt := 1700000000000000000 |}.

Definition alloc1 : IPAllocation.t :=
  {| IPAllocation.ID := "alloc1"; IPAllocation.NetworkID := "net1";
     IPAllocation.IP := "10.0.0.10"; IPAllocation.EndIP := "";
     IPAllocation.Hostname := ""; IPAllocation.Description := "Test allocation";
     IPAllocation.Tags := []; IPAllocation.Status := "allocated";
     IPAllocation.AllocatedAt := 1700000000000000000;
     IPAllocation.ExpiresAt := None; IPAllocation.ReleasedAt := None |}.

(** [alloc1] saved again under another address. *)
Definition alloc1_readdressed : IPAllocation.t :=
  {| IPAllocation.ID := "alloc1"; IPAllocation.NetworkID := "net1";
     IPAllocation.IP := "10.0.0.11"; IPAllocation.EndIP := "";
     IPAllocation.Hostname := ""; IPAllocation.Description := "Updated allocation";
     IPAllocation.Tags := []; IPAllocation.Status := "allocated";
     IPAllocation.AllocatedAt := 1700000000000000000;
     IPAllocation.ExpiresAt := None; IPAllocation.ReleasedAt := None |}.

Definition alloc2 : IPAllocation.t :=
  {| IPAllocation.ID := "alloc2"; IPAllocation.NetworkID := "net1";
     IPAllocation.IP := "10.0.0.12"; IPAllocation.EndIP := "";
     IPAllocation.Hostname := ""; IPAllocation.Description := "";
     IPAllocation.Tags := []; IPAllocation.Status := "allocated";
     IPAllocation.AllocatedAt := 1700000000000000000;
     IPAllocation.ExpiresAt := None; IPAllocation.ReleasedAt := None |}.

(** [alloc1] saved again under the network "net2". *)
Definition alloc1_moved : IPAllocation.t :=
  {| IPAllocation.ID := "alloc1"; IPAllocation.NetworkID := "net2";
     IPAllocation.IP := "10.0.0.10"; IPAllocation.EndIP := "";
     IPAllocation.Hostname := ""; IPAllocation.Description := "Test allocation";
     IPAllocation.Tags := []; IPAllocation.Status := "allocated";
     IPAllocation.AllocatedAt := 1700000000000000000;
     IPAllocation.ExpiresAt := None; IPAllocation.ReleasedAt := None |}.

(** [alloc1] after its release, and the allocation that takes the address
    10.0.0.10 of "net1" afterwards. *)
Definition alloc1_released : IPAllocation.t :=
  {| IPAllocation.ID := "alloc1"; IPAllocation.NetworkID := "net1";
     IPAllocation.IP := "10.0.0.10"; IPAllocation.EndIP := "";
     IPAllocation.Hostname := ""; IPAllocation.Description := "Test allocation";
     IPAllocation.Tags := []; IPAllocation.Status := "released";
     IPAllocation.AllocatedAt := 1700000000000000000;
     IPAllocation.ExpiresAt := None;
     IPAllocation.ReleasedAt := Some 1700000001000000000%Z |}.

Definition alloc3 : IPAllocation.t :=
  {| IPAllocation.ID := "alloc3"; IPAllocation.NetworkID := "net1";
     IPAllocation.IP := "10.0.0.10"; IPAllocation.EndIP := "";
     IPAllocation.Hostname := ""; IPAllocation.Description := "";
     IPAllocation.Tags := []; IPAllocation.Status := "allocated";
     IPAllocation.AllocatedAt := 1700000002000000000;
     IPAllocation.ExpiresAt := None; IPAllocation.ReleasedAt := None |}.

(** The log of a release and reuse: the address of [alloc1] is allocated,
    released, and allocated again under a new id; the record of the
    released allocation is retained. *)
Definition reuseLog : list command :=
  [saveNetworkCmd net1; saveAllocationCmd alloc1; saveAllocationCmd alloc1_released;
   saveAllocationCmd alloc3].

(** An allocation of "net1" whose id is the single byte [0xff]. *)
Definition allocFF : IPAllocation.t :=
  {| IPAllocation.ID := PebbleStore.xff; IPAllocation.NetworkID := "net1";
     IPAllocation.IP := "10.0.0.13"; IPAllocation.EndIP := "";
     IPAllocation.Hostname := ""; IPAllocation.Description := "";
     IPAllocation.Tags := []; IPAllocation.Status := "allocated";
     IPAllocation.AllocatedAt := 1700000000000000000;
     IPAllocation.ExpiresAt := None; IPAllocation.ReleasedAt := None |}.

Definition auditAt (id : string) (ts : Z) : AuditEntry.t :=
  {| AuditEntry.ID := id; AuditEntry.Timestamp := ts; AuditEntry.Action := "test_action";
     AuditEntry.Resource := "resource"; AuditEntry.Details := "Test audit";
     AuditEntry.User := "test_user" |}.

(** A fresh replica, and the log that stores [net1] with [alloc1], saves
    [alloc1] again under another address, and deletes the network. *)
Definition fresh : ipamStateMachine := newIPAMStateMachine 1 1.

Definition readdressLog : list command :=
  [saveNetworkCmd net1; saveAllocationCmd alloc1; saveAllocationCmd alloc1_readdressed].

(** A burst of [n] audit entries "audit0", "audit1", ... stamped with the
    same instant. *)
Definition burst (n : nat) : list AuditEntry.t :=
  (λ i : nat, auditAt ("audit" +:+ pretty i) 1700000000000000000) <$> seq 0 n.

(** The table of stored networks after a mutation of the store contract. *)
Definition networksAfter (c : command) (T : gmap string Network.t) : gmap string Network.t :=
  match c with
  | saveNetworkCmd n => <[Network.ID n := n]> T
  | deleteNetworkCmd id => delete id T
  | _ => T
  end.

(** A save of [n] respects the CIDR discipline of the data model when the
    network stored under its id, if any, has its CIDR, and no network
    stored under another id has it. *)
Definition saveRespectsCIDR (n : Network.t) (T : gmap string Network.t) : Prop :=
  map_Forall (λ id n', Network.CIDR n' = Network.CIDR n ↔ id = Network.ID n) T.

(** A list of mutations in which every save of a network respects the
    discipline, starting from the table [T]. *)
Fixpoint cidrDisciplined (cs : list command) (T : gmap string Network.t) : Prop :=
  match cs with
  | [] => True
  | c :: cs' =>
      match c with
      | saveNetworkCmd n => saveRespectsCIDR n T
      | _ => True
      end ∧ cidrDisciplined cs' (networksAfter c T)
  end.

(** The CIDR index holds exactly one entry per stored network, under its
    CIDR. *)
Definition cidrIndexed (s : ipamStateMachine) : Prop :=
  (∀ id n, networks s !! id = Some n → Network.ID n = id) ∧
  ∀ cidr id, networkByCIDR s !! cidr = Some id ↔
    ∃ n, networks s !! id = Some n ∧ Network.CIDR n = cidr.

(** The Pebble database and the state machine hold the same networks and
    the same CIDR index. *)
Definition sameNetworks (db : gmap string PebbleStore.value) (s : ipamStateMachine) : Prop :=
  (∀ id, db !! PebbleStore.networkKey id = PebbleStore.VNetwork <$> networks s !! id) ∧
  (∀ cidr, db !! PebbleStore.cidrIndexKey cidr
           = PebbleStore.VRaw <$> networkByCIDR s !! cidr).

(** The IP index holds exactly one entry per stored allocation, under its
    network id and address. *)
Definition ipIndexed (s : ipamStateMachine) : Prop :=
  ∀ k id, allocationByIP s !! k = Some id ↔
    ∃ a, allocations s !! id = Some a ∧
         ipKey (IPAllocation.NetworkID a) (IPAllocation.IP a) = k.

(** Every id in a per-network list is the id of a stored allocation of that
    network. *)
Definition exactLists (s : ipamStateMachine) : Prop :=
  ∀ nid id, id ∈ default [] (allocationsByNet s !! nid) →
    ∃ a, allocations s !! id = Some a ∧ IPAllocation.NetworkID a = nid.

(** The three indexes hold what the stored records determine, and nothing
    else. *)
Definition indexed (s : ipamStateMachine) : Prop :=
  cidrIndexed s ∧ ipIndexed s ∧ consistent s ∧ exactLists s.

(** A save of [a] respects the address discipline when the allocation
    stored under its id, if any, has its network id and address, and no
    allocation stored under another id has them. *)
Definition saveRespectsIP (a : IPAllocation.t) (T : gmap string IPAllocation.t) : Prop :=
  map_Forall (λ id a',
    (id = IPAllocation.ID a → IPAllocation.NetworkID a' = IPAllocation.NetworkID a) ∧
    (ipKey (IPAllocation.NetworkID a') (IPAllocation.IP a')
       = ipKey (IPAllocation.NetworkID a) (IPAllocation.IP a) ↔ id = IPAllocation.ID a)) T.

(** A command that respects both disciplines in the state [s]. *)
Definition disciplined (c : command) (s : ipamStateMachine) : Prop :=
  match c with
  | saveNetworkCmd n => saveRespectsCIDR n (networks s)
  | saveAllocationCmd a => saveRespectsIP a (allocations s)
  | _ => True
  end.

Fixpoint disciplinedLog (cs : list command) (s : ipamStateMachine) : Prop :=
  match cs with
  | [] => True
  | c :: cs' => disciplined c s ∧ disciplinedLog cs' (apply c s)
  end.

(** A re-save of a stored allocation keeps its network id. *)
Definition keepsNetwork (c : command) (s : ipamStateMachine) : Prop :=
  match c with
  | saveAllocationCmd a =>
      ∀ a', allocations s !! IPAllocation.ID a = Some a' →
        IPAllocation.NetworkID a' = IPAllocation.NetworkID a
  | _ => True
  end.

(** The Pebble database and the state machine hold the same allocations
    and the same IP index. *)
Definition sameAllocations (db : gmap string PebbleStore.value) (s : ipamStateMachine) : Prop :=
  (∀ id, db !! PebbleStore.allocationKey id = PebbleStore.VAllocation <$> allocations s !! id) ∧
  (∀ k, db !! ("index:ip:" +:+ k) = PebbleStore.VRaw <$> allocationByIP s !! k).

(** A mutation on which the two stores stay in step: the strings of a
    saved record are valid UTF-8, and a re-save of a stored allocation keeps
    its network id. *)
Definition agreeable (c : command) (s : ipamStateMachine) : Prop :=
  utf8Command c ∧ keepsNetwork c s.

Fixpoint agreeableLog (cs : list command) (s : ipamStateMachine) : Prop :=
  match cs with
  | [] => True
  | c :: cs' => agreeable c s ∧ agreeableLog cs' (apply c s)
  end.

(** What holds of the two stores along an agreeable log. *)
Record inStep (db : gmap string PebbleStore.value) (s : ipamStateMachine) : Prop := mkInStep {
  step_networks : sameNetworks db s;
  step_allocations : sameAllocations db s;
  step_consistent : consistent s;
  step_exact : exactLists s;
  step_typed : typed db;
  step_network_ids : ∀ id n, networks s !! id = Some n → textual id;
  step_allocation_ids : ∀ id a, allocations s !! id = Some a → textual id
}.

(** Every record of the database has valid UTF-8 strings. *)
Definition utf8Stored (db : gmap string PebbleStore.value) : Prop :=
  ∀ k v, db !! k = Some v →
    match v with
    | PebbleStore.VNetwork n => utf8Network n
    | PebbleStore.VAllocation a => utf8Allocation a
    | PebbleStore.VAuditEntry e => utf8Entry e
    | PebbleStore.VRaw _ => True
    end.

(** An index [idx] that [rebuildIndexes] can build from the records [T],
    where [f] gives the index key of a record: every entry names a record
    of [T] with that key, and every key of a record of [T] has an entry.
    When two records have the same key, the entry names one of them. *)
Definition rebuiltFrom {V : Type} (f : V → string) (T : gmap string V)
    (idx : gmap string string) : Prop :=
  (∀ k id, idx !! k = Some id → ∃ v, T !! id = Some v ∧ f v = k) ∧
  (∀ id v, T !! id = Some v → is_Some (idx !! f v)).

(** The audit entries that the Pebble store holds after the appends [es]:
    under each key, the entry appended last with that key. *)
Definition auditTable (es : list AuditEntry.t) : gmap string AuditEntry.t :=
  foldl (λ m e, <[PebbleStore.auditKey e := e]> m) ∅ es.

(** The log entries that [executeCommand] proposes for the commands [cs]:
    for each command its type byte, followed by bytes that [decode] reads
    back as the command. *)
Definition proposes (g : gobDecoder) (log : list (list Byte.byte)) (cs : list command) : Prop :=
  Forall2 (λ data c, ∃ b cmdData, data = b :: cmdData ∧ Byte.to_N b = commandType c ∧
                                  decodesCommand g cmdData c) log cs.

(** A decoder for the sample records: as a saved network the empty payload
    reads as [net1] and the payload 0x01 as [net2]; every other struct is
    read from the empty payload alone. *)
Definition sampleDecoder : gobDecoder :=
  {| decodeSaveNetworkCmd data :=
       match data with
       | [] => Some net1
       | [Byte.x01] => Some net2
       | _ => None
       end;
     decodeDeleteNetworkCmd data := match data with [] => Some "net1" | _ => None end;
     decodeSaveAllocationCmd data := match data with [] => Some alloc1 | _ => None end;
     decodeDeleteAllocationCmd data := match data with [] => Some "alloc1" | _ => None end;
     decodeSaveAuditCmd data :=
       match data with [] => Some (auditAt "audit0" 1700000000000000000) | _ => None end;
     decodeGetNetworkQuery data := match data with [] => Some "net1" | _ => None end;
     decodeGetNetworkByCIDRQuery data :=
       match data with [] => Some "10.0.0.0/24" | _ => None end;
     decodeGetAllocationQuery data := match data with [] => Some "alloc1" | _ => None end;
     decodeGetAllocationByIPQuery data :=
       match data with [] => Some ("net1", "10.0.0.10") | _ => None end;
     decodeListAllocationsQuery data := match data with [] => Some "net1" | _ => None end;
     decodeListAuditQuery data := match data with [] => Some 10%Z | _ => None end |}.

(** * Separators of the keys *)

(** The separator [_] of the audit key (the byte 0x5f). *)
Definition underscore : Ascii.ascii :=
  Ascii.Ascii true true true true true false true false.

(** A string without the separator [_] and without the byte [0xff]; the
    decimal form of an integer is one. *)
Fixpoint plain (s : string) : Prop :=
  match s with
  | EmptyString => True
  | String c s' =>
      c ≠ underscore ∧ c ≠ Ascii.Ascii true true true true true true true true ∧ plain s'
  end.

(** The separator [:] of the IP index key (the byte 0x3a). *)
Definition colon : Ascii.ascii :=
  Ascii.Ascii false true false true true true false false.

(** A string that holds no colon. *)
Fixpoint colonFree (s : string) : Prop :=
  match s with
  | EmptyString => True
  | String c s' => c ≠ colon ∧ colonFree s'
  end.

(** * Cluster information (raft.go) *)

Module NodeInfo.
Record t := mk {
  NodeID : Z;
  RaftAddr : string;
  IsLeader : bool
}.
End NodeInfo.

Module ClusterInfo.
Record t := mk {
  ClusterID : Z;
  LeaderID : Z;
  HasLeader : bool;
  Nodes : list NodeInfo.t;
  ConfigChangeID : Z
}.
End ClusterInfo.

Module Membership.
(** The membership that the node host returns; of its fields
    [GetClusterInfo] reads [Nodes] and [ConfigChangeID]. *)
Record t := mk {
  ConfigChangeID : Z;
  Nodes : gmap Z string
}.
End Membership.

(** The possible results of [for nodeID, addr := range membership.Nodes]. *)
Definition go_range_nodes (m : gmap Z string) (l : list (Z * string)) : Prop :=
  l ≡ₚ map_to_list m.

(** [GetClusterInfo]: [leaderID] is what [GetLeaderID] returned (leader,
    ok, error), [membership] what [SyncGetClusterMembership] returned, and
    [order] the enumeration of [membership.Nodes] that the loop ranges
    over. *)
Definition GetClusterInfo (clusterID : Z) (leaderID : Z * bool * option error)
    (membership : Membership.t * option error) (order : list (Z * string))
    : option ClusterInfo.t * option error :=
  match leaderID with
  | (_, _, Some err) => (None, Some err)
  | (leader, ok, None) =>
      match membership with
      | (_, Some err) => (None, Some err)
      | (m, None) =>
          let nodes :=
            (λ kv : Z * string,
               {| NodeInfo.NodeID := kv.1; NodeInfo.RaftAddr := kv.2;
                  NodeInfo.IsLeader := bool_decide (kv.1 = leader) |}) <$> order in
          (Some {| ClusterInfo.ClusterID := clusterID;
                   ClusterInfo.LeaderID := leader;
                   ClusterInfo.HasLeader := ok;
                   ClusterInfo.Nodes := nodes;
                   ClusterInfo.ConfigChangeID := Membership.ConfigChangeID m |}, None)
      end
  end.

(** * The HTTP handlers (api/server.go) *)

Module Store.
(** Modelled from the spec: the interface [ipam.Store] is declared outside
    the sources; these are the methods of the store contract that the
    handlers below call, with the signatures of its two implementations.
    [S] is what the store holds; a mutation returns what it holds
    afterwards. *)
Record t (S : Type) := mk {
  ListNetworks : S → outcome (list Network.t * option error);
  DeleteNetwork : string → S → outcome (S * option error);
  ListAllocations : string → S → outcome (list IPAllocation.t * option error)
}.
Arguments ListNetworks {S} _ _.
Arguments DeleteNetwork {S} _ _ _.
Arguments ListAllocations {S} _ _ _.
End Store.

(** The Pebble-backed store as a [Store]. *)
Definition pebbleStore : Store.t (gmap string PebbleStore.value) :=
  {| Store.ListNetworks db := Returns (PebbleStore.ListNetworks db);
     Store.DeleteNetwork id db := Returns (PebbleStore.DeleteNetwork id db);
     Store.ListAllocations networkID db :=
       Returns (PebbleStore.ListAllocations networkID db) |}.

(** The Raft-backed store as a [Store]; [order] as in [RaftStore]. *)
Definition raftStore (order : list (string * Network.t)) : Store.t ipamStateMachine :=
  {| Store.ListNetworks := RaftStore.ListNetworks order;
     Store.DeleteNetwork id s := Returns (RaftStore.DeleteNetwork id s);
     Store.ListAllocations := RaftStore.ListAllocations order |}.

(** What a handler writes: the body is the text of [http.Error], or the
    value that [json.NewEncoder(w).Encode] is given, or nothing. *)
Inductive responseBody :=
| BodyError (msg : string)
| BodyAllocations (l : list IPAllocation.t)
| BodyEmpty.

Record response := mkResponse {
  statusCode : Z;
  body : responseBody
}.

Module Server.

(** [http.Error(w, msg, code)]. *)
Definition httpError (msg : string) (code : Z) : response :=
  {| statusCode := code; body := BodyError msg |}.

Definition StatusOK : Z := 200.
Definition StatusNoContent : Z := 204.
Definition StatusConflict : Z := 409.
Definition StatusInternalServerError : Z := 500.

(** The loop of [deleteNetwork] that counts the allocations whose
    [ReleasedAt] is nil. *)
Definition activeCount (allocations : list IPAllocation.t) : Z :=
  len (filter (λ alloc, IPAllocation.ReleasedAt alloc = None) allocations).

(** [deleteNetwork], for the path variable [id]: what the store holds
    afterwards, and the response. *)
Definition deleteNetwork {S : Type} (store : Store.t S) (id : string) (s : S)
    : outcome (S * response) :=
  match Store.ListAllocations store id s with
  | Panics msg => Panics msg
  | Returns (_, Some err) =>
      Returns (s, httpError (errorString err) StatusInternalServerError)
  | Returns (allocations, None) =>
      if decide (0 < activeCount allocations)%Z then
        Returns (s, httpError "Network has active allocations" StatusConflict)
      else
        match Store.DeleteNetwork store id s with
        | Panics msg => Panics msg
        | Returns (s', Some err) =>
            Returns (s', httpError (errorString err) StatusInternalServerError)
        | Returns (s', None) =>
            Returns (s', {| statusCode := StatusNoContent; body := BodyEmpty |})
        end
  end.

(** The inner loop of [listAllocations]: released allocations are skipped
    unless [showAll]. *)
Definition visible (showAll : bool) (allocations : list IPAllocation.t)
    : list IPAllocation.t :=
  filter (λ alloc, ¬ (showAll = false ∧ IPAllocation.ReleasedAt alloc ≠ None)) allocations.

(** The loop of [listAllocations] over all networks: a network whose
    allocations cannot be listed is skipped. *)
Fixpoint allocationsOf {S : Type} (store : Store.t S) (showAll : bool)
    (networks : list Network.t) (s : S) : outcome (list IPAllocation.t) :=
  match networks with
  | [] => Returns []
  | network :: networks' =>
      match Store.ListAllocations store (Network.ID network) s with
      | Panics msg => Panics msg
      | Returns (_, Some _) => allocationsOf store showAll networks' s
      | Returns (allocations, None) =>
          match allocationsOf store showAll networks' s with
          | Panics msg => Panics msg
          | Returns rest => Returns (visible showAll allocations ++ rest)
          end
      end
  end.

(** [listAllocations]: [networkID] is the query parameter [network_id]
    (empty when absent), [showAll] whether the parameter [all] is the text
    [true]. *)
Definition listAllocations {S : Type} (store : Store.t S) (networkID : string)
    (showAll : bool) (s : S) : outcome response :=
  if decide (networkID ≠ "") then
    match Store.ListAllocations store networkID s with
    | Panics msg => Panics msg
    | Returns (_, Some err) =>
        Returns (httpError (errorString err) StatusInternalServerError)
    | Returns (allocations, None) =>
        Returns {| statusCode := StatusOK;
                   body := BodyAllocations (visible showAll allocations) |}
    end
  else
    match Store.ListNetworks store s with
    | Panics msg => Panics msg
    | Returns (_, Some err) =>
        Returns (httpError (errorString err) StatusInternalServerError)
    | Returns (networks, None) =>
        match allocationsOf store showAll networks s with
        | Panics msg => Panics msg
        | Returns allAllocations =>
            Returns {| statusCode := StatusOK; body := BodyAllocations allAllocations |}
        end
    end.

End Server.

(** * The command line (package cmd) *)

(** [networkDeleteCmd] of the command line (cmd, [network delete]): what
    the store holds afterwards and the error that the command returns. *)
Definition networkDelete {S : Type} (ipamStore : Store.t S) (id : string) (s : S)
    : outcome (S * option error) :=
  match Store.ListAllocations ipamStore id s with
  | Panics msg => Panics msg
  | Returns (_, Some err) =>
      Returns (s, Some (ErrInternal ("failed to check allocations: " +:+ errorString err)))
  | Returns (allocations, None) =>
      if decide (0 < len allocations)%Z then
        Returns (s, Some (ErrInternal "cannot delete network with active allocations"))
      else
        match Store.DeleteNetwork ipamStore id s with
        | Panics msg => Panics msg
        | Returns (s', Some err) =>
            Returns (s', Some (ErrInternal ("failed to delete network: " +:+ errorString err)))
        | Returns (s', None) => Returns (s', None)
        end
  end.

(** The search of the command [release] (cmd/release.go) for the network
    of an address, over the networks that [ListNetworks] returned: the id
    of the first network that lists an allocation of the address with a nil
    [ReleasedAt], or the empty string.  A network whose allocations cannot
    be listed is skipped. *)
Fixpoint detectNetwork (db : gmap string PebbleStore.value) (ip : string)
    (networks : list Network.t) : string :=
  match networks with
  | [] => ""
  | network :: networks' =>
      match PebbleStore.ListAllocations (Network.ID network) db with
      | (_, Some _) => detectNetwork db ip networks'
      | (allocations, None) =>
          let networkID :=
            if decide (Exists (λ alloc, IPAllocation.IP alloc = ip ∧
                                        IPAllocation.ReleasedAt alloc = None) allocations)
            then Network.ID network else "" in
          if decide (networkID ≠ "") then networkID else detectNetwork db ip networks'
      end
  end.

(** The command [release] up to its call of [ReleaseIP]: the network id
    that it passes on, or the error that it returns.  [networkID] is the
    flag [network-id], empty when absent. *)
Definition releaseNetwork (ip networkID : string) (db : gmap string PebbleStore.value)
    : option string * option error :=
  if decide (networkID = "") then
    match PebbleStore.ListNetworks db with
    | (_, Some err) =>
        (None, Some (ErrInternal ("failed to list networks: " +:+ errorString err)))
    | (networks, None) =>
        let found := detectNetwork db ip networks in
        if decide (found = "") then
          (None, Some (ErrInternal ("IP " +:+ ip +:+ " not found in any network")))
        else (Some found, None)
    end
  else (Some networkID, None).

(** [truncate]: the slice expression [s[:max-3]] panics when [max-3] is
    negative or exceeds [len(s)]. *)
Definition truncate (s : string) (max : Z) : outcome string :=
  if decide (Z.of_nat (String.length s) ≤ max)%Z then Returns s
  else
    let high := int_wrap (max - 3) in
    if decide (0 ≤ high ≤ Z.of_nat (String.length s))%Z
    then Returns (String.substring 0 (Z.to_nat high) s +:+ "...")
    else Panics "slice bounds out of range".

(** * The cluster configuration (package config) *)

Module ClusterConfig.
Record t := mk {
  NodeID : Z;
  ClusterID : Z;
  RaftAddr : string;
  APIAddr : string;
  DataDir : string;
  Join : bool;
  InitialMembers : gmap Z string;
  EnableSingleNode : bool
}.
End ClusterConfig.

(** [strings.Split(s, sep)] for a separator of one byte: the substrings
    between the separators, in order; a string without separator is the
    only element. *)
Fixpoint Split (s : string) (sep : Ascii.ascii) : list string :=
  match s with
  | EmptyString => [EmptyString]
  | String c s' =>
      if decide (c = sep) then EmptyString :: Split s' sep
      else
        match Split s' sep with
        | [] => [String c EmptyString]
        | part :: parts => String c part :: parts
        end
  end.

(** [strings.SplitN(s, sep, 2)] for a separator of one byte: the text
    before the first separator and the text after it, or [s] alone when it
    holds none. *)
Fixpoint SplitN2 (s : string) (sep : Ascii.ascii) : list string :=
  match s with
  | EmptyString => [EmptyString]
  | String c s' =>
      if decide (c = sep) then [EmptyString; s']
      else
        match SplitN2 s' sep with
        | [before; after] => [String c before; after]
        | _ => [s]
        end
  end.

(** The separator [,] of the member list (the byte 0x2c). *)
Definition comma : Ascii.ascii :=
  Ascii.Ascii false false true true false true false false.

Section Config.
(** The functions of the Go library that the package calls:
    [net.SplitHostPort] returns host and port or the text of an error,
    [strconv.Atoi] and [strconv.ParseUint(s, 10, 64)] a number or an error
    (with its text for [ParseUint], which the caller wraps),
    [strings.TrimSpace] a string. *)
Variable SplitHostPort : string → string + string * string.
Variable Atoi : string → option Z.
Variable ParseUint : string → string + Z.
Variable TrimSpace : string → string.

(** One turn of the loop of [Validate] over the initial members. *)
Definition validateMember (kv : Z * string) : option error :=
  if decide (kv.1 = 0%Z) then
    Some (ErrInternal "node ID in initial members must be greater than 0")
  else
    match SplitHostPort kv.2 with
    | inl err =>
        Some (ErrInternal ("invalid address for node " +:+ pretty kv.1 +:+ ": " +:+ err))
    | inr (host, port) =>
        if decide (host = "" ∨ port = "") then
          Some (ErrInternal ("invalid address for node " +:+ pretty kv.1 +:+ ": " +:+ kv.2))
        else None
    end.

(** The loop: the first member that fails ends it with its error. *)
Fixpoint validateMembers (order : list (Z * string)) : option error :=
  match order with
  | [] => None
  | kv :: order' =>
      match validateMember kv with
      | Some err => Some err
      | None => validateMembers order'
      end
  end.

(** [Validate]; [order] is the enumeration of [c.InitialMembers] that its
    loop ranges over, and [afterRaftAddr] the checks that follow those of
    the Raft address. *)
Definition Validate (order : list (Z * string)) (c : ClusterConfig.t) : option error :=
  let afterRaftAddr :=
    if decide (ClusterConfig.DataDir c = "") then
      Some (ErrInternal "data directory is required")
    else if decide (ClusterConfig.EnableSingleNode c = false ∧
                    ClusterConfig.InitialMembers c = ∅) then
      Some (ErrInternal "initial members are required for cluster mode")
    else if decide (ClusterConfig.Join c = true ∧
                    ClusterConfig.InitialMembers c = ∅) then
      Some (ErrInternal "initial members are required when joining a cluster")
    else if decide (ClusterConfig.InitialMembers c ≠ ∅ ∧
                    ClusterConfig.InitialMembers c !! ClusterConfig.NodeID c = None ∧
                    ClusterConfig.Join c = false) then
      Some (ErrInternal ("this node (ID " +:+ pretty (ClusterConfig.NodeID c)
                         +:+ ") must be in the initial members list"))
    else validateMembers order in
  if decide (ClusterConfig.NodeID c = 0%Z) then
    Some (ErrInternal "node ID must be greater than 0")
  else if decide (ClusterConfig.ClusterID c = 0%Z) then
    Some (ErrInternal "cluster ID must be greater than 0")
  else if decide (ClusterConfig.RaftAddr c = "") then
    Some (ErrInternal "raft address is required")
  else
    match SplitHostPort (ClusterConfig.RaftAddr c) with
    | inl err => Some (ErrInternal ("invalid raft address format: " +:+ err))
    | inr (host, port) =>
        if decide (host = "") then
          Some (ErrInternal "raft address must include hostname or IP")
        else
          match Atoi port with
          | None => Some (ErrInternal "invalid raft port number")
          | Some portNum =>
              if decide (portNum ≤ 0 ∨ 65535 < portNum)%Z then
                Some (ErrInternal "invalid raft port number")
              else afterRaftAddr
          end
    end.

(** The body of the loop of [ParseInitialMembers] for one pair. *)
Definition parseMember (pair : string) : error + Z * string :=
  match SplitN2 pair colon with
  | [part0; part1] =>
      match ParseUint (TrimSpace part0) with
      | inl err => inl (ErrInternal ("invalid node ID in " +:+ pair +:+ ": " +:+ err))
      | inr nodeID =>
          let address := TrimSpace part1 in
          if decide (address = "") then
            inl (ErrInternal ("empty address for node " +:+ pretty nodeID))
          else inr (nodeID, address)
      end
  | _ =>
      inl (ErrInternal ("invalid member format: " +:+ pair
                        +:+ " (expected nodeID:address)"))
  end.

(** The loop of [ParseInitialMembers] over the pairs. *)
Fixpoint parseMembers (pairs : list string) (members : gmap Z string)
    : option (gmap Z string) * option error :=
  match pairs with
  | [] => (Some members, None)
  | item :: pairs' =>
      match parseMember item with
      | inl err => (None, Some err)
      | inr (nodeID, address) => parseMembers pairs' (<[nodeID := address]> members)
      end
  end.

(** [ParseInitialMembers]: the nil map is [None]. *)
Definition ParseInitialMembers (membersStr : string)
    : option (gmap Z string) * option error :=
  if decide (membersStr = "") then (None, None)
  else parseMembers (Split membersStr comma) ∅.

End Config.

(** * Properties *)

Section StateMachineBasics.

Lemma sm_eta s :
  s = mkSM (clusterID s) (nodeID s) (networks s) (allocations s) (audit s)
        (networkByCIDR s) (allocationByIP s) (allocationsByNet s).
Proof. by destruct s. Qed.

Lemma found_spec x l : found x l = true ↔ x ∈ l.
Proof.
  unfold found. rewrite existsb_exists. split.
  - intros (y & Hy & Heq). apply String.eqb_eq in Heq as ->. by apply list_elem_of_In.
  - intros Hx. exists x. split; [by apply list_elem_of_In | apply String.eqb_refl].
Qed.


Lemma len_app {A} (l k : list A) : len (l ++ k) = (len l + len k)%Z.
Proof. unfold len. rewrite length_app. lia. Qed.

Lemma int_wrap_id z : (- 2 ^ 63 ≤ z < 2 ^ 63)%Z → int_wrap z = z.
Proof. intros H. unfold int_wrap. rewrite Z.mod_small; lia. Qed.

Lemma applyAll_app cs1 cs2 s : applyAll (cs1 ++ cs2) s = applyAll cs2 (applyAll cs1 s).
Proof. unfold applyAll. by rewrite foldl_app. Qed.

Lemma applyAll_snoc cs c s : applyAll (cs ++ [c]) s = apply c (applyAll cs s).
Proof. by rewrite applyAll_app. Qed.

Lemma reachable_applyAll cs s : reachable s → reachable (applyAll cs s).
Proof.
  revert s. induction cs as [|c cs IH]; intros s Hs; [done|].
  simpl. apply IH. by constructor.
Qed.

End StateMachineBasics.

(** ** Determinism of apply *)

Section Determinism.
Variable g : gobDecoder.

Lemma apply_withIDs c n cmd s : apply cmd (withIDs c n s) = withIDs c n (apply cmd s).
Proof.
  destruct cmd as [net|id|a|id|e]; simpl.
  - done.
  - unfold applyDeleteNetwork, withIDs; simpl.
    destruct (networks s !! id); [|done].
    by destruct (allocationsByNet s !! id).
  - done.
  - unfold applyDeleteAllocation, withIDs; simpl.
    by destruct (allocations s !! id).
  - done.
Qed.

Lemma Update_withIDs c n s data :
  Update g (withIDs c n s) data = (withIDs c n (Update g s data).1, (Update g s data).2).
Proof.
  unfold Update, applyEntry.
  destruct data as [|b data]; [done|].
  assert (Hd : ∀ A (d : option A) mk,
    withDecoded d mk (withIDs c n s)
    = (withIDs c n (withDecoded d mk s).1, (withDecoded d mk s).2)).
  { intros A [x|] mk; simpl; [|done]. by rewrite apply_withIDs. }
  destruct (Byte.to_N b) as [|[[[|[]|]|[[]|[]|]|]|[[|[]|]|[]|]|]]; rewrite ?Hd;
    repeat first [done | match goal with |- context [withDecoded ?d ?mk ?s] =>
      destruct (withDecoded d mk s) as [? [? []]] end]; simpl.
Qed.

Lemma replay_withIDs c n log s :
  replay g log (withIDs c n s) = withIDs c n (replay g log s).
Proof.
  revert s. induction log as [|data log IH]; intros s; [done|].
  unfold replay in *. simpl. rewrite Update_withIDs. simpl. apply IH.
Qed.

Lemma replayResults_withIDs c n log s :
  replayResults g log (withIDs c n s) = replayResults g log s.
Proof.
  revert s. induction log as [|data log IH]; intros s; [done|].
  simpl. rewrite Update_withIDs. simpl. by rewrite IH.
Qed.

Lemma Lookup_withIDs c n order s q : Lookup order (withIDs c n s) q = Lookup order s q.
Proof. by destruct q. Qed.

Lemma LookupBytes_withIDs c n order s data :
  LookupBytes g order (withIDs c n s) data = LookupBytes g order s data.
Proof.
  unfold LookupBytes. destruct data as [|b data]; [done|].
  assert (Hd : ∀ A (d : option A) mk,
    lookupDecoded d mk order (withIDs c n s) = lookupDecoded d mk order s).
  { intros A [x|] mk; simpl; [|done]. apply Lookup_withIDs. }
  by destruct (Byte.to_N b) as [|[[[|[]|]|[[]|[]|]|]|[[|[]|]|[]|]|]]; rewrite ?Hd.
Qed.

End Determinism.

(** The bytes that [executeCommand] proposes, the type byte followed by an
    encoding that decodes to the command, are applied by [Update] as
    [apply] applies the command; likewise for [executeQuery] and [Lookup]. *)
Lemma Update_decoded g s b data c :
  Byte.to_N b = commandType c → decodesCommand g data c →
  Update g s (b :: data) = (apply c s, ({| Value := 1; Data := None |}, None)).
Proof.
  intros Hb Hd. unfold Update, applyEntry. rewrite Hb.
  destruct c; cbn in Hd |- *; by rewrite Hd.
Qed.

Lemma LookupBytes_decoded g order s b data q :
  Byte.to_N b = queryType q → decodesQuery g data q →
  LookupBytes g order s (b :: data) = Lookup order s q.
Proof.
  intros Hb Hd. unfold LookupBytes. rewrite Hb.
  destruct q; cbn in Hd |- *; try done; by rewrite Hd.
Qed.

(** A log of proposed commands is replayed as [apply] applies the
    commands. *)
Lemma replay_proposes g log cs s : proposes g log cs → replay g log s = applyAll cs s.
Proof.
  intros H. revert s. induction H as [|data c log cs (b & cmdData & -> & Hb & Hd) _ IH];
    intros s; [done|].
  unfold replay, applyAll in *. cbn [foldl]. rewrite (Update_decoded g s b cmdData c Hb Hd).
  apply IH.
Qed.

(** Of the queries, [queryListNetworks] alone depends on the enumeration
    of the map. *)
Lemma Lookup_order order order' s q :
  q ≠ listNetworksQuery → Lookup order s q = Lookup order' s q.
Proof. by destruct q. Qed.

Lemma LookupBytes_order g order order' s data :
  (∀ b rest, data = b :: rest → Byte.to_N b ≠ 2%N) →
  LookupBytes g order s data = LookupBytes g order' s data.
Proof.
  intros Hb. unfold LookupBytes. destruct data as [|b queryData]; [done|].
  specialize (Hb b queryData eq_refl).
  assert (Hd : ∀ A (d : option A) mk, (∀ x, mk x ≠ listNetworksQuery) →
    lookupDecoded d mk order s = lookupDecoded d mk order' s).
  { intros A [x|] mk Hmk; cbn; [|done]. by apply Lookup_order. }
  destruct (Byte.to_N b) as [|[[[|[]|]|[[]|[]|]|]|[[|[]|]|[]|]|]]; try done; by apply Hd.
Qed.

(** C8 (as amended). Applying a log is a function of the prior state and
    the entry bytes alone.  Two fresh state machines (of whatever cluster
    and node id) that replay the same log of byte strings hold equal
    networks, allocations, audit list and indexes, and hand back equal
    results; when the log is the one proposed for a list of commands, both
    hold the state that applying these commands in order gives.  They
    answer every query alike except [queryListNetworks], whatever the
    enumerations of the map of networks that their lookups meet; to
    [queryListNetworks] they answer with the same networks, in the order of
    the enumeration that each of them meets. *)
Theorem apply_deterministic (g : gobDecoder) (log : list (list Byte.byte)) (cs : list command)
    (c1 n1 c2 n2 : Z) (order1 order2 : list (string * Network.t)) :
  let s1 := replay g log (newIPAMStateMachine c1 n1) in
  let s2 := replay g log (newIPAMStateMachine c2 n2) in
  go_range (networks s1) order1 → go_range (networks s2) order2 →
  (networks s1 = networks s2 ∧ allocations s1 = allocations s2 ∧ audit s1 = audit s2 ∧
   networkByCIDR s1 = networkByCIDR s2 ∧ allocationByIP s1 = allocationByIP s2 ∧
   allocationsByNet s1 = allocationsByNet s2 ∧
   replayResults g log (newIPAMStateMachine c1 n1)
     = replayResults g log (newIPAMStateMachine c2 n2)) ∧
  (proposes g log cs →
   s1 = applyAll cs (newIPAMStateMachine c1 n1) ∧
   s2 = applyAll cs (newIPAMStateMachine c2 n2)) ∧
  (∀ q, q ≠ listNetworksQuery → Lookup order1 s1 q = Lookup order2 s2 q) ∧
  (∀ query, (∀ b rest, query = b :: rest → Byte.to_N b ≠ 2%N) →
     LookupBytes g order1 s1 query = LookupBytes g order2 s2 query) ∧
  ∃ l1 l2, Lookup order1 s1 listNetworksQuery = Returns (INetworks l1, None) ∧
           Lookup order2 s2 listNetworksQuery = Returns (INetworks l2, None) ∧
           l1 ≡ₚ l2.
Proof.
  intros s1 s2 Ho1 Ho2.
  assert (Hnew : newIPAMStateMachine c2 n2 = withIDs c2 n2 (newIPAMStateMachine c1 n1)) by done.
  assert (Hs : s2 = withIDs c2 n2 s1).
  { unfold s2, s1. by rewrite Hnew, replay_withIDs. }
  split; [|split; [|split; [|split]]].
  - rewrite Hs, Hnew, replayResults_withIDs. by split_and!.
  - intros Hp. unfold s1, s2. by rewrite !(replay_proposes _ _ _ _ Hp).
  - intros q Hq. rewrite Hs, Lookup_withIDs. by apply Lookup_order.
  - intros query Hq. rewrite Hs, LookupBytes_withIDs. by apply LookupBytes_order.
  - exists (order1.*2), (order2.*2). split; [done|]. split; [done|].
    unfold go_range in Ho1, Ho2. rewrite Hs in Ho2. cbn [networks withIDs] in Ho2.
    by rewrite Ho1, Ho2.
Qed.

Lemma apply_deterministic_witness :
  let log := [[Byte.x00]; [Byte.x00; Byte.x01]; [Byte.x02]] in
  let cs := [saveNetworkCmd net1; saveNetworkCmd net2; saveAllocationCmd alloc1] in
  let s1 := replay sampleDecoder log (newIPAMStateMachine 1 1) in
  let s2 := replay sampleDecoder log (newIPAMStateMachine 1 2) in
  let order1 := [("net1", net1); ("net2", net2)] in
  let order2 := [("net2", net2); ("net1", net1)] in
  (go_range (networks s1) order1 ∧ go_range (networks s2) order2 ∧
   proposes sampleDecoder log cs) ∧
  s2 = applyAll cs (newIPAMStateMachine 1 2) ∧
  networks s1 = networks s2 ∧
  Lookup order1 s1 (getAllocationByIPQuery "net1" "10.0.0.10")
    = Lookup order2 s2 (getAllocationByIPQuery "net1" "10.0.0.10").
Proof.
  intros log cs s1 s2 order1 order2.
  assert (Ho1 : go_range (networks s1) order1).
  { unfold go_range. vm_compute. first [apply Permutation_refl | apply perm_swap]. }
  assert (Ho2 : go_range (networks s2) order2).
  { unfold go_range. vm_compute. first [apply Permutation_refl | apply perm_swap]. }
  assert (Hp : proposes sampleDecoder log cs).
  { repeat constructor; eexists _, _; split_and!; reflexivity. }
  split; [exact (conj Ho1 (conj Ho2 Hp))|].
  destruct (apply_deterministic sampleDecoder log cs 1 1 1 2 order1 order2 Ho1 Ho2)
    as ((Hn & _) & Hrun & Hq & _).
  split; [exact (proj2 (Hrun Hp))|]. split; [exact Hn|].
  apply Hq. discriminate.
Defined.

(** C8, counterexample.  Two replicas replay the same log, which saves
    [net1] and [net2].  [Lookup] builds the answer to [queryListNetworks]
    by ranging over the map of networks, in an order that the language
    leaves open: to the same query bytes one replica answers with [net1],
    [net2] and the other with [net2], [net1]. *)
Lemma replicas_list_networks_in_different_orders :
  let log := [[Byte.x00]; [Byte.x00; Byte.x01]] in
  let s1 := replay sampleDecoder log (newIPAMStateMachine 1 1) in
  let s2 := replay sampleDecoder log (newIPAMStateMachine 1 2) in
  let order1 := [("net1", net1); ("net2", net2)] in
  let order2 := [("net2", net2); ("net1", net1)] in
  go_range (networks s1) order1 ∧ go_range (networks s2) order2 ∧
  LookupBytes sampleDecoder order1 s1 [Byte.x02] = Returns (INetworks [net1; net2], None) ∧
  LookupBytes sampleDecoder order2 s2 [Byte.x02] = Returns (INetworks [net2; net1], None) ∧
  LookupBytes sampleDecoder order1 s1 [Byte.x02]
    ≠ LookupBytes sampleDecoder order2 s2 [Byte.x02].
Proof.
  intros log s1 s2 order1 order2. split_and!.
  - unfold go_range. vm_compute. first [apply Permutation_refl | apply perm_swap].
  - unfold go_range. vm_compute. first [apply Permutation_refl | apply perm_swap].
  - reflexivity.
  - reflexivity.
  - discriminate.
Qed.

(** ** The audit list of the state machine *)

Section AuditList.

Lemma audit_apply_other c s :
  (∀ e, c ≠ saveAuditCmd e) → audit (apply c s) = audit s.
Proof.
  intros Hc. destruct c as [net|id|a|id|e]; simpl; try done.
  - unfold applyDeleteNetwork. destruct (networks s !! id); [|done].
    by destruct (allocationsByNet s !! id).
  - unfold applyDeleteAllocation. by destruct (allocations s !! id).
  - by destruct (Hc e).
Qed.

Lemma appended_snoc cs c :
  appended (cs ++ [c])
  = appended cs ++ match c with saveAuditCmd e => [e] | _ => [] end.
Proof. unfold appended. rewrite omap_app. by destruct c. Qed.

Lemma lastN_short {A} n (l : list A) : (len l ≤ n)%Z → lastN n l = l.
Proof. intros H. unfold lastN. by replace (Z.to_nat (len l - n)) with 0%nat by lia. Qed.

Lemma len_lastN {A} n (l : list A) : (0 ≤ n ≤ len l)%Z → len (lastN n l) = n.
Proof. unfold lastN, len. intros H. rewrite length_drop. lia. Qed.

Lemma lastN_snoc {A} n (l : list A) x :
  (0 < n)%Z →
  lastN n (l ++ [x]) =
    let a := lastN n l ++ [x] in
    if decide (n < len a)%Z then drop (Z.to_nat (len a - n)) a else a.
Proof.
  intros Hn. simpl. destruct (decide (len l < n)%Z) as [Hlt|Hge].
  - rewrite (lastN_short n l) by lia.
    assert (Hx : len (l ++ [x]) = (len l + 1)%Z) by (by rewrite len_app).
    rewrite decide_False by lia. apply lastN_short. lia.
  - assert (Hl : len (lastN n l) = n) by (apply len_lastN; lia).
    assert (Hx : len (lastN n l ++ [x]) = (n + 1)%Z) by (by rewrite len_app, Hl).
    rewrite decide_True by lia. rewrite Hx. unfold lastN. rewrite len_app.
    replace (Z.to_nat (n + 1 - n)) with 1%nat by lia.
    change (len [x]) with 1%Z.
    replace (Z.to_nat (len l + 1 - n)) with (S (Z.to_nat (len l - n))) by lia.
    assert (Hle : (Z.to_nat (len l - n) ≤ length l)%nat) by (unfold len; lia).
    rewrite <- (drop_app_le _ _ _ Hle), drop_drop. f_equal. lia.
Qed.

Lemma audit_applyAll cs c n :
  audit (applyAll cs (newIPAMStateMachine c n)) = lastN auditCap (appended cs).
Proof.
  induction cs as [|cmd cs IH] using rev_ind; [done|].
  rewrite applyAll_snoc, appended_snoc.
  destruct cmd as [net|id|a|id|e];
    try (rewrite audit_apply_other by done; by rewrite app_nil_r).
  simpl apply. unfold applySaveAudit. cbn [audit]. rewrite IH.
  by rewrite lastN_snoc.
Qed.

Lemma len_lastN_le {A} n (l : list A) : (0 ≤ n)%Z → (len (lastN n l) ≤ n)%Z.
Proof. unfold lastN, len. intros H. rewrite length_drop. lia. Qed.

End AuditList.

(** ** The cascade of a network delete, the rebuilt indexes, the invariant *)

Section Cascade.

Lemma cascade_allocations ids (A : gmap string IPAllocation.t) (I : gmap string string) id :
  (foldl cascadeStep (A, I) ids).1 !! id = if decide (id ∈ ids) then None else A !! id.
Proof.
  revert A I. induction ids as [|x ids IH]; intros A I; cbn [foldl].
  - rewrite decide_False; [done | apply not_elem_of_nil].
  - assert (Hstep : (cascadeStep (A, I) x).1 = delete x A).
    { unfold cascadeStep. cbn [fst]. destruct (A !! x) eqn:Hx; [done|].
      cbn [fst]. by rewrite delete_id. }
    destruct (cascadeStep (A, I) x) as [A' I'] eqn:E. cbn [fst] in Hstep. subst A'.
    rewrite IH. destruct (decide (id = x)) as [->|Hne].
    + rewrite (decide_True (P := x ∈ x :: ids)) by (by left).
      case_decide; [done | apply lookup_delete_eq].
    + rewrite lookup_delete_ne by done. destruct (decide (id ∈ ids)) as [Hin|Hnin].
      * rewrite decide_True; [done | by right].
      * rewrite decide_False; [done|]. by intros [?|?]%elem_of_cons.
Qed.

Lemma cascade_index_sub ids (A : gmap string IPAllocation.t) (I : gmap string string) k v :
  (foldl cascadeStep (A, I) ids).2 !! k = Some v → I !! k = Some v.
Proof.
  revert A I. induction ids as [|x ids IH]; intros A I; cbn [foldl]; [done|].
  unfold cascadeStep at 2. cbn [fst snd]. destruct (A !! x) as [a|]; [|apply IH].
  intros H%IH. by apply lookup_delete_Some in H as [_ H].
Qed.

Lemma cascade_index_gone ids (A : gmap string IPAllocation.t) (I : gmap string string) id a :
  id ∈ ids → A !! id = Some a →
  (foldl cascadeStep (A, I) ids).2
    !! ipKey (IPAllocation.NetworkID a) (IPAllocation.IP a) = None.
Proof.
  revert A I. induction ids as [|x ids IH]; intros A I Hin Ha; [by apply elem_of_nil in Hin|].
  cbn [foldl]. unfold cascadeStep at 2. cbn [fst snd].
  destruct (decide (x = id)) as [->|Hne].
  - rewrite Ha. apply eq_None_not_Some. intros [v Hv].
    apply cascade_index_sub in Hv. by rewrite lookup_delete_eq in Hv.
  - assert (id ∈ ids) by (apply elem_of_cons in Hin as [?|?]; [congruence | done]).
    destruct (A !! x) as [b|]; [|by apply IH].
    apply IH; [done|]. by rewrite lookup_delete_ne.
Qed.

Lemma cascade_index_kept ids (A : gmap string IPAllocation.t) (I : gmap string string) k :
  (∀ id a, id ∈ ids → A !! id = Some a →
     ipKey (IPAllocation.NetworkID a) (IPAllocation.IP a) ≠ k) →
  (foldl cascadeStep (A, I) ids).2 !! k = I !! k.
Proof.
  revert A I. induction ids as [|x ids IH]; intros A I Hk; [done|].
  cbn [foldl]. unfold cascadeStep at 2. cbn [fst snd].
  destruct (A !! x) as [b|] eqn:Hx.
  - rewrite IH.
    + apply lookup_delete_ne. apply (Hk x b); [by left | done].
    + intros id a Hin Ha. apply lookup_delete_Some in Ha as [_ Ha].
      apply (Hk id a); [by right | done].
  - apply IH. intros id a Hin Ha. apply (Hk id a); [by right | done].
Qed.

End Cascade.

Section Rebuild.

Lemma rebuildAllocStep_byNet I B kv nid :
  (rebuildAllocStep (I, B) kv).2 !! nid
  = if decide (IPAllocation.NetworkID kv.2 = nid)
    then Some (default [] (B !! nid) ++ [kv.1]) else B !! nid.
Proof.
  unfold rebuildAllocStep. cbn [fst snd].
  destruct (decide (IPAllocation.NetworkID kv.2 = nid)) as [<-|Hne].
  - rewrite lookup_insert_eq. by destruct (B !! IPAllocation.NetworkID kv.2) eqn:HB;
      rewrite ?HB, ?lookup_insert_eq.
  - rewrite lookup_insert_ne by done.
    destruct (B !! IPAllocation.NetworkID kv.2); [done|]. by rewrite lookup_insert_ne.
Qed.

Lemma rebuild_byNet allocs I B nid :
  (foldl rebuildAllocStep (I, B) allocs).2 !! nid
  = match B !! nid, byNetOf allocs nid with
    | None, [] => None
    | o, l => Some (default [] o ++ l)
    end.
Proof.
  revert I B. induction allocs as [|kv allocs IH]; intros I B; cbn [foldl].
  - unfold byNetOf. simpl. destruct (B !! nid); [by rewrite app_nil_r | done].
  - destruct (rebuildAllocStep (I, B) kv) as [I' B'] eqn:Hstep.
    rewrite IH. pose proof (rebuildAllocStep_byNet I B kv nid) as HB'.
    rewrite Hstep in HB'. cbn [snd] in HB'. rewrite HB'.
    unfold byNetOf. rewrite filter_cons.
    destruct (decide (IPAllocation.NetworkID kv.2 = nid)) as [Heq|Hne]; [|done].
    rewrite fmap_cons. destruct (B !! nid); simpl; [by rewrite <- app_assoc | done].
Qed.

Lemma rebuild_byNet_default allocs nid :
  default [] ((foldl rebuildAllocStep (∅, ∅) allocs).2 !! nid) = byNetOf allocs nid.
Proof. rewrite rebuild_byNet, lookup_empty. by destruct (byNetOf allocs nid). Qed.

Lemma elem_of_byNetOf allocs nid id :
  id ∈ byNetOf allocs nid ↔ ∃ a, (id, a) ∈ allocs ∧ IPAllocation.NetworkID a = nid.
Proof.
  unfold byNetOf. rewrite list_elem_of_fmap. split.
  - intros ([id' a] & -> & [Hn Hin]%list_elem_of_filter). by exists a.
  - intros (a & Hin & Hn). exists (id, a). split; [done|].
    by apply list_elem_of_filter.
Qed.

Lemma NoDup_byNetOf allocs nid : NoDup allocs.*1 → NoDup (byNetOf allocs nid).
Proof.
  unfold byNetOf. induction allocs as [|kv allocs IH]; [constructor|].
  rewrite fmap_cons, NoDup_cons. intros [Hnotin Hnd]. rewrite filter_cons.
  case_decide; [|by apply IH]. rewrite fmap_cons. apply NoDup_cons. split; [|by apply IH].
  intros ([id a] & Heq & [_ Hin]%list_elem_of_filter)%list_elem_of_fmap.
  apply Hnotin. apply list_elem_of_fmap. by exists (id, a).
Qed.

Lemma go_range_NoDup {V} (m : gmap string V) l : go_range m l → NoDup l.*1.
Proof. unfold go_range. intros ->. apply NoDup_fst_map_to_list. Qed.

Lemma go_range_elem {V} (m : gmap string V) l k v :
  go_range m l → (k, v) ∈ l ↔ m !! k = Some v.
Proof. unfold go_range. intros ->. apply elem_of_map_to_list. Qed.

End Rebuild.

Section Consistency.

Lemma saveAllocation_byNet alloc s k :
  allocationsByNet (applySaveAllocation alloc s) !! k =
    if decide (k = IPAllocation.NetworkID alloc) then
      Some (let l := default [] (allocationsByNet s !! k) in
            if found (IPAllocation.ID alloc) l then l else l ++ [IPAllocation.ID alloc])
    else allocationsByNet s !! k.
Proof.
  unfold applySaveAllocation. cbn [allocationsByNet].
  set (nid := IPAllocation.NetworkID alloc).
  set (byNet1 := match allocationsByNet s !! nid with
                 | Some _ => allocationsByNet s
                 | None => <[nid := []]> (allocationsByNet s) end).
  assert (H1 : byNet1 !! nid = Some (default [] (allocationsByNet s !! nid))).
  { unfold byNet1. destruct (allocationsByNet s !! nid) eqn:E; [done|].
    by rewrite lookup_insert_eq. }
  assert (H2 : ∀ k, k ≠ nid → byNet1 !! k = allocationsByNet s !! k).
  { intros k' Hk. unfold byNet1. destruct (allocationsByNet s !! nid); [done|].
    by rewrite lookup_insert_ne. }
  rewrite H1. cbn [default]. case_decide as Hk.
  - subst k. destruct (found _ _); [done|]. by rewrite lookup_insert_eq.
  - destruct (found _ _); [by apply H2|]. rewrite lookup_insert_ne by done. by apply H2.
Qed.

Lemma deleteNetwork_present id n s :
  networks s !! id = Some n →
  applyDeleteNetwork id s =
    let ids := default [] (allocationsByNet s !! id) in
    let r := foldl cascadeStep (allocations s, allocationByIP s) ids in
    {| clusterID := clusterID s; nodeID := nodeID s;
       networks := delete id (networks s); allocations := r.1; audit := audit s;
       networkByCIDR := delete (Network.CIDR n) (networkByCIDR s);
       allocationByIP := r.2;
       allocationsByNet := delete id (allocationsByNet s) |}.
Proof.
  intros Hn. unfold applyDeleteNetwork. rewrite Hn.
  destruct (allocationsByNet s !! id) eqn:E; [done|].
  cbn [default foldl fst snd]. by rewrite (delete_id _ _ E).
Qed.

Lemma consistent_new c n : consistent (newIPAMStateMachine c n).
Proof. by split; simpl; intros *; rewrite lookup_empty. Qed.

Lemma consistent_saveNetwork n s : consistent s → consistent (applySaveNetwork n s).
Proof.
  intros [Hn Ha Hd Hc]. split; simpl; [|done..].
  intros id n' [[<- <-]|[_ H]]%lookup_insert_Some; [done | by apply Hn].
Qed.

Lemma consistent_deleteNetwork id s : consistent s → consistent (applyDeleteNetwork id s).
Proof.
  intros [Hn Ha Hd Hc]. destruct (networks s !! id) as [n|] eqn:E.
  2:{ unfold applyDeleteNetwork. by rewrite E. }
  rewrite (deleteNetwork_present _ _ _ E). split; cbn -[foldl].
  - intros id' n' [_ H]%lookup_delete_Some. by apply Hn.
  - intros id' a. rewrite cascade_allocations. case_decide; [done | apply Ha].
  - intros nid l [_ H]%lookup_delete_Some. by apply (Hd nid).
  - intros id' a. rewrite cascade_allocations. case_decide as Hin; [done|].
    intros Hst. specialize (Hc _ _ Hst).
    destruct (decide (IPAllocation.NetworkID a = id)) as [Heq|Hne].
    + by rewrite Heq in Hc.
    + by rewrite lookup_delete_ne.
Qed.

Lemma consistent_saveAllocation a s : consistent s → consistent (applySaveAllocation a s).
Proof.
  intros [Hn Ha Hd Hc]. split.
  - done.
  - simpl. intros id a' [[<- <-]|[_ H]]%lookup_insert_Some; [done | by apply Ha].
  - intros nid l. rewrite saveAllocation_byNet. case_decide as Hk; [|apply Hd].
    intros [= <-]. cbn zeta.
    assert (Hl : NoDup (default [] (allocationsByNet s !! nid))).
    { destruct (allocationsByNet s !! nid) eqn:E; [by eapply Hd | constructor]. }
    destruct (found _ _) eqn:Hf; [done|].
    apply NoDup_app. split_and!; [done | | apply NoDup_singleton].
    intros x Hx ->%list_elem_of_singleton.
    apply found_spec in Hx. congruence.
  - intros id a'. rewrite saveAllocation_byNet. cbn [allocations applySaveAllocation].
    intros [[<- <-]|[Hne H]]%lookup_insert_Some.
    + rewrite decide_True by done. cbn [default]. cbn zeta.
      destruct (found _ _) eqn:Hf; [by apply found_spec|].
      apply elem_of_app. right. by apply list_elem_of_singleton.
    + specialize (Hc _ _ H). case_decide as Hk; [|done].
      cbn [default]. cbn zeta.
      destruct (found _ _); [done | apply elem_of_app; by left].
Qed.

Lemma consistent_deleteAllocation id s : consistent s → consistent (applyDeleteAllocation id s).
Proof.
  intros [Hn Ha Hd Hc]. unfold applyDeleteAllocation.
  destruct (allocations s !! id) as [a|] eqn:E; [|done].
  split; cbn [networks allocations allocationsByNet].
  - done.
  - intros id' a' [_ H]%lookup_delete_Some. by apply Ha.
  - intros nid l. destruct (allocationsByNet s !! IPAllocation.NetworkID a) eqn:E'; [|apply Hd].
    intros [[<- <-]|[_ H]]%lookup_insert_Some; [|by eapply Hd].
    apply NoDup_filter. by eapply Hd.
  - intros id' a' [Hne H]%lookup_delete_Some. specialize (Hc _ _ H).
    destruct (allocationsByNet s !! IPAllocation.NetworkID a) as [l|] eqn:E'; [|done].
    destruct (decide (IPAllocation.NetworkID a' = IPAllocation.NetworkID a)) as [Heq|Hne'].
    + rewrite Heq in *. rewrite lookup_insert_eq. rewrite E' in Hc. simpl in *.
      by apply list_elem_of_filter.
    + by rewrite lookup_insert_ne.
Qed.

Lemma consistent_apply c s : consistent s → consistent (apply c s).
Proof.
  destruct c; simpl.
  - apply consistent_saveNetwork.
  - apply consistent_deleteNetwork.
  - apply consistent_saveAllocation.
  - apply consistent_deleteAllocation.
  - by intros [].
Qed.

Lemma consistent_recover s0 s s' :
  consistent s0 → recovers (SaveSnapshot s0) s s' → consistent s'.
Proof.
  intros [Hn Ha Hd Hc] (nets & allocs & Hnets & Hallocs & ->).
  simpl in Hnets, Hallocs. split; cbn -[foldl].
  - done.
  - done.
  - intros nid l Hl.
    assert (l = byNetOf allocs nid) as ->.
    { rewrite <- (rebuild_byNet_default allocs nid). by rewrite Hl. }
    apply NoDup_byNetOf. by eapply go_range_NoDup.
  - intros id a Hst. rewrite rebuild_byNet_default. apply elem_of_byNetOf.
    exists a. split; [|done]. by apply (go_range_elem _ _ _ _ Hallocs).
Qed.

Lemma reachable_consistent s : reachable s → consistent s.
Proof.
  induction 1 as [c n|c s _ IH|s0 s s' _ IH0 _ _ Hrec].
  - apply consistent_new.
  - by apply consistent_apply.
  - by eapply consistent_recover.
Qed.

End Consistency.

(** ** The keyspace of the Pebble store *)

Section PebbleKeys.
Import PebbleStore.

Lemma ascii_compare_refl c : Ascii.compare c c = Eq.
Proof. unfold Ascii.compare. apply N.compare_refl. Qed.

Lemma string_app_cons c s t : String c s +:+ t = String c (s +:+ t).
Proof. done. Qed.

Lemma compare_app_l p s t : String.compare (p +:+ s) (p +:+ t) = String.compare s t.
Proof.
  induction p as [|c p IH]; [done|].
  rewrite !string_app_cons. cbn [String.compare]. by rewrite ascii_compare_refl.
Qed.

Lemma string_app_nil_r s : s +:+ "" = s.
Proof. induction s as [|c s IH]; [done|]. by rewrite string_app_cons, IH. Qed.

Lemma leb_prefix p s : String.leb p (p +:+ s) = true.
Proof.
  unfold String.leb. rewrite <- (string_app_nil_r p) at 1. rewrite compare_app_l.
  by destruct s.
Qed.

Lemma ascii_compare_xff c :
  Ascii.compare c (Ascii.Ascii true true true true true true true true) = Lt ↔
  c ≠ Ascii.Ascii true true true true true true true true.
Proof.
  destruct c as [[] [] [] [] [] [] [] []]; split; done.
Qed.

Lemma ltb_xff s : String.ltb s xff = true ↔ textual s.
Proof.
  unfold String.ltb, xff, textual. destruct s as [|c s]; [done|]. cbn [String.compare].
  rewrite <- ascii_compare_xff.
  destruct (Ascii.compare c _) eqn:E; [by destruct s | done | done].
Qed.

Lemma inBounds_prefix p s : inBounds p (p +:+ xff) (p +:+ s) ↔ textual s.
Proof.
  unfold inBounds. rewrite leb_prefix. unfold String.ltb. rewrite compare_app_l.
  fold (String.ltb s xff). rewrite ltb_xff. tauto.
Qed.

Lemma elem_of_NewIter lower upper db k v :
  (k, v) ∈ NewIter lower upper db ↔ db !! k = Some v ∧ inBounds lower upper k.
Proof.
  unfold NewIter. rewrite merge_sort_Permutation, list_elem_of_filter, elem_of_map_to_list.
  simpl. tauto.
Qed.

Lemma elem_of_prefixIter pfx db k v :
  (k, v) ∈ prefixIter pfx db ↔ db !! k = Some v ∧ inBounds pfx (pfx +:+ xff) k.
Proof. apply elem_of_NewIter. Qed.

Lemma NewIter_sorted lower upper db : Sorted keyLe (NewIter lower upper db).
Proof.
  apply Sorted_merge_sort. intros x y. unfold keyLe. apply (total String.le).
Qed.

Lemma NewIter_NoDup lower upper db : NoDup (NewIter lower upper db).*1.
Proof.
  unfold NewIter. rewrite merge_sort_Permutation.
  pose proof (NoDup_fst_map_to_list db) as Hnd.
  induction (map_to_list db) as [|kv l IH]; [constructor|].
  rewrite fmap_cons in Hnd. apply NoDup_cons in Hnd as [Hnotin Hnd].
  rewrite filter_cons. case_decide; [|by apply IH].
  rewrite fmap_cons. apply NoDup_cons. split; [|by apply IH].
  intros (kv' & Heq & [_ Hin]%list_elem_of_filter)%list_elem_of_fmap.
  apply Hnotin. apply list_elem_of_fmap. by exists kv'.
Qed.

(** Keys of the other partitions lie outside a prefix range. *)
Lemma allocation_range_network id :
  ¬ inBounds prefixAllocation (prefixAllocation +:+ xff) (networkKey id).
Proof. by intros [_ ?]. Qed.
Lemma allocation_range_audit e :
  ¬ inBounds prefixAllocation (prefixAllocation +:+ xff) (auditKey e).
Proof. by intros [_ ?]. Qed.
Lemma allocation_range_index r :
  ¬ inBounds prefixAllocation (prefixAllocation +:+ xff) (prefixIndex +:+ r).
Proof. by intros [_ ?]. Qed.
Lemma network_range_allocation id :
  ¬ inBounds prefixNetwork (prefixNetwork +:+ xff) (allocationKey id).
Proof. by intros [? _]. Qed.
Lemma network_range_audit e :
  ¬ inBounds prefixNetwork (prefixNetwork +:+ xff) (auditKey e).
Proof. by intros [? _]. Qed.
Lemma network_range_index r :
  ¬ inBounds prefixNetwork (prefixNetwork +:+ xff) (prefixIndex +:+ r).
Proof. by intros [? _]. Qed.
Lemma audit_range_network id :
  ¬ inBounds prefixAudit (prefixAudit +:+ xff) (networkKey id).
Proof. by intros [_ ?]. Qed.
Lemma audit_range_allocation id :
  ¬ inBounds prefixAudit (prefixAudit +:+ xff) (allocationKey id).
Proof. by intros [? _]. Qed.
Lemma audit_range_index r :
  ¬ inBounds prefixAudit (prefixAudit +:+ xff) (prefixIndex +:+ r).
Proof. by intros [_ ?]. Qed.

Lemma typed_allocation_range db k v :
  typed db → (k, v) ∈ prefixIter prefixAllocation db →
  ∃ a, v = VAllocation a ∧ k = allocationKey (IPAllocation.ID a).
Proof.
  intros Ht [Hk Hb]%elem_of_prefixIter. specialize (Ht _ _ Hk).
  destruct v as [n|a|e|r].
  - subst k. by destruct (allocation_range_network _ Hb).
  - by exists a.
  - subst k. by destruct (allocation_range_audit _ Hb).
  - destruct Ht as [r' ->]. by destruct (allocation_range_index _ Hb).
Qed.

Lemma typed_network_range db k v :
  typed db → (k, v) ∈ prefixIter prefixNetwork db →
  ∃ n, v = VNetwork n ∧ k = networkKey (Network.ID n).
Proof.
  intros Ht [Hk Hb]%elem_of_prefixIter. specialize (Ht _ _ Hk).
  destruct v as [n|a|e|r].
  - by exists n.
  - subst k. by destruct (network_range_allocation _ Hb).
  - subst k. by destruct (network_range_audit _ Hb).
  - destruct Ht as [r' ->]. by destruct (network_range_index _ Hb).
Qed.

Lemma typed_audit_range db k v :
  typed db → (k, v) ∈ prefixIter prefixAudit db →
  ∃ e, v = VAuditEntry e ∧ k = auditKey e.
Proof.
  intros Ht [Hk Hb]%elem_of_prefixIter. specialize (Ht _ _ Hk).
  destruct v as [n|a|e|r].
  - subst k. by destruct (audit_range_network _ Hb).
  - subst k. by destruct (audit_range_allocation _ Hb).
  - by exists e.
  - destruct Ht as [r' ->]. by destruct (audit_range_index _ Hb).
Qed.

Lemma decodeAll_ok {A} (dec : value → option A) it :
  Forall (λ kv, is_Some (dec kv.2)) it →
  decodeAll dec it = (omap (λ kv, dec kv.2) it, None).
Proof.
  induction 1 as [|kv it [x Hx] _ IH]; [done|].
  simpl. by rewrite Hx, IH.
Qed.

(** A batch of deletes removes exactly its keys. *)
Lemma Commit_deletes ks db k :
  Commit (BatchDelete <$> ks) db !! k = if decide (k ∈ ks) then None else db !! k.
Proof.
  unfold Commit. revert db. induction ks as [|x ks IH]; intros db.
  - rewrite decide_False; [done | apply not_elem_of_nil].
  - rewrite fmap_cons. cbn [foldl applyOp]. rewrite IH.
    destruct (decide (k = x)) as [->|Hne].
    + rewrite lookup_delete_eq. rewrite (decide_True (P := x ∈ x :: ks)) by by left.
      by case_decide.
    + rewrite lookup_delete_ne by done.
      destruct (decide (k ∈ ks)) as [Hin|Hnin].
      * rewrite decide_True; [done | by right].
      * rewrite decide_False; [done|]. by intros [?|?]%elem_of_cons.
Qed.

Lemma cascadeOps_keys id it :
  flat_map (cascadeOps id) it = BatchDelete <$> flat_map (cascadeKeys id) it.
Proof.
  induction it as [|kv it IH]; [done|].
  cbn [flat_map]. rewrite fmap_app, IH. f_equal.
  unfold cascadeOps, cascadeKeys. destruct (unmarshalAllocation kv.2); [|done].
  by case_decide.
Qed.

Lemma elem_of_cascadeKeys id it k :
  k ∈ flat_map (cascadeKeys id) it ↔
  ∃ k0 a, (k0, VAllocation a) ∈ it ∧ IPAllocation.NetworkID a = id ∧
          (k = k0 ∨ k = ipIndexKey id (IPAllocation.IP a)).
Proof.
  rewrite list_elem_of_In, in_flat_map. setoid_rewrite <- list_elem_of_In. split.
  - intros ([k0 v] & Hin & Hk). unfold cascadeKeys in Hk. cbn [fst snd] in Hk.
    destruct v as [n|a|e|r]; cbn in Hk; try by apply elem_of_nil in Hk.
    case_decide as Hn; [|by apply elem_of_nil in Hk]. exists k0, a. subst id.
    split; [done|]. split; [done|].
    apply elem_of_cons in Hk as [->|Hk]; [by left|].
    apply list_elem_of_singleton in Hk as ->. by right.
  - intros (k0 & a & Hin & Hn & Hk). exists (k0, VAllocation a). split; [done|].
    unfold cascadeKeys. cbn. rewrite decide_True by done. subst id.
    destruct Hk as [->| ->]; [by left | right; by left].
Qed.

Lemma GetNetwork_Some id db n :
  GetNetwork id db = (Some n, None) ↔ db !! networkKey id = Some (VNetwork n).
Proof.
  unfold GetNetwork. destruct (db !! networkKey id) as [[]|]; cbn; split; congruence.
Qed.

Lemma GetAllocation_Some id db a :
  GetAllocation id db = (Some a, None) ↔ db !! allocationKey id = Some (VAllocation a).
Proof.
  unfold GetAllocation. destruct (db !! allocationKey id) as [[]|]; cbn; split; congruence.
Qed.

Lemma DeleteNetwork_present id db n :
  db !! networkKey id = Some (VNetwork n) →
  DeleteNetwork id db = (Commit (BatchDelete <$> deleteNetworkKeys id n db) db, None).
Proof.
  intros Hn. unfold DeleteNetwork. rewrite (proj2 (GetNetwork_Some id db n) Hn).
  unfold deleteNetworkKeys. by rewrite !fmap_cons, cascadeOps_keys.
Qed.

Lemma DeleteNetwork_error id db :
  (∀ n, db !! networkKey id ≠ Some (VNetwork n)) →
  ∃ err, DeleteNetwork id db = (db, Some err) ∧
         (db !! networkKey id = None → err = ErrNetworkNotFound).
Proof.
  intros Hn. unfold DeleteNetwork, GetNetwork.
  destruct (db !! networkKey id) as [[n| | |]|]; cbn.
  1: by destruct (Hn n).
  all: eexists; split; [done|]; done.
Qed.

Lemma DeleteAllocation_present id db a :
  db !! allocationKey id = Some (VAllocation a) →
  DeleteAllocation id db =
    (Commit (BatchDelete <$>
       [allocationKey id;
        ipIndexKey (IPAllocation.NetworkID a) (IPAllocation.IP a)]) db, None).
Proof.
  intros Ha. unfold DeleteAllocation. by rewrite (proj2 (GetAllocation_Some id db a) Ha).
Qed.

Lemma DeleteAllocation_error id db :
  (∀ a, db !! allocationKey id ≠ Some (VAllocation a)) →
  ∃ err, DeleteAllocation id db = (db, Some err) ∧
         (db !! allocationKey id = None → err = ErrIPNotAllocated).
Proof.
  intros Ha. unfold DeleteAllocation, GetAllocation.
  destruct (db !! allocationKey id) as [[|a| |]|]; cbn.
  2: by destruct (Ha a).
  all: eexists; split; [done|]; done.
Qed.

(** Deletes only remove entries. *)
Lemma Commit_deletes_sub ks db k v :
  Commit (BatchDelete <$> ks) db !! k = Some v → db !! k = Some v.
Proof. rewrite Commit_deletes. by case_decide. Qed.

Lemma typed_empty : typed ∅.
Proof. intros k v. by rewrite lookup_empty. Qed.

Lemma typed_insert db k v :
  typed db →
  match v with
  | VNetwork n => k = networkKey (Network.ID n)
  | VAllocation a => k = allocationKey (IPAllocation.ID a)
  | VAuditEntry e => k = auditKey e
  | VRaw _ => ∃ r, k = prefixIndex +:+ r
  end →
  typed (<[k := v]> db).
Proof.
  intros Ht Hv k' v' [[<- <-]|[_ H]]%lookup_insert_Some; [done | by apply Ht].
Qed.

Lemma typed_deletes ks db : typed db → typed (Commit (BatchDelete <$> ks) db).
Proof. intros Ht k v H%Commit_deletes_sub. by apply Ht. Qed.

Lemma typed_mutate c db : typed db → typed (pebbleMutate c db).1.
Proof.
  intros Ht. destruct c as [n|id|a|id|e]; cbn [pebbleMutate].
  - unfold SaveNetwork, Commit. cbn. apply typed_insert; [apply typed_insert|]; try done.
    by eexists.
  - destruct (db !! networkKey id) as [[n| | |]|] eqn:E.
    1:{ rewrite (DeleteNetwork_present _ _ _ E). by apply typed_deletes. }
    all: destruct (DeleteNetwork_error id db) as (err & -> & _); [by rewrite E | done].
  - unfold SaveAllocation, Commit. cbn. apply typed_insert; [apply typed_insert|]; try done.
    by eexists.
  - destruct (db !! allocationKey id) as [[|a| |]|] eqn:E.
    2:{ rewrite (DeleteAllocation_present _ _ _ E). by apply typed_deletes. }
    all: destruct (DeleteAllocation_error id db) as (err & -> & _); [by rewrite E | done].
  - unfold SaveAuditEntry. cbn. by apply typed_insert.
Qed.

Lemma pebbleReachable_typed db : pebbleReachable db → typed db.
Proof. induction 1; [apply typed_empty | by apply typed_mutate]. Qed.

End PebbleKeys.

(** Keys of different kinds are different strings. *)
Ltac key_neq :=
  let H := fresh in
  intros H;
  cbv [PebbleStore.networkKey PebbleStore.allocationKey PebbleStore.auditKey
       PebbleStore.cidrIndexKey PebbleStore.ipIndexKey PebbleStore.prefixNetwork
       PebbleStore.prefixAllocation PebbleStore.prefixAudit PebbleStore.prefixIndex] in H;
  repeat rewrite string_app_cons in H; discriminate H.

Section KeyFacts.
Import PebbleStore.

Lemma networkKey_inj id id' : networkKey id = networkKey id' → id = id'.
Proof. intros H. by simplify_eq/=. Qed.

Lemma cidrIndexKey_inj c c' : cidrIndexKey c = cidrIndexKey c' → c = c'.
Proof. intros H. by simplify_eq/=. Qed.

Lemma allocationKey_inj id id' : allocationKey id = allocationKey id' → id = id'.
Proof. intros H. by simplify_eq/=. Qed.

Lemma decoded_NoDup {A} (dec : value → option A) (key : A → string)
    (it : list (string * value)) :
  (∀ k v, (k, v) ∈ it → ∃ x, dec v = Some x ∧ k = key x) →
  NoDup it.*1 → NoDup (omap (λ kv, dec kv.2) it).
Proof.
  induction it as [|[k v] it IH]; intros Hall Hnd; [constructor|].
  rewrite fmap_cons in Hnd. apply NoDup_cons in Hnd as [Hk Hnd].
  destruct (Hall k v) as (x & Hx & ->); [by left|].
  cbn [omap list_omap snd]. rewrite Hx. apply NoDup_cons. split.
  - intros ([k' v'] & Hin & Hdec)%list_elem_of_omap. cbn in Hdec.
    destruct (Hall k' v') as (x' & Hx' & ->); [by right|].
    assert (x' = x) as -> by congruence.
    apply Hk. apply list_elem_of_fmap. by exists (key x, v').
  - apply IH; [|done]. intros k' v' Hin. apply Hall. by right.
Qed.

End KeyFacts.

(** ** Records with valid UTF-8 strings *)

Section Utf8Facts.
Import PebbleStore.

Lemma validUTF8_textual s : validUTF8 s = true → textual s.
Proof.
  destruct s as [|c s]; [done|]. cbn [textual]. intros H ->.
  destruct s as [|c1 [|c2 [|c3 s]]]; cbn in H; discriminate H.
Qed.

Lemma utf8Stored_empty : utf8Stored ∅.
Proof. intros k v. by rewrite lookup_empty. Qed.

Lemma utf8Stored_deletes ks db : utf8Stored db → utf8Stored (Commit (BatchDelete <$> ks) db).
Proof. intros Hu k v H%Commit_deletes_sub. exact (Hu k v H). Qed.

Lemma utf8Stored_mutate c db : utf8Command c → utf8Stored db → utf8Stored (pebbleMutate c db).1.
Proof.
  intros Hc Hu. destruct c as [n|id|a|id|e]; cbn [pebbleMutate].
  - unfold SaveNetwork, Commit. cbn [fst foldl applyOp].
    intros k v [[<- <-]|[_ [[<- <-]|[_ H]]%lookup_insert_Some]]%lookup_insert_Some;
      [done | done | exact (Hu k v H)].
  - destruct (db !! networkKey id) as [[n| | |]|] eqn:E.
    1:{ rewrite (DeleteNetwork_present _ _ _ E). by apply utf8Stored_deletes. }
    all: destruct (DeleteNetwork_error id db) as (err & -> & _); [by rewrite E | done].
  - unfold SaveAllocation, Commit. cbn [fst foldl applyOp].
    intros k v [[<- <-]|[_ [[<- <-]|[_ H]]%lookup_insert_Some]]%lookup_insert_Some;
      [done | done | exact (Hu k v H)].
  - destruct (db !! allocationKey id) as [[|a| |]|] eqn:E.
    2:{ rewrite (DeleteAllocation_present _ _ _ E). by apply utf8Stored_deletes. }
    all: destruct (DeleteAllocation_error id db) as (err & -> & _); [by rewrite E | done].
  - unfold SaveAuditEntry. cbn [fst].
    intros k v [[<- <-]|[_ H]]%lookup_insert_Some; [done | exact (Hu k v H)].
Qed.

Lemma pebbleRun_snoc cs c db : pebbleRun (cs ++ [c]) db = (pebbleMutate c (pebbleRun cs db)).1.
Proof. unfold pebbleRun. by rewrite foldl_app. Qed.

Lemma pebbleReachable_run cs : pebbleReachable (pebbleRun cs ∅).
Proof.
  induction cs as [|c cs IH] using rev_ind; [constructor|].
  rewrite pebbleRun_snoc. by constructor.
Qed.

Lemma utf8Stored_run cs : Forall utf8Command cs → utf8Stored (pebbleRun cs ∅).
Proof.
  induction cs as [|c cs IH] using rev_ind; intros Hcs; [apply utf8Stored_empty|].
  apply Forall_app in Hcs as [Hcs Hc]. rewrite Forall_singleton in Hc.
  rewrite pebbleRun_snoc. apply utf8Stored_mutate; [exact Hc | exact (IH Hcs)].
Qed.

(** After saves of records with valid UTF-8 strings, a record is stored
    under its own id, which does not begin with the byte [0xff]. *)
Lemma utf8_run_allocation cs aid a :
  Forall utf8Command cs → pebbleRun cs ∅ !! allocationKey aid = Some (VAllocation a) →
  IPAllocation.ID a = aid ∧ textual aid ∧ utf8Allocation a.
Proof.
  intros Hcs Hk.
  pose proof (pebbleReachable_typed _ (pebbleReachable_run cs) _ _ Hk) as Ht. cbn in Ht.
  pose proof (utf8Stored_run cs Hcs _ _ Hk) as Hu. cbn in Hu.
  apply allocationKey_inj in Ht as ->. split; [done|]. split; [|done].
  apply validUTF8_textual, Hu.
Qed.

Lemma utf8_run_network cs id n :
  Forall utf8Command cs → pebbleRun cs ∅ !! networkKey id = Some (VNetwork n) →
  Network.ID n = id ∧ textual id ∧ utf8Network n.
Proof.
  intros Hcs Hk.
  pose proof (pebbleReachable_typed _ (pebbleReachable_run cs) _ _ Hk) as Ht. cbn in Ht.
  pose proof (utf8Stored_run cs Hcs _ _ Hk) as Hu. cbn in Hu.
  apply networkKey_inj in Ht as ->. split; [done|]. split; [|done].
  apply validUTF8_textual, Hu.
Qed.

End Utf8Facts.

(** The sample records have valid UTF-8 strings. *)
Ltac utf8_sample :=
  cbv [utf8Command utf8Network utf8Allocation utf8Entry];
  repeat split; try (vm_compute; reflexivity); repeat constructor.

(** ** The keys of the audit entries *)

Section AuditKeys.
Import PebbleStore.

Lemma pretty_N_char_plain d : plain (String (pretty_N_char d) "").
Proof. unfold pretty_N_char. cbn. by repeat case_match. Qed.

Lemma plain_app s t : plain s → plain t → plain (s +:+ t).
Proof.
  induction s as [|c s IH]; [done|]. rewrite string_app_cons. cbn.
  intros (? & ? & ?) ?. split_and!; [done..|by apply IH].
Qed.

Lemma pretty_N_go_plain x s :
  ∃ p, pretty_N_go x s = p +:+ s ∧ plain p ∧ ((0 < x)%N → p ≠ "").
Proof.
  revert s. induction (N.lt_wf_0 x) as [x _ IH]; intros s.
  assert (x = 0 ∨ 0 < x)%N as [->|Hx] by lia.
  - exists "". rewrite pretty_N_go_0. split_and!; [done..|lia].
  - rewrite pretty_N_go_step by done.
    destruct (IH (x `div` 10)%N (N.div_lt x 10 Hx eq_refl)
                (String (pretty_N_char (x `mod` 10)) s)) as (p & -> & Hp & _).
    exists (p +:+ String (pretty_N_char (x `mod` 10)) "").
    split_and!.
    + clear. induction p as [|c p IHp]; [done|]. by rewrite !string_app_cons, IHp.
    + apply plain_app; [done | apply pretty_N_char_plain].
    + intros _. by destruct p.
Qed.

Lemma pretty_Z_plain (z : Z) : plain (pretty z) ∧ pretty z ≠ "".
Proof.
  assert (HN : ∀ p, plain (pretty (N.pos p)) ∧ pretty (N.pos p) ≠ "").
  { intros p. unfold pretty, pretty_N. rewrite decide_False by done.
    destruct (pretty_N_go_plain (N.pos p) "") as (q & -> & Hq & Hne).
    rewrite string_app_nil_r. split; [done|]. apply Hne. lia. }
  destruct z as [|p|p]; [done | apply HN |].
  change (pretty (Z.neg p)) with ("-" +:+ pretty (N.pos p)).
  destruct (HN p) as [Hp _]. by split; [apply plain_app|].
Qed.

Lemma plain_split p q s t :
  plain p → plain q → p +:+ String underscore s = q +:+ String underscore t →
  p = q ∧ s = t.
Proof.
  revert q. induction p as [|c p IH]; intros [|d q] Hp Hq Heq.
  - change (String underscore s = String underscore t) in Heq. by simplify_eq.
  - change (String underscore s = String d (q +:+ String underscore t)) in Heq.
    cbn in Hq. injection Heq as Hd _. by destruct Hq as [[] _].
  - change (String c (p +:+ String underscore s) = String underscore t) in Heq.
    cbn in Hp. injection Heq as Hc _. by destruct Hp as [[] _].
  - rewrite !string_app_cons in Heq. cbn in Hp, Hq. injection Heq as -> Heq.
    destruct (IH q) as [-> ->]; tauto.
Qed.

Lemma auditKey_inj e e' :
  auditKey e = auditKey e' ↔
  AuditEntry.Timestamp e = AuditEntry.Timestamp e' ∧ AuditEntry.ID e = AuditEntry.ID e'.
Proof.
  split; [|by intros [H1 H2]; unfold auditKey; rewrite H1, H2].
  unfold auditKey. intros Heq.
  assert (H : pretty (AuditEntry.Timestamp e) +:+ String underscore (AuditEntry.ID e)
            = pretty (AuditEntry.Timestamp e') +:+ String underscore (AuditEntry.ID e')).
  { unfold prefixAudit in Heq. by simplify_eq/=. }
  apply plain_split in H as [Hts Hid]; [|apply pretty_Z_plain..].
  split; [by apply (inj pretty) | done].
Qed.

Lemma auditKey_inBounds e : inBounds prefixAudit (prefixAudit +:+ xff) (auditKey e).
Proof.
  unfold auditKey. apply inBounds_prefix.
  destruct (pretty_Z_plain (AuditEntry.Timestamp e)) as [Hp Hne].
  destruct (pretty (AuditEntry.Timestamp e)) as [|c p]; [done|].
  rewrite string_app_cons. cbn in Hp |- *. tauto.
Qed.

End AuditKeys.

(** ** Cascade of a network delete *)

Section Cascades.
Import PebbleStore.

Lemma rsm_cascade s order id n :
  reachable s → networks s !! id = Some n →
  let s' := (RaftStore.DeleteNetwork id s).1 in
  (RaftStore.DeleteNetwork id s).2 = None ∧
  networks s' !! id = None ∧
  networkByCIDR s' !! Network.CIDR n = None ∧
  RaftStore.ListAllocations order id s' = Returns ([], None) ∧
  ∀ aid a, allocations s !! aid = Some a → IPAllocation.NetworkID a = id →
    allocations s' !! aid = None ∧
    allocationByIP s' !! ipKey id (IPAllocation.IP a) = None.
Proof.
  intros Hr Hn. apply reachable_consistent in Hr as [_ _ _ Hc].
  unfold RaftStore.DeleteNetwork, RaftStore.executeCommand. cbn [fst snd apply].
  rewrite (deleteNetwork_present _ _ _ Hn). cbn zeta.
  split; [done|]. split; [apply lookup_delete_eq|]. split; [apply lookup_delete_eq|].
  split.
  - unfold RaftStore.ListAllocations, RaftStore.executeQuery, Lookup.
    cbn [allocationsByNet]. by rewrite lookup_delete_eq.
  - intros aid a Ha Hnid. specialize (Hc _ _ Ha). rewrite Hnid in Hc.
    cbn [allocations allocationByIP]. split.
    + rewrite cascade_allocations. by rewrite decide_True.
    + rewrite <- Hnid at 1. by eapply cascade_index_gone.
Qed.

Lemma pebble_cascade db id n :
  pebbleReachable db → db !! networkKey id = Some (VNetwork n) →
  let db' := (DeleteNetwork id db).1 in
  (DeleteNetwork id db).2 = None ∧
  GetNetwork id db' = (None, Some ErrNetworkNotFound) ∧
  GetNetworkByCIDR (Network.CIDR n) db' = (None, Some ErrNetworkNotFound) ∧
  ListAllocations id db' = ([], None) ∧
  ∀ aid a, textual aid → db !! allocationKey aid = Some (VAllocation a) →
    IPAllocation.NetworkID a = id →
    db' !! allocationKey aid = None ∧ db' !! ipIndexKey id (IPAllocation.IP a) = None.
Proof.
  intros Ht%pebbleReachable_typed Hn.
  rewrite (DeleteNetwork_present _ _ _ Hn). cbn [fst snd]. cbn zeta.
  set (ks := deleteNetworkKeys id n db).
  assert (Hnk : networkKey id ∈ ks) by (by left).
  assert (Hck : cidrIndexKey (Network.CIDR n) ∈ ks) by (right; by left).
  assert (Hcasc : ∀ k a, (k, VAllocation a) ∈ prefixIter prefixAllocation db →
            IPAllocation.NetworkID a = id →
            k ∈ ks ∧ ipIndexKey id (IPAllocation.IP a) ∈ ks).
  { intros k a Hin Hnid. split; do 2 right; apply elem_of_cascadeKeys;
      exists k, a; eauto. }
  split; [done|]. split.
  { unfold GetNetwork. by rewrite Commit_deletes, decide_True. }
  split.
  { unfold GetNetworkByCIDR. by rewrite Commit_deletes, decide_True. }
  split.
  - unfold ListAllocations.
    pose proof (typed_deletes ks db Ht) as Ht'.
    rewrite decodeAll_ok.
    2:{ apply Forall_forall. intros [k v] Hin.
        destruct (typed_allocation_range _ _ _ Ht' Hin) as (a & -> & _). by eexists. }
    f_equal.
    destruct (filter _ _) as [|a l] eqn:E; [done|]. exfalso.
    assert (Ha : a ∈ filter (λ a, IPAllocation.NetworkID a = id)
              (omap (λ kv, unmarshalAllocation kv.2)
                 (prefixIter prefixAllocation (Commit (BatchDelete <$> ks) db))))
      by (rewrite E; by left).
    apply list_elem_of_filter in Ha as [Hnid Ha].
    apply list_elem_of_omap in Ha as ([k v] & Hin & Hv). cbn in Hv.
    destruct v as [|a'| |]; try done. injection Hv as ->.
    apply elem_of_prefixIter in Hin as [Hk Hb].
    pose proof (Commit_deletes_sub _ _ _ _ Hk) as Hk0.
    destruct (Hcasc k a) as [Hkin _]; [by apply elem_of_prefixIter | done |].
    by rewrite Commit_deletes, decide_True in Hk.
  - intros aid a Htx Ha Hnid.
    destruct (Hcasc (allocationKey aid) a) as [H1 H2]; [|done|].
    { apply elem_of_prefixIter. split; [done|]. by apply inBounds_prefix. }
    by rewrite !Commit_deletes, !decide_True.
Qed.

End Cascades.

(** C4 (as amended). After [delete_network(id)] of a stored network, on
    either backend: the call succeeds, the network record and the CIDR
    index entry of its CIDR are gone, [list_allocations(id)] is empty, and
    for every allocation stored under the network its record and the IP
    index entry under its current address are gone.  On the Raft-backed
    store this holds in every reachable state; on the Pebble-backed store,
    in every state reached from the empty store by mutations whose saved
    records have valid UTF-8 strings. *)
Theorem cascade_delete :
  (∀ s order id n,
     reachable s → networks s !! id = Some n →
     let s' := (RaftStore.DeleteNetwork id s).1 in
     (RaftStore.DeleteNetwork id s).2 = None ∧
     networks s' !! id = None ∧
     networkByCIDR s' !! Network.CIDR n = None ∧
     RaftStore.ListAllocations order id s' = Returns ([], None) ∧
     ∀ aid a, allocations s !! aid = Some a → IPAllocation.NetworkID a = id →
       allocations s' !! aid = None ∧
       allocationByIP s' !! ipKey id (IPAllocation.IP a) = None) ∧
  (∀ cs id n,
     Forall utf8Command cs →
     let db := pebbleRun cs ∅ in
     PebbleStore.GetNetwork id db = (Some n, None) →
     let db' := (PebbleStore.DeleteNetwork id db).1 in
     (PebbleStore.DeleteNetwork id db).2 = None ∧
     PebbleStore.GetNetwork id db' = (None, Some ErrNetworkNotFound) ∧
     PebbleStore.GetNetworkByCIDR (Network.CIDR n) db' = (None, Some ErrNetworkNotFound) ∧
     PebbleStore.ListAllocations id db' = ([], None) ∧
     ∀ aid a, PebbleStore.GetAllocation aid db = (Some a, None) →
       IPAllocation.NetworkID a = id →
       PebbleStore.GetAllocation aid db' = (None, Some ErrIPNotAllocated) ∧
       db' !! PebbleStore.ipIndexKey id (IPAllocation.IP a) = None).
Proof.
  split.
  - intros s order id n Hr Hn. by apply rsm_cascade.
  - intros cs id n Hcs db Hn%GetNetwork_Some.
    destruct (pebble_cascade db id n (pebbleReachable_run cs) Hn) as (H1 & H2 & H3 & H4 & H5).
    do 4 (split; [done|]).
    intros aid a Ha%GetAllocation_Some Hnid.
    destruct (utf8_run_allocation cs aid a Hcs Ha) as (_ & Htx & _).
    destruct (H5 aid a Htx Ha Hnid) as [Hgone Hidx]. split; [|done].
    unfold PebbleStore.GetAllocation. by rewrite Hgone.
Qed.

Lemma cascade_delete_witness :
  let cs := [saveNetworkCmd net1; saveAllocationCmd alloc1] in
  let s := applyAll cs fresh in
  let db := pebbleRun cs ∅ in
  (reachable s ∧ networks s !! "net1" = Some net1 ∧
   Forall utf8Command cs ∧ PebbleStore.GetNetwork "net1" db = (Some net1, None)) ∧
  (RaftStore.ListAllocations [] "net1" (RaftStore.DeleteNetwork "net1" s).1
     = Returns ([], None) ∧
   PebbleStore.ListAllocations "net1" (PebbleStore.DeleteNetwork "net1" db).1 = ([], None) ∧
   PebbleStore.GetAllocation "alloc1" (PebbleStore.DeleteNetwork "net1" db).1
     = (None, Some ErrIPNotAllocated)).
Proof.
  intros cs s db.
  assert (Hs : reachable s) by (apply reachable_applyAll; constructor).
  assert (Hn : networks s !! "net1" = Some net1) by (vm_compute; reflexivity).
  assert (Hcs : Forall utf8Command cs) by (repeat constructor; utf8_sample).
  assert (Hg : PebbleStore.GetNetwork "net1" db = (Some net1, None)) by (vm_compute; reflexivity).
  split; [done|]. destruct cascade_delete as [Hrsm Hpebble]. split.
  - apply (Hrsm s [] "net1" net1 Hs Hn).
  - destruct (Hpebble cs "net1" net1 Hcs Hg) as (_ & _ & _ & Hl & Ha). split; [exact Hl|].
    apply (Ha "alloc1" alloc1); [vm_compute|]; reflexivity.
Defined.

(** C4, counterexample.  [alloc1] is saved under 10.0.0.10 and saved again
    under 10.0.0.11; after the network is deleted, the IP index of either
    backend still holds the entry of (net1, 10.0.0.10).  On the Pebble
    store, in addition, the key of an allocation whose id is the byte
    [0xff], which is no valid UTF-8, lies at the exclusive upper bound of
    the scan and survives the cascade. *)
Lemma cascade_leaves_earlier_address :
  let s := applyAll readdressLog fresh in
  let db := pebbleRun readdressLog ∅ in
  (networks s !! "net1" = Some net1 ∧
   allocationByIP (RaftStore.DeleteNetwork "net1" s).1 !! ipKey "net1" "10.0.0.10"
     = Some "alloc1") ∧
  (PebbleStore.GetNetwork "net1" db = (Some net1, None) ∧
   (PebbleStore.DeleteNetwork "net1" db).1 !! PebbleStore.ipIndexKey "net1" "10.0.0.10"
     = Some (PebbleStore.VRaw "alloc1")) ∧
  (let db := pebbleRun [saveNetworkCmd net1; saveAllocationCmd allocFF] ∅ in
   is_Some ((PebbleStore.DeleteNetwork "net1" db).1
              !! PebbleStore.allocationKey PebbleStore.xff)).
Proof. vm_compute. split_and!; try done. by eexists. Qed.

(** ** Deletes of absent ids *)

Section DeleteAbsent.
Import PebbleStore.

Lemma rsm_delete_network_twice id s :
  applyDeleteNetwork id (applyDeleteNetwork id s) = applyDeleteNetwork id s.
Proof.
  destruct (networks s !! id) as [n|] eqn:E.
  - rewrite (deleteNetwork_present _ _ _ E). cbn zeta.
    unfold applyDeleteNetwork at 1. cbn [networks]. by rewrite lookup_delete_eq.
  - unfold applyDeleteNetwork. by rewrite E, E.
Qed.

Lemma rsm_delete_allocation_twice id s :
  applyDeleteAllocation id (applyDeleteAllocation id s) = applyDeleteAllocation id s.
Proof.
  destruct (allocations s !! id) as [a|] eqn:E.
  - assert (Hgone : allocations (applyDeleteAllocation id s) !! id = None).
    { unfold applyDeleteAllocation. rewrite E. cbn [allocations]. apply lookup_delete_eq. }
    unfold applyDeleteAllocation at 1. by rewrite Hgone.
  - assert (Hs : applyDeleteAllocation id s = s).
    { unfold applyDeleteAllocation. by rewrite E. }
    by rewrite !Hs.
Qed.

Lemma pebble_delete_network_twice id db :
  (DeleteNetwork id (DeleteNetwork id db).1).1 = (DeleteNetwork id db).1.
Proof.
  destruct (db !! networkKey id) as [[n| | |]|] eqn:E.
  1:{ rewrite (DeleteNetwork_present _ _ _ E). cbn [fst].
      destruct (DeleteNetwork_error id (Commit (BatchDelete <$> deleteNetworkKeys id n db) db))
        as (err & -> & _); [|done].
      intros n'. rewrite Commit_deletes, decide_True; [done | by left]. }
  all: destruct (DeleteNetwork_error id db) as (err & Hd & _); [by rewrite E|];
    by rewrite Hd; cbn [fst]; rewrite Hd.
Qed.

Lemma pebble_delete_allocation_twice id db :
  (DeleteAllocation id (DeleteAllocation id db).1).1 = (DeleteAllocation id db).1.
Proof.
  destruct (db !! allocationKey id) as [[|a| |]|] eqn:E.
  2:{ rewrite (DeleteAllocation_present _ _ _ E). cbn [fst].
      match goal with |- (DeleteAllocation id ?d).1 = _ =>
        destruct (DeleteAllocation_error id d) as (err & -> & _); [|done] end.
      intros a'. rewrite Commit_deletes, decide_True; [done | by left]. }
  all: destruct (DeleteAllocation_error id db) as (err & Hd & _); [by rewrite E|];
    by rewrite Hd; cbn [fst]; rewrite Hd.
Qed.

End DeleteAbsent.

(** C5 (as amended). A delete of an absent id leaves the whole state of
    either store unchanged; the Raft-backed store returns success, the
    Pebble-backed store returns [network_not_found] for a network and
    [ip_not_allocated] for an allocation.  On both, a delete applied twice
    leaves the state that applying it once leaves. *)
Theorem delete_absent (s : ipamStateMachine) (db : gmap string PebbleStore.value) (id : string) :
  (networks s !! id = None → RaftStore.DeleteNetwork id s = (s, None)) ∧
  (allocations s !! id = None → RaftStore.DeleteAllocation id s = (s, None)) ∧
  (db !! PebbleStore.networkKey id = None →
     PebbleStore.DeleteNetwork id db = (db, Some ErrNetworkNotFound)) ∧
  (db !! PebbleStore.allocationKey id = None →
     PebbleStore.DeleteAllocation id db = (db, Some ErrIPNotAllocated)) ∧
  (RaftStore.DeleteNetwork id (RaftStore.DeleteNetwork id s).1).1
     = (RaftStore.DeleteNetwork id s).1 ∧
  (RaftStore.DeleteAllocation id (RaftStore.DeleteAllocation id s).1).1
     = (RaftStore.DeleteAllocation id s).1 ∧
  (PebbleStore.DeleteNetwork id (PebbleStore.DeleteNetwork id db).1).1
     = (PebbleStore.DeleteNetwork id db).1 ∧
  (PebbleStore.DeleteAllocation id (PebbleStore.DeleteAllocation id db).1).1
     = (PebbleStore.DeleteAllocation id db).1.
Proof.
  split_and!.
  - intros H. unfold RaftStore.DeleteNetwork, RaftStore.executeCommand.
    cbn [apply]. unfold applyDeleteNetwork. by rewrite H.
  - intros H. unfold RaftStore.DeleteAllocation, RaftStore.executeCommand.
    cbn [apply]. unfold applyDeleteAllocation. by rewrite H.
  - intros H. unfold PebbleStore.DeleteNetwork, PebbleStore.GetNetwork. by rewrite H.
  - intros H. unfold PebbleStore.DeleteAllocation, PebbleStore.GetAllocation. by rewrite H.
  - apply rsm_delete_network_twice.
  - apply rsm_delete_allocation_twice.
  - apply pebble_delete_network_twice.
  - apply pebble_delete_allocation_twice.
Qed.

Lemma delete_absent_witness :
  let s := applyAll [saveNetworkCmd net1] fresh in
  let db := pebbleRun [saveNetworkCmd net1] ∅ in
  (networks s !! "net2" = None ∧ allocations s !! "net2" = None ∧
   db !! PebbleStore.networkKey "net2" = None ∧
   db !! PebbleStore.allocationKey "net2" = None) ∧
  RaftStore.DeleteNetwork "net2" s = (s, None) ∧
  RaftStore.DeleteAllocation "net2" s = (s, None) ∧
  PebbleStore.DeleteNetwork "net2" db = (db, Some ErrNetworkNotFound) ∧
  PebbleStore.DeleteAllocation "net2" db = (db, Some ErrIPNotAllocated).
Proof.
  intros s db.
  assert (H1 : networks s !! "net2" = None) by (vm_compute; reflexivity).
  assert (H2 : allocations s !! "net2" = None) by (vm_compute; reflexivity).
  assert (H3 : db !! PebbleStore.networkKey "net2" = None) by (vm_compute; reflexivity).
  assert (H4 : db !! PebbleStore.allocationKey "net2" = None) by (vm_compute; reflexivity).
  split; [done|].
  destruct (delete_absent s db "net2") as (T1 & T2 & T3 & T4 & _).
  split_and!; [by apply T1 | by apply T2 | by apply T3 | by apply T4].
Defined.

(** C5, counterexample.  On the empty Pebble store, deleting the absent
    network "net1" or the absent allocation "alloc1" returns an error. *)
Lemma pebble_delete_absent_fails :
  (∅ : gmap string PebbleStore.value) !! PebbleStore.networkKey "net1" = None ∧
  PebbleStore.DeleteNetwork "net1" ∅ = (∅, Some ErrNetworkNotFound) ∧
  PebbleStore.DeleteAllocation "alloc1" ∅ = (∅, Some ErrIPNotAllocated).
Proof. done. Qed.

(** ** Lookups of absent entities *)

Section AbsentLookups.
Import PebbleStore.

(** The Pebble-backed store reports an absent entity with the error of its
    kind. *)
Lemma pebble_lookup_absent db id cidr networkID ip :
  (db !! networkKey id = None → GetNetwork id db = (None, Some ErrNetworkNotFound)) ∧
  (db !! cidrIndexKey cidr = None →
     GetNetworkByCIDR cidr db = (None, Some ErrNetworkNotFound)) ∧
  (db !! allocationKey id = None → GetAllocation id db = (None, Some ErrIPNotAllocated)) ∧
  (db !! ipIndexKey networkID ip = None →
     GetAllocationByIP networkID ip db = (None, Some ErrIPNotAllocated)).
Proof.
  unfold GetNetwork, GetNetworkByCIDR, GetAllocation, GetAllocationByIP.
  split_and!; by intros ->.
Qed.

(** So does the Raft-backed store when the index has no entry. *)
Lemma raft_lookup_index_miss order s cidr networkID ip :
  (networkByCIDR s !! cidr = None →
     RaftStore.GetNetworkByCIDR order cidr s = Returns (None, Some ErrNetworkNotFound)) ∧
  (allocationByIP s !! ipKey networkID ip = None →
     RaftStore.GetAllocationByIP order networkID ip s
       = Returns (None, Some ErrIPNotAllocated)).
Proof.
  unfold RaftStore.GetNetworkByCIDR, RaftStore.GetAllocationByIP, RaftStore.executeQuery, Lookup.
  split; by intros ->.
Qed.

(** By id, [Lookup] returns the pointer read from the map inside the
    interface; for an absent id it is a nil pointer, which the test
    [result == nil] does not see. *)
Lemma raft_lookup_absent_id order s id :
  (networks s !! id = None → RaftStore.GetNetwork order id s = Returns (None, None)) ∧
  (allocations s !! id = None → RaftStore.GetAllocation order id s = Returns (None, None)).
Proof.
  unfold RaftStore.GetNetwork, RaftStore.GetAllocation, RaftStore.executeQuery, Lookup.
  split; by intros ->.
Qed.

End AbsentLookups.

(** C6, at the failing input.  On a fresh Raft-backed store, [GetNetwork]
    of the unknown network "net1" and [GetAllocation] of the unknown
    allocation "alloc1" return a nil record and a nil error, where the
    Pebble-backed store returns [network_not_found] and
    [ip_not_allocated]. *)
Theorem raft_get_absent_returns_no_error order :
  RaftStore.GetNetwork order "net1" fresh = Returns (None, None) ∧
  RaftStore.GetAllocation order "alloc1" fresh = Returns (None, None) ∧
  PebbleStore.GetNetwork "net1" ∅ = (None, Some ErrNetworkNotFound) ∧
  PebbleStore.GetAllocation "alloc1" ∅ = (None, Some ErrIPNotAllocated).
Proof. done. Qed.

(** ** Per-network allocation lists *)

Section ListedOnce.

Lemma filter_none {A} (P : A → Prop) `{∀ x, Decision (P x)} (l : list A) :
  (∀ x, x ∈ l → ¬ P x) → filter P l = [].
Proof.
  induction l as [|x l IH]; intros Hl; [done|].
  rewrite filter_cons, decide_False by (apply Hl; by left).
  apply IH. intros y Hy. apply Hl. by right.
Qed.

Lemma filter_the_one {A B} `{EqDecision B} (f : A → B) (l : list A) (a : A) :
  NoDup (f <$> l) → a ∈ l → filter (λ b, f b = f a) l = [a].
Proof.
  induction l as [|b l IH]; intros Hnd Ha; [by apply elem_of_nil in Ha|].
  rewrite fmap_cons in Hnd. apply NoDup_cons in Hnd as [Hb Hnd].
  rewrite filter_cons. apply elem_of_cons in Ha as [->|Ha].
  - rewrite decide_True by done. f_equal. apply filter_none.
    intros c Hc Heq. apply Hb. rewrite <- Heq. apply list_elem_of_fmap. by exists c.
  - rewrite decide_False; [by apply IH|].
    intros Heq. apply Hb. rewrite Heq. apply list_elem_of_fmap. by exists a.
Qed.

Lemma lookupAllocations_NoDup (allocs : gmap string IPAllocation.t) ids :
  (∀ id a, allocs !! id = Some a → IPAllocation.ID a = id) →
  NoDup ids → NoDup (IPAllocation.ID <$> lookupAllocations allocs ids).
Proof.
  intros Hkeyed. unfold lookupAllocations.
  induction ids as [|x ids IH]; intros Hnd; [constructor|].
  apply NoDup_cons in Hnd as [Hx Hnd]. cbn [omap list_omap].
  destruct (allocs !! x) as [a|] eqn:E; [|by apply IH].
  rewrite fmap_cons. apply NoDup_cons. split; [|by apply IH].
  rewrite (Hkeyed _ _ E).
  intros (b & Hb & (y & Hy & Hlook)%list_elem_of_omap)%list_elem_of_fmap.
  rewrite (Hkeyed _ _ Hlook) in Hb. by subst y.
Qed.

Lemma ListAllocations_eq order nid s :
  RaftStore.ListAllocations order nid s
  = Returns (lookupAllocations (allocations s) (default [] (allocationsByNet s !! nid)), None).
Proof. done. Qed.

End ListedOnce.

(** C10. In every reachable state of the state machine, no allocation id
    occurs twice in a per-network list, so [list_allocations(network_id)]
    returns no allocation twice, and it returns every stored allocation of
    the network exactly once, however often it was saved. *)
Theorem allocations_listed_once (s : ipamStateMachine) order (nid : string) :
  reachable s →
  NoDup (default [] (allocationsByNet s !! nid)) ∧
  ∃ l, RaftStore.ListAllocations order nid s = Returns (l, None) ∧
       NoDup (IPAllocation.ID <$> l) ∧
       ∀ id a, allocations s !! id = Some a → IPAllocation.NetworkID a = nid →
         filter (λ b, IPAllocation.ID b = id) l = [a].
Proof.
  intros [Hn Ha Hd Hc]%reachable_consistent.
  assert (Hnd : NoDup (default [] (allocationsByNet s !! nid))).
  { destruct (allocationsByNet s !! nid) eqn:E; [by eapply Hd | constructor]. }
  split; [done|]. eexists. split; [apply ListAllocations_eq|].
  assert (Hl : NoDup (IPAllocation.ID <$>
            lookupAllocations (allocations s) (default [] (allocationsByNet s !! nid))))
    by (by apply lookupAllocations_NoDup).
  split; [done|]. intros id a Hst Hnid.
  rewrite <- (Ha _ _ Hst). apply (filter_the_one IPAllocation.ID); [done|].
  apply list_elem_of_omap. exists id. split; [|done].
  specialize (Hc _ _ Hst). by rewrite Hnid in Hc.
Qed.

Lemma allocations_listed_once_witness :
  let s := applyAll [saveAllocationCmd alloc1; saveAllocationCmd alloc2;
                     saveAllocationCmd alloc1_readdressed] fresh in
  reachable s ∧
  RaftStore.ListAllocations [] "net1" s = Returns ([alloc1_readdressed; alloc2], None) ∧
  NoDup (default [] (allocationsByNet s !! "net1")).
Proof.
  intros s.
  assert (Hs : reachable s) by (apply reachable_applyAll; constructor).
  split; [done|]. split; [vm_compute; reflexivity|].
  apply (allocations_listed_once s [] "net1" Hs).
Defined.

(** ** Audit entries in the Pebble store *)

Section PebbleAudit.
Import PebbleStore.

Lemma prefixIter_insert_fresh pfx db k v :
  db !! k = None → inBounds pfx (pfx +:+ xff) k →
  length (prefixIter pfx (<[k := v]> db)) = S (length (prefixIter pfx db)).
Proof.
  intros Hk Hb. unfold prefixIter, NewIter.
  rewrite !merge_sort_Permutation, (map_to_list_insert _ _ _ Hk), filter_cons.
  by rewrite decide_True.
Qed.

Lemma burst_snoc n :
  burst (S n) = burst n ++ [auditAt ("audit" +:+ pretty n) 1700000000000000000].
Proof. unfold burst. by rewrite seq_S, fmap_app. Qed.

Lemma burst_key (i : nat) :
  auditKey (auditAt ("audit" +:+ pretty i) 1700000000000000000)
  = "audit:1700000000000000000_audit" +:+ pretty i.
Proof. done. Qed.

Lemma burst_key_inBounds (i : nat) :
  inBounds prefixAudit (prefixAudit +:+ xff)
    (auditKey (auditAt ("audit" +:+ pretty i) 1700000000000000000)).
Proof. rewrite burst_key. by apply (inBounds_prefix prefixAudit). Qed.

Lemma burst_run_snoc n :
  pebbleRun (saveAuditCmd <$> burst (S n)) ∅
  = <["audit:1700000000000000000_audit" +:+ pretty n
        := VAuditEntry (auditAt ("audit" +:+ pretty n) 1700000000000000000)]>
      (pebbleRun (saveAuditCmd <$> burst n) ∅).
Proof. rewrite burst_snoc, fmap_app. apply pebbleRun_snoc. Qed.

Lemma burst_lookup n k :
  is_Some (pebbleRun (saveAuditCmd <$> burst n) ∅ !! k) →
  ∃ i : nat, (i < n)%nat ∧ k = "audit:1700000000000000000_audit" +:+ pretty i.
Proof.
  induction n as [|n IH].
  - intros [v Hv]. change ((∅ : gmap string value) !! k = Some v) in Hv.
    by rewrite lookup_empty in Hv.
  - rewrite burst_run_snoc.
    destruct (decide (k = "audit:1700000000000000000_audit" +:+ pretty n)) as [->|Hne].
    + intros _. exists n. split; [lia | done].
    + rewrite lookup_insert_ne by done. intros (i & Hi & ->)%IH. exists i. split; [lia|done].
Qed.

Lemma burst_listed n :
  length (prefixIter prefixAudit (pebbleRun (saveAuditCmd <$> burst n) ∅)) = n.
Proof.
  induction n as [|n IH]; [done|].
  rewrite burst_run_snoc.
  rewrite prefixIter_insert_fresh, IH; [done | | apply burst_key_inBounds].
  apply eq_None_not_Some. intros (i & Hi & Heq)%burst_lookup.
  apply (inj (String.append _)) in Heq.
  apply (inj pretty) in Heq. lia.
Qed.

Lemma audit_range_decodes db :
  typed db →
  length (omap (λ kv, unmarshalAuditEntry kv.2) (prefixIter prefixAudit db))
  = length (prefixIter prefixAudit db).
Proof.
  intros Ht.
  assert (Hall : ∀ kv, kv ∈ prefixIter prefixAudit db → is_Some (unmarshalAuditEntry kv.2)).
  { intros [k v] Hin. destruct (typed_audit_range _ _ _ Ht Hin) as (e & -> & _). by eexists. }
  induction (prefixIter prefixAudit db) as [|kv it IH]; [done|].
  cbn [omap list_omap]. destruct (Hall kv) as [e ->]; [by left|].
  cbn [length]. f_equal. apply IH. intros kv' Hkv'. apply Hall. by right.
Qed.

(** On a well-formed database a limit [K >= 1] returns [min K N] of the
    [N] stored audit entries: the last [K] in key order, reversed. *)
Lemma pebble_list_audit_count db (K : Z) :
  typed db →
  (1 ≤ K < 2 ^ 63)%Z → (len (prefixIter prefixAudit db) < 2 ^ 63)%Z →
  ∃ l, ListAuditEntries K db = (l, None)
       ∧ len l = Z.min K (len (prefixIter prefixAudit db)).
Proof.
  intros Ht HK Hn. unfold ListAuditEntries.
  rewrite decodeAll_ok.
  2:{ apply Forall_forall. intros [k v] Hin.
      destruct (typed_audit_range _ _ _ Ht Hin) as (e & -> & _). by eexists. }
  pose proof (audit_range_decodes db Ht) as Hlen.
  unfold len in *. rewrite Hlen.
  set (n := length (prefixIter prefixAudit db)) in *.
  rewrite int_wrap_id by lia. eexists. split; [done|].
  unfold collect_down. rewrite length_rev, length_drop, Hlen.
  case_decide; lia.
Qed.

(** With a limit equal to the number of stored entries, the listing
    returns them all. *)
Lemma ListAuditEntries_all db :
  typed db →
  let n := len (prefixIter prefixAudit db) in
  ∃ l, ListAuditEntries n db = (l, None) ∧ len l = n.
Proof.
  intros Ht n. unfold ListAuditEntries.
  rewrite decodeAll_ok.
  2:{ apply Forall_forall. intros [k v] Hin.
      destruct (typed_audit_range _ _ _ Ht Hin) as (e & -> & _). by eexists. }
  assert (Hlen : len (omap (λ kv, unmarshalAuditEntry kv.2) (prefixIter prefixAudit db)) = n).
  { unfold n, len. f_equal. by apply audit_range_decodes. }
  rewrite Hlen, Z.sub_diag. eexists. split; [done|].
  unfold collect_down, len in *. cbn. by rewrite length_rev.
Qed.

End PebbleAudit.

Section PebbleAuditKept.
Import PebbleStore.

(** Mutations of networks and allocations leave the audit entries alone. *)
Lemma pebbleMutate_audit c db e :
  (∀ e0, c ≠ saveAuditCmd e0) →
  (pebbleMutate c db).1 !! auditKey e = db !! auditKey e.
Proof.
  intros Hc. destruct c as [n|id|a|id|e0]; cbn [pebbleMutate].
  - unfold SaveNetwork, Commit. cbn [fst foldl applyOp].
    by rewrite !lookup_insert_ne by key_neq.
  - destruct (db !! networkKey id) as [[n| | |]|] eqn:E.
    2-5: by destruct (DeleteNetwork_error id db) as (err & -> & _); [by rewrite E|].
    rewrite (DeleteNetwork_present _ _ _ E). cbn [fst].
    rewrite Commit_deletes, decide_False; [done|].
    unfold deleteNetworkKeys. rewrite !elem_of_cons, elem_of_cascadeKeys.
    intros [H|[H|(k0 & a & Hin & _ & [H|H])]].
    + by destruct (ltac:(key_neq) : auditKey e ≠ networkKey id).
    + by destruct (ltac:(key_neq) : auditKey e ≠ cidrIndexKey (Network.CIDR n)).
    + apply elem_of_prefixIter in Hin as [_ Hb]. rewrite <- H in Hb.
      by destruct (allocation_range_audit _ Hb).
    + by destruct (ltac:(key_neq) : auditKey e ≠ ipIndexKey id (IPAllocation.IP a)).
  - unfold SaveAllocation, Commit. cbn [fst foldl applyOp].
    by rewrite !lookup_insert_ne by key_neq.
  - destruct (db !! allocationKey id) as [[|a| |]|] eqn:E.
    1,3-5: by destruct (DeleteAllocation_error id db) as (err & -> & _); [by rewrite E|].
    rewrite (DeleteAllocation_present _ _ _ E). cbn [fst].
    rewrite Commit_deletes, decide_False; [done|].
    intros [H|[H|H%elem_of_nil]%elem_of_cons]%elem_of_cons; [| |done].
    + by destruct (ltac:(key_neq) : auditKey e ≠ allocationKey id).
    + by destruct (ltac:(key_neq) : auditKey e ≠
        ipIndexKey (IPAllocation.NetworkID a) (IPAllocation.IP a)).
  - by destruct (Hc e0).
Qed.

Lemma auditTable_snoc es e : auditTable (es ++ [e]) = <[auditKey e := e]> (auditTable es).
Proof. unfold auditTable. by rewrite foldl_app. Qed.

(** The audit entries of the database are those of the table of the
    appended entries. *)
Lemma pebbleRun_audit cs e :
  pebbleRun cs ∅ !! auditKey e = VAuditEntry <$> auditTable (appended cs) !! auditKey e.
Proof.
  induction cs as [|c cs IH] using rev_ind; [done|].
  rewrite pebbleRun_snoc, appended_snoc.
  destruct c as [n|id|a|id|e0];
    try (rewrite pebbleMutate_audit by done; by rewrite app_nil_r).
  rewrite auditTable_snoc. cbn [pebbleMutate]. unfold SaveAuditEntry. cbn [fst].
  destruct (decide (auditKey e0 = auditKey e)) as [Heq|Hne].
  - by rewrite Heq, !lookup_insert_eq.
  - by rewrite !lookup_insert_ne.
Qed.

Lemma auditTable_lookup es k e :
  auditTable es !! k = Some e → e ∈ es ∧ auditKey e = k.
Proof.
  induction es as [|e0 es IH] using rev_ind; [done|].
  rewrite auditTable_snoc. intros [[<- <-]|[_ H]]%lookup_insert_Some.
  - split; [|done]. apply elem_of_app. right. by left.
  - destruct (IH H) as [Hin Hk]. split; [|done]. apply elem_of_app. by left.
Qed.

Lemma auditTable_is_Some es e : e ∈ es → is_Some (auditTable es !! auditKey e).
Proof.
  induction es as [|e0 es IH] using rev_ind; [by intros ?%elem_of_nil|].
  rewrite auditTable_snoc. intros [Hin|Hin%list_elem_of_singleton]%elem_of_app.
  - destruct (decide (auditKey e0 = auditKey e)) as [Heq|Hne].
    + rewrite Heq, lookup_insert_eq. by eexists.
    + rewrite lookup_insert_ne by done. by apply IH.
  - subst e0. rewrite lookup_insert_eq. by eexists.
Qed.

Lemma auditTable_NoDup es e :
  NoDup (auditKey <$> es) → e ∈ es → auditTable es !! auditKey e = Some e.
Proof.
  intros Hnd Hin. destruct (auditTable_is_Some es e Hin) as [e' He'].
  destruct (auditTable_lookup _ _ _ He') as [Hin' Hk]. rewrite He'. f_equal.
  clear He'. induction es as [|e0 es IH]; [by apply elem_of_nil in Hin|].
  rewrite fmap_cons in Hnd. apply NoDup_cons in Hnd as [Hnotin Hnd].
  apply elem_of_cons in Hin as [->|Hin], Hin' as [->|Hin']; [done | | |by apply IH].
  - destruct Hnotin. rewrite <- Hk. apply list_elem_of_fmap. by exists e'.
  - destruct Hnotin. rewrite Hk. apply list_elem_of_fmap. by exists e.
Qed.

(** The entries that the scan of the audit range decodes. *)
Lemma elem_of_audit_range db e :
  typed db →
  e ∈ omap (λ kv, unmarshalAuditEntry kv.2) (prefixIter prefixAudit db) ↔
  db !! auditKey e = Some (VAuditEntry e).
Proof.
  intros Ht. rewrite list_elem_of_omap. split.
  - intros ([k v] & Hkv & Hdec). cbn in Hdec.
    destruct (typed_audit_range _ _ _ Ht Hkv) as (e' & -> & ->).
    injection Hdec as ->. by apply elem_of_prefixIter in Hkv as [Hk _].
  - intros Hk. exists (auditKey e, VAuditEntry e).
    split; [|done]. apply elem_of_prefixIter. split; [done | apply auditKey_inBounds].
Qed.

(** Appended entries with pairwise different keys are all listed. *)
Lemma pebble_lists_all_appended cs :
  NoDup (auditKey <$> appended cs) →
  ∃ l, ListAuditEntries (len (appended cs)) (pebbleRun cs ∅) = (l, None) ∧
       l ≡ₚ appended cs.
Proof.
  intros Hnd. set (db := pebbleRun cs ∅).
  assert (Ht : typed db) by apply pebbleReachable_typed, pebbleReachable_run.
  set (all := omap (λ kv, unmarshalAuditEntry kv.2) (prefixIter prefixAudit db)).
  assert (Hall : all ≡ₚ appended cs).
  { apply NoDup_Permutation.
    - apply (decoded_NoDup _ auditKey); [|apply NewIter_NoDup].
      intros k v Hkv. destruct (typed_audit_range _ _ _ Ht Hkv) as (e & -> & ->).
      by exists e.
    - by apply (NoDup_fmap_1 auditKey).
    - intros e. unfold all. rewrite (elem_of_audit_range _ _ Ht).
      unfold db. rewrite pebbleRun_audit. split.
      + intros H. destruct (auditTable (appended cs) !! auditKey e) as [e'|] eqn:E; [|done].
        injection H as ->. by apply auditTable_lookup in E as [? _].
      + intros Hin. by rewrite (auditTable_NoDup _ _ Hnd Hin). }
  exists (rev all). split; [|by rewrite <- Hall, <- Permutation_rev].
  unfold ListAuditEntries. fold db. rewrite decodeAll_ok.
  2:{ apply Forall_forall. intros [k v] Hin.
      destruct (typed_audit_range _ _ _ Ht Hin) as (e & -> & _). by eexists. }
  fold all. assert (Hlen : len all = len (appended cs)) by (unfold len; by rewrite Hall).
  rewrite Hlen, Z.sub_diag. by unfold collect_down.
Qed.

Lemma NoDup_fmap_coarser {A B C} (f : A → B) (g : A → C) (l : list A) :
  (∀ x y, g x = g y → f x = f y) → NoDup (f <$> l) → NoDup (g <$> l).
Proof.
  intros Hfg. induction l as [|x l IH]; [constructor|].
  rewrite !fmap_cons, !NoDup_cons. intros [Hx Hnd]. split; [|by apply IH].
  intros (y & Hy & Hin)%list_elem_of_fmap. apply Hx.
  apply list_elem_of_fmap. exists y. split; [by apply Hfg | done].
Qed.

End PebbleAuditKept.

(** C2 (as amended). After any log of commands applied to a fresh state
    machine (the Raft-backed store), the audit list holds at most 10,000
    entries, and it is the last 10,000 of the appended entries in the order
    of appending: the oldest are discarded first.  The Pebble-backed store,
    after the same log from the empty store, discards nothing: the key of
    every appended entry is still stored, and when no two appended entries
    have the same timestamp and id, [ListAuditEntries] with their number as
    the limit returns as many entries as were appended, however many they
    are; these are the appended entries when their strings are valid
    UTF-8. *)
Theorem raft_audit_bounded (cs : list command) (c0 n0 : Z) :
  let s := applyAll cs (newIPAMStateMachine c0 n0) in
  let db := pebbleRun cs ∅ in
  (len (audit s) ≤ 10000)%Z ∧
  audit s = lastN 10000 (appended cs) ∧
  (∀ e, e ∈ appended cs → is_Some (db !! PebbleStore.auditKey e)) ∧
  (NoDup ((λ e, (AuditEntry.Timestamp e, AuditEntry.ID e)) <$> appended cs) →
   ∃ l, PebbleStore.ListAuditEntries (len (appended cs)) db = (l, None) ∧
        len l = len (appended cs) ∧
        (Forall utf8Entry (appended cs) → l ≡ₚ appended cs)).
Proof.
  intros s db. unfold s. rewrite audit_applyAll. split_and!.
  - by apply len_lastN_le.
  - done.
  - intros e Hin. unfold db. rewrite pebbleRun_audit.
    destruct (auditTable_is_Some _ _ Hin) as [e' ->]. by eexists.
  - intros Hnd. destruct (pebble_lists_all_appended cs) as (l & Hl & Hperm).
    { apply (NoDup_fmap_coarser (λ e, (AuditEntry.Timestamp e, AuditEntry.ID e))
               PebbleStore.auditKey); [|done].
      intros x y [H1 H2]%auditKey_inj. by rewrite H1, H2. }
    exists l. split; [done|]. split; [|done]. unfold len. by rewrite Hperm.
Qed.

Lemma raft_audit_bounded_witness :
  let e0 := auditAt "audit0" 1700000000000000000 in
  let e1 := auditAt "audit1" 1700000000000000000 in
  let cs := [saveAuditCmd e0; saveNetworkCmd net1; saveAuditCmd e1; deleteNetworkCmd "net1"] in
  (NoDup ((λ e, (AuditEntry.Timestamp e, AuditEntry.ID e)) <$> appended cs) ∧
   Forall utf8Entry (appended cs)) ∧
  ∃ l, PebbleStore.ListAuditEntries 2 (pebbleRun cs ∅) = (l, None) ∧ l ≡ₚ [e0; e1].
Proof.
  intros e0 e1 cs.
  assert (Hnd : NoDup ((λ e, (AuditEntry.Timestamp e, AuditEntry.ID e)) <$> appended cs)).
  { apply (bool_decide_unpack _). vm_compute. reflexivity. }
  assert (Hcs : Forall utf8Entry (appended cs)) by (repeat constructor; utf8_sample).
  split; [exact (conj Hnd Hcs)|].
  destruct (raft_audit_bounded cs 1 1) as (_ & _ & _ & Hall).
  destruct (Hall Hnd) as (l & Hl & _ & Hperm). exists l. split; [exact Hl | exact (Hperm Hcs)].
Defined.

(** C2, counterexample.  After a burst of 10,001 appends, the Pebble-backed
    store lists 10,001 audit entries. *)
Lemma pebble_audit_unbounded :
  ∃ l, PebbleStore.ListAuditEntries 10001
         (pebbleRun (saveAuditCmd <$> burst (Z.to_nat 10001)) ∅) = (l, None) ∧
       len l = 10001%Z.
Proof.
  pose proof (ListAuditEntries_all _ (pebbleReachable_typed _
    (pebbleReachable_run (saveAuditCmd <$> burst (Z.to_nat 10001))))) as H.
  cbn zeta in H. unfold len in H at 1 3. rewrite burst_listed in H.
  by rewrite Z2Nat.id in H.
Qed.

(** ** Listing the audit log *)

Section AuditListing.


End AuditListing.

(** C9, at the failing input.  Two entries are appended to the Pebble-backed
    store, the first stamped 999999999999999999 ns (2001-09-09
    01:46:39.999999999 UTC), the second one nanosecond later.  Their keys
    are "audit:999999999999999999_audit0" and
    "audit:1000000000000000000_audit1"; the second sorts first, and
    [ListAuditEntries(1)] returns the entry appended first.  The Raft-backed
    store returns the entry appended last. *)
Theorem pebble_lists_audit_in_key_order order :
  let e0 := auditAt "audit0" 999999999999999999 in
  let e1 := auditAt "audit1" 1000000000000000000 in
  let log := [saveAuditCmd e0; saveAuditCmd e1] in
  PebbleStore.ListAuditEntries 1 (pebbleRun log ∅) = ([e0], None) ∧
  RaftStore.ListAuditEntries order 1 (applyAll log fresh) = Returns ([e1], None).
Proof. vm_compute. done. Qed.

(** ** The network tables of the two stores *)

Section NetworkTables.
Import PebbleStore.

Lemma networkKey_deleted id id' n db :
  networkKey id' ∈ deleteNetworkKeys id n db ↔ id' = id.
Proof.
  unfold deleteNetworkKeys. rewrite !elem_of_cons, elem_of_cascadeKeys. split.
  - intros [H|[H|(k0 & a & Hin & _ & [H|H])]].
    + by apply networkKey_inj.
    + by destruct (ltac:(key_neq) : networkKey id' ≠ cidrIndexKey (Network.CIDR n)).
    + apply elem_of_prefixIter in Hin as [_ Hb]. rewrite <- H in Hb.
      by destruct (allocation_range_network _ Hb).
    + by destruct (ltac:(key_neq) :
        networkKey id' ≠ ipIndexKey id (IPAllocation.IP a)).
  - intros ->. by left.
Qed.

Lemma cidrIndexKey_deleted id cidr n db :
  cidrIndexKey cidr ∈ deleteNetworkKeys id n db ↔ cidr = Network.CIDR n.
Proof.
  unfold deleteNetworkKeys. rewrite !elem_of_cons, elem_of_cascadeKeys. split.
  - intros [H|[H|(k0 & a & Hin & _ & [H|H])]].
    + by destruct (ltac:(key_neq) : cidrIndexKey cidr ≠ networkKey id).
    + by apply cidrIndexKey_inj.
    + apply elem_of_prefixIter in Hin as [_ Hb]. rewrite <- H in Hb.
      by destruct (allocation_range_index _ Hb).
    + by destruct (ltac:(key_neq) :
        cidrIndexKey cidr ≠ ipIndexKey id (IPAllocation.IP a)).
  - intros ->. right. by left.
Qed.

Lemma networks_apply c s : networks (apply c s) = networksAfter c (networks s).
Proof.
  destruct c as [n|id|a|id|e]; cbn [apply networksAfter]; try done.
  - destruct (networks s !! id) as [n|] eqn:E.
    + by rewrite (deleteNetwork_present _ _ _ E).
    + unfold applyDeleteNetwork. by rewrite E, (delete_id _ _ E).
  - unfold applyDeleteAllocation. by destruct (allocations s !! id).
Qed.

Lemma networkByCIDR_apply_other c s :
  (∀ n, c ≠ saveNetworkCmd n) → (∀ id, c ≠ deleteNetworkCmd id) →
  networkByCIDR (apply c s) = networkByCIDR s.
Proof.
  intros H1 H2. destruct c as [n|id|a|id|e]; cbn [apply]; try done.
  - by destruct (H1 n).
  - by destruct (H2 id).
  - unfold applyDeleteAllocation. by destruct (allocations s !! id).
Qed.

Lemma sameNetworks_step c db s :
  sameNetworks db s → sameNetworks (pebbleMutate c db).1 (apply c s).
Proof.
  intros [HN HC]. destruct c as [n|id|a|id|e]; cbn [pebbleMutate apply].
  - unfold SaveNetwork, Commit, applySaveNetwork. cbn [fst foldl applyOp]. split.
    + intros id. cbn [networks].
      rewrite lookup_insert_ne by key_neq.
      destruct (decide (Network.ID n = id)) as [<-|Hne].
      * by rewrite !lookup_insert_eq.
      * rewrite !lookup_insert_ne; [apply HN | done |].
        intros H%networkKey_inj. done.
    + intros cidr. cbn [networkByCIDR].
      destruct (decide (Network.CIDR n = cidr)) as [<-|Hne].
      * by rewrite !lookup_insert_eq.
      * rewrite (lookup_insert_ne (networkByCIDR s)) by done.
        rewrite lookup_insert_ne by (intros H%cidrIndexKey_inj; done).
        rewrite lookup_insert_ne by key_neq. apply HC.
  - destruct (networks s !! id) as [n|] eqn:E.
    + assert (Hdb : db !! networkKey id = Some (VNetwork n)) by (by rewrite HN, E).
      rewrite (DeleteNetwork_present _ _ _ Hdb), (deleteNetwork_present _ _ _ E).
      cbn [fst]. cbn zeta. split.
      * intros id'. cbn [networks]. rewrite Commit_deletes.
        destruct (decide (id' = id)) as [->|Hne].
        -- rewrite decide_True by (by apply networkKey_deleted).
           by rewrite lookup_delete_eq.
        -- rewrite decide_False by (by rewrite networkKey_deleted).
           rewrite lookup_delete_ne by done. apply HN.
      * intros cidr. cbn [networkByCIDR]. rewrite Commit_deletes.
        destruct (decide (cidr = Network.CIDR n)) as [->|Hne].
        -- rewrite decide_True by (by apply cidrIndexKey_deleted).
           by rewrite lookup_delete_eq.
        -- rewrite decide_False by (by rewrite cidrIndexKey_deleted).
           rewrite lookup_delete_ne by done. apply HC.
    + destruct (DeleteNetwork_error id db) as (err & -> & _).
      { intros n. by rewrite HN, E. }
      unfold applyDeleteNetwork. by rewrite E.
  - unfold SaveAllocation, Commit, applySaveAllocation. cbn [fst foldl applyOp]. split.
    + intros id. cbn [networks]. rewrite !lookup_insert_ne by key_neq. apply HN.
    + intros cidr. cbn [networkByCIDR]. rewrite !lookup_insert_ne by key_neq. apply HC.
  - assert (Hs : networks (applyDeleteAllocation id s) = networks s
               ∧ networkByCIDR (applyDeleteAllocation id s) = networkByCIDR s).
    { unfold applyDeleteAllocation. by destruct (allocations s !! id). }
    destruct Hs as [Hs1 Hs2]. unfold sameNetworks. rewrite Hs1, Hs2.
    destruct (db !! allocationKey id) as [[|a| |]|] eqn:E.
    2:{ rewrite (DeleteAllocation_present _ _ _ E). cbn [fst]. split.
        - intros id'. rewrite Commit_deletes, decide_False; [apply HN|].
          intros [H|[H|H%elem_of_nil]%elem_of_cons]%elem_of_cons; [| |done].
          + by destruct (ltac:(key_neq) : networkKey id' ≠ allocationKey id).
          + by destruct (ltac:(key_neq) : networkKey id' ≠
              ipIndexKey (IPAllocation.NetworkID a) (IPAllocation.IP a)).
        - intros cidr. rewrite Commit_deletes, decide_False; [apply HC|].
          intros [H|[H|H%elem_of_nil]%elem_of_cons]%elem_of_cons; [| |done].
          + by destruct (ltac:(key_neq) : cidrIndexKey cidr ≠ allocationKey id).
          + by destruct (ltac:(key_neq) : cidrIndexKey cidr ≠
              ipIndexKey (IPAllocation.NetworkID a) (IPAllocation.IP a)). }
    all: destruct (DeleteAllocation_error id db) as (err & -> & _); [by rewrite E | done].
  - unfold SaveAuditEntry, applySaveAudit. cbn [fst]. split.
    + intros id. cbn [networks]. rewrite lookup_insert_ne by key_neq. apply HN.
    + intros cidr. cbn [networkByCIDR]. rewrite lookup_insert_ne by key_neq. apply HC.
Qed.

Lemma sameNetworks_new c0 n0 : sameNetworks ∅ (newIPAMStateMachine c0 n0).
Proof. split; intros; cbn; by rewrite !lookup_empty. Qed.

Lemma cidrIndexed_new c0 n0 : cidrIndexed (newIPAMStateMachine c0 n0).
Proof.
  split; cbn; [intros id n; by rewrite lookup_empty|].
  intros cidr id. rewrite lookup_empty. split; [done|].
  intros (n & Hn & _). by rewrite lookup_empty in Hn.
Qed.

Lemma cidrIndexed_step c s :
  cidrIndexed s →
  match c with saveNetworkCmd n => saveRespectsCIDR n (networks s) | _ => True end →
  cidrIndexed (apply c s).
Proof.
  intros [Hk Hi] Hc.
  assert (Hother : networks (apply c s) = networks s →
            networkByCIDR (apply c s) = networkByCIDR s → cidrIndexed (apply c s)).
  { intros H1 H2. unfold cidrIndexed. by rewrite H1, H2. }
  destruct c as [n|id|a|id|e].
  - clear Hother. cbn [apply]. unfold applySaveNetwork.
    split; cbn [networks networkByCIDR].
    + intros id n' [[<- <-]|[_ H]]%lookup_insert_Some; [done | by apply Hk].
    + intros cidr id. split.
      * intros [[<- <-]|[Hne Hidx]]%lookup_insert_Some.
        -- exists n. split; [apply lookup_insert_eq | done].
        -- apply Hi in Hidx as (n' & Hn' & <-). exists n'. split; [|done].
           rewrite lookup_insert_ne; [done|].
           intros <-. apply Hne. symmetry. by apply (Hc _ _ Hn').
      * intros (n' & Hn' & <-). apply lookup_insert_Some in Hn' as [[<- <-]|[Hne Hn']].
        -- apply lookup_insert_eq.
        -- rewrite lookup_insert_ne; [apply Hi; by exists n'|].
           intros Heq. apply Hne. symmetry. apply (Hc _ _ Hn'). by symmetry.
  - clear Hother. cbn [apply]. destruct (networks s !! id) as [n|] eqn:E.
    2:{ unfold applyDeleteNetwork. by rewrite E. }
    rewrite (deleteNetwork_present _ _ _ E). cbn zeta. split; cbn [networks networkByCIDR].
    + intros id' n' [_ H]%lookup_delete_Some. by apply Hk.
    + intros cidr id'. split.
      * intros [Hne Hidx]%lookup_delete_Some.
        apply Hi in Hidx as (n' & Hn' & <-). exists n'. split; [|done].
        apply lookup_delete_Some. split; [|done]. intros <-. congruence.
      * intros (n' & [Hne Hn']%lookup_delete_Some & <-).
        apply lookup_delete_Some. split; [|apply Hi; by exists n'].
        intros Heq. apply Hne.
        assert (H1 : networkByCIDR s !! Network.CIDR n = Some id) by (apply Hi; by exists n).
        assert (H2 : networkByCIDR s !! Network.CIDR n = Some id').
        { apply Hi. exists n'. by rewrite Heq. }
        congruence.
  - by apply Hother.
  - apply Hother; unfold apply, applyDeleteAllocation; by destruct (allocations s !! id).
  - by apply Hother.
Qed.

Lemma network_tables_run cs s db :
  cidrIndexed s → sameNetworks db s → cidrDisciplined cs (networks s) →
  cidrIndexed (applyAll cs s) ∧ sameNetworks (pebbleRun cs db) (applyAll cs s).
Proof.
  revert s db. induction cs as [|c cs IH]; intros s db Hi Hs Hd; [done|].
  destruct Hd as [Hc Hd]. cbn [applyAll pebbleRun foldl].
  apply IH.
  - by apply cidrIndexed_step.
  - by apply sameNetworks_step.
  - by rewrite networks_apply.
Qed.

End NetworkTables.

(** C7. In every state reached by mutations that respect the CIDR
    discipline (a save keeps the CIDR of the network it replaces, and no
    other stored network has that CIDR), [get_network_by_cidr(n.CIDR)]
    returns exactly [n] for every stored network [n], and no two stored
    networks have the same CIDR, on both stores. *)
Theorem cidr_index_bijection (cs : list command) (c0 n0 : Z) order :
  cidrDisciplined cs ∅ →
  let s := applyAll cs (newIPAMStateMachine c0 n0) in
  let db := pebbleRun cs ∅ in
  (∀ id n, networks s !! id = Some n →
     RaftStore.GetNetworkByCIDR order (Network.CIDR n) s = Returns (Some n, None) ∧
     ∀ id' n', networks s !! id' = Some n' → Network.CIDR n' = Network.CIDR n → id' = id) ∧
  (∀ id n, PebbleStore.GetNetwork id db = (Some n, None) →
     PebbleStore.GetNetworkByCIDR (Network.CIDR n) db = (Some n, None) ∧
     ∀ id' n', PebbleStore.GetNetwork id' db = (Some n', None) →
       Network.CIDR n' = Network.CIDR n → id' = id).
Proof.
  intros Hd s db.
  destruct (network_tables_run cs (newIPAMStateMachine c0 n0) ∅) as [[Hk Hi] [HN HC]];
    [apply cidrIndexed_new | apply sameNetworks_new | done |].
  fold s db in Hk, Hi, HN, HC.
  assert (Hrsm : ∀ id n, networks s !! id = Some n →
            networkByCIDR s !! Network.CIDR n = Some id ∧
            ∀ id' n', networks s !! id' = Some n' →
              Network.CIDR n' = Network.CIDR n → id' = id).
  { intros id n Hn.
    assert (Hidx : networkByCIDR s !! Network.CIDR n = Some id) by (apply Hi; by exists n).
    split; [done|]. intros id' n' Hn' Heq.
    assert (networkByCIDR s !! Network.CIDR n = Some id') by (apply Hi; by exists n').
    congruence. }
  split.
  - intros id n Hn. destruct (Hrsm id n Hn) as [Hidx Huniq]. split; [|done].
    unfold RaftStore.GetNetworkByCIDR, RaftStore.executeQuery, Lookup.
    by rewrite Hidx, Hn.
  - assert (Hget : ∀ id n, PebbleStore.GetNetwork id db = (Some n, None) →
              networks s !! id = Some n).
    { intros id n Hg%GetNetwork_Some. rewrite HN in Hg.
      destruct (networks s !! id); by simplify_eq/=. }
    intros id n Hg. pose proof (Hget _ _ Hg) as Hn.
    destruct (Hrsm id n Hn) as [Hidx Huniq]. split.
    + unfold PebbleStore.GetNetworkByCIDR. rewrite HC, Hidx. cbn. done.
    + intros id' n' Hg' Heq. eapply Huniq; [by apply Hget | done].
Qed.

Lemma cidr_index_bijection_witness :
  let cs := [saveNetworkCmd net1; saveAllocationCmd alloc1; saveNetworkCmd net1] in
  cidrDisciplined cs ∅ ∧
  RaftStore.GetNetworkByCIDR [] "10.0.0.0/24" (applyAll cs fresh) = Returns (Some net1, None) ∧
  PebbleStore.GetNetworkByCIDR "10.0.0.0/24" (pebbleRun cs ∅) = (Some net1, None).
Proof.
  intros cs.
  assert (Hd : cidrDisciplined cs ∅).
  { unfold cs. cbn [cidrDisciplined networksAfter]. unfold saveRespectsCIDR.
    split_and!; try done.
    apply map_Forall_insert_2; [done | apply map_Forall_empty]. }
  split; [done|].
  destruct (cidr_index_bijection cs 1 1 [] Hd) as [Hrsm Hpebble]. split.
  - apply (Hrsm "net1" net1). vm_compute. reflexivity.
  - apply (Hpebble "net1" net1). vm_compute. reflexivity.
Defined.

(** ** Indexes that hold what the records determine *)

Section Indexed.

Lemma allocations_apply_network n s : allocations (applySaveNetwork n s) = allocations s.
Proof. done. Qed.

Lemma exactLists_step c s :
  consistent s → exactLists s → keepsNetwork c s → exactLists (apply c s).
Proof.
  intros [Hn Ha Hd Hc] He Hk. destruct c as [n|id|a|id|e]; cbn [apply].
  - done.
  - destruct (networks s !! id) as [n|] eqn:E.
    2:{ unfold applyDeleteNetwork. by rewrite E. }
    rewrite (deleteNetwork_present _ _ _ E). cbn zeta.
    intros nid aid. cbn [allocationsByNet allocations].
    destruct (decide (nid = id)) as [->|Hne].
    { rewrite lookup_delete_eq. by intros ?%elem_of_nil. }
    rewrite lookup_delete_ne by done. intros Hin.
    destruct (He _ _ Hin) as (a & Hst & Hnid). exists a. split; [|done].
    rewrite cascade_allocations, decide_False; [done|].
    intros Hin'. destruct (He _ _ Hin') as (a' & Hst' & Hnid'). congruence.
  - intros nid aid. rewrite saveAllocation_byNet.
    unfold applySaveAllocation. cbn [allocations].
    assert (Hold : aid ∈ default [] (allocationsByNet s !! nid) →
              ∃ a0, <[IPAllocation.ID a := a]> (allocations s) !! aid = Some a0
                    ∧ IPAllocation.NetworkID a0 = nid).
    { intros Hin. destruct (He _ _ Hin) as (a' & Hst & Hnid).
      destruct (decide (IPAllocation.ID a = aid)) as [<-|Hne].
      - exists a. split; [apply lookup_insert_eq|]. rewrite <- (Hk _ Hst). done.
      - exists a'. by rewrite lookup_insert_ne. }
    case_decide as Hnid; [|done]. subst nid. cbn [default]. cbn zeta.
    destruct (found _ _); [done|].
    intros [Hin| ->%list_elem_of_singleton]%elem_of_app; [by apply Hold|].
    exists a. split; [apply lookup_insert_eq | done].
  - unfold applyDeleteAllocation. destruct (allocations s !! id) as [a|] eqn:E; [|done].
    intros nid aid. cbn [allocationsByNet allocations].
    assert (Hfilt : aid ∈ default [] (allocationsByNet s !! nid) → aid ≠ id →
              ∃ a0, delete id (allocations s) !! aid = Some a0
                    ∧ IPAllocation.NetworkID a0 = nid).
    { intros Hin Hne. destruct (He _ _ Hin) as (a' & Hst & Hnid).
      exists a'. by rewrite lookup_delete_ne. }
    destruct (allocationsByNet s !! IPAllocation.NetworkID a) as [l|] eqn:El.
    + destruct (decide (nid = IPAllocation.NetworkID a)) as [->|Hne].
      * rewrite lookup_insert_eq. cbn [default].
        intros [Hneq Hin]%list_elem_of_filter. apply Hfilt; [by rewrite El | done].
      * rewrite lookup_insert_ne by done. intros Hin. apply Hfilt; [done|].
        intros ->. destruct (He _ _ Hin) as (a' & Hst & Hnid). congruence.
    + intros Hin. apply Hfilt; [done|].
      intros ->. destruct (He _ _ Hin) as (a' & Hst & Hnid).
      assert (a' = a) as -> by congruence. subst nid. rewrite El in Hin.
      by apply elem_of_nil in Hin.
  - done.
Qed.

Lemma ipIndexed_step c s :
  ipIndexed s →
  match c with saveAllocationCmd a => saveRespectsIP a (allocations s) | _ => True end →
  ipIndexed (apply c s).
Proof.
  intros Hi Hc. destruct c as [n|id|a|id|e]; cbn [apply].
  - done.
  - destruct (networks s !! id) as [n|] eqn:E.
    2:{ unfold applyDeleteNetwork. by rewrite E. }
    rewrite (deleteNetwork_present _ _ _ E). cbn zeta.
    intros k aid. cbn [allocationByIP allocations].
    set (ids := default [] (allocationsByNet s !! id)). split.
    + intros Hk. pose proof (cascade_index_sub _ _ _ _ _ Hk) as Hk0.
      apply Hi in Hk0 as (a & Hst & <-). exists a. split; [|done].
      rewrite cascade_allocations, decide_False; [done|].
      intros Hin. by rewrite (cascade_index_gone _ _ _ _ _ Hin Hst) in Hk.
    + intros (a & Hst & <-). rewrite cascade_allocations in Hst.
      case_decide as Hin; [done|].
      rewrite cascade_index_kept; [apply Hi; by exists a|].
      intros aid' a' Hin' Hst' Heq.
      assert (H1 : allocationByIP s !!
                ipKey (IPAllocation.NetworkID a) (IPAllocation.IP a) = Some aid)
        by (apply Hi; by exists a).
      assert (H2 : allocationByIP s !!
                ipKey (IPAllocation.NetworkID a) (IPAllocation.IP a) = Some aid')
        by (apply Hi; by exists a').
      congruence.
  - unfold applySaveAllocation. intros k aid. cbn [allocationByIP allocations]. split.
    + intros [[<- <-]|[Hne Hidx]]%lookup_insert_Some.
      * exists a. split; [apply lookup_insert_eq | done].
      * apply Hi in Hidx as (a' & Hst & <-). exists a'. split; [|done].
        rewrite lookup_insert_ne; [done|].
        intros <-. apply Hne. symmetry. by apply (Hc _ _ Hst).
    + intros (a' & Hst & <-). apply lookup_insert_Some in Hst as [[<- <-]|[Hne Hst]].
      * apply lookup_insert_eq.
      * rewrite lookup_insert_ne; [apply Hi; by exists a'|].
        intros Heq. apply Hne. symmetry. apply (Hc _ _ Hst). by symmetry.
  - unfold applyDeleteAllocation. destruct (allocations s !! id) as [a|] eqn:E; [|done].
    intros k aid. cbn [allocationByIP allocations]. split.
    + intros [Hne Hidx]%lookup_delete_Some.
      apply Hi in Hidx as (a' & Hst & <-). exists a'. split; [|done].
      apply lookup_delete_Some. split; [|done]. intros <-. congruence.
    + intros (a' & [Hne Hst]%lookup_delete_Some & <-).
      apply lookup_delete_Some. split; [|apply Hi; by exists a'].
      intros Heq. apply Hne.
      assert (H1 : allocationByIP s !!
                ipKey (IPAllocation.NetworkID a) (IPAllocation.IP a) = Some id)
        by (apply Hi; by exists a).
      assert (H2 : allocationByIP s !!
                ipKey (IPAllocation.NetworkID a) (IPAllocation.IP a) = Some aid).
      { apply Hi. exists a'. by rewrite Heq. }
      congruence.
  - done.
Qed.

Lemma indexed_new c0 n0 : indexed (newIPAMStateMachine c0 n0).
Proof.
  split_and!.
  - apply cidrIndexed_new.
  - intros k id. cbn. rewrite lookup_empty. split; [done|].
    intros (a & Ha & _). by rewrite lookup_empty in Ha.
  - apply consistent_new.
  - intros nid id. cbn. rewrite lookup_empty. by intros ?%elem_of_nil.
Qed.

Lemma indexed_step c s : indexed s → disciplined c s → indexed (apply c s).
Proof.
  intros (H1 & H2 & H3 & H4) Hd. split_and!.
  - apply cidrIndexed_step; [done|]. by destruct c.
  - apply ipIndexed_step; [done|]. by destruct c.
  - by apply consistent_apply.
  - apply exactLists_step; [done..|]. destruct c as [| |a| |]; try done.
    intros a' Hst. by apply (Hd _ _ Hst).
Qed.

Lemma indexed_run cs s : indexed s → disciplinedLog cs s → indexed (applyAll cs s).
Proof.
  revert s. induction cs as [|c cs IH]; intros s Hi Hd; [done|].
  destruct Hd as [Hc Hd]. cbn [applyAll foldl]. apply IH; [by apply indexed_step | done].
Qed.

(** An index built by ranging over an enumeration [l] of a map:
    [m[f(v)] = k] for each [(k, v)], in order. *)
Lemma fold_index_lookup {V} (f : V → string) (l : list (string * V))
    (m0 : gmap string string) k id :
  foldl (λ m kv, <[f kv.2 := kv.1]> m) m0 l !! k = Some id →
  (∃ v, (id, v) ∈ l ∧ f v = k) ∨ m0 !! k = Some id.
Proof.
  induction l as [|[id' v] l IH] using rev_ind; [by right|].
  rewrite foldl_app. cbn [foldl fst snd].
  intros [[<- <-]|[Hne H]]%lookup_insert_Some.
  - left. exists v. split; [|done]. apply elem_of_app. right. by left.
  - destruct (IH H) as [(v' & Hin & Hf)|H0]; [|by right].
    left. exists v'. split; [|done]. apply elem_of_app. by left.
Qed.

Lemma fold_index_unique {V} (f : V → string) (l : list (string * V))
    (m0 : gmap string string) id v :
  (id, v) ∈ l →
  (∀ id' v', (id', v') ∈ l → f v' = f v → id' = id) →
  foldl (λ m kv, <[f kv.2 := kv.1]> m) m0 l !! f v = Some id.
Proof.
  induction l as [|[id' v'] l IH] using rev_ind; [by intros ?%elem_of_nil|].
  intros Hin Huniq. rewrite foldl_app. cbn [foldl fst snd].
  destruct (decide (f v' = f v)) as [Heq|Hne].
  - rewrite Heq, lookup_insert_eq. f_equal. apply (Huniq id' v'); [|done].
    apply elem_of_app. right. by left.
  - rewrite lookup_insert_ne by done. apply IH.
    + apply elem_of_app in Hin as [Hin|Hin]; [done|].
      apply list_elem_of_singleton in Hin. by simplify_eq.
    + intros id'' v'' Hin'' Hf. apply (Huniq id'' v''); [|done].
      apply elem_of_app. by left.
Qed.

Lemma rebuild_byIP allocs (I : gmap string string) (B : gmap string (list string)) :
  (foldl rebuildAllocStep (I, B) allocs).1
  = foldl (λ m kv, <[ipKey (IPAllocation.NetworkID kv.2) (IPAllocation.IP kv.2) := kv.1]> m)
      I allocs.
Proof.
  revert I B. induction allocs as [|kv allocs IH]; intros I B; [done|].
  cbn [foldl]. unfold rebuildAllocStep at 2. cbn [fst snd]. by rewrite IH.
Qed.

(** A rebuilt index equals an index that holds exactly the entries the
    records determine. *)
Lemma rebuilt_index_eq {V} (f : V → string) (T : gmap string V) (l : list (string * V))
    (idx : gmap string string) :
  go_range T l →
  (∀ k id, idx !! k = Some id ↔ ∃ v, T !! id = Some v ∧ f v = k) →
  foldl (λ m kv, <[f kv.2 := kv.1]> m) ∅ l = idx.
Proof.
  intros Hl Hidx. apply map_eq. intros k.
  destruct (idx !! k) as [id|] eqn:E.
  - apply Hidx in E as (v & Hv & <-). apply fold_index_unique.
    + by apply (go_range_elem _ _ _ _ Hl).
    + intros id' v' Hin Hf. apply (go_range_elem _ _ _ _ Hl) in Hin.
      assert (H1 : idx !! f v = Some id) by (apply Hidx; by exists v).
      assert (H2 : idx !! f v = Some id') by (apply Hidx; by exists v').
      congruence.
  - apply eq_None_not_Some. intros [id Hid].
    apply fold_index_lookup in Hid as [(v & Hin & Hf)|H0].
    + apply (go_range_elem _ _ _ _ Hl) in Hin.
      assert (idx !! k = Some id) by (apply Hidx; by exists v). congruence.
    + by rewrite lookup_empty in H0.
Qed.

End Indexed.

Section Recovered.

Lemma fold_index_is_Some {V} (f : V → string) (l : list (string * V))
    (m0 : gmap string string) id v :
  (id, v) ∈ l → is_Some (foldl (λ m kv, <[f kv.2 := kv.1]> m) m0 l !! f v).
Proof.
  induction l as [|[id' v'] l IH] using rev_ind; [by intros ?%elem_of_nil|].
  rewrite foldl_app. cbn [foldl fst snd].
  intros [Hin|Hin%list_elem_of_singleton]%elem_of_app.
  - destruct (decide (f v' = f v)) as [Heq|Hne].
    + rewrite Heq, lookup_insert_eq. by eexists.
    + rewrite lookup_insert_ne by done. by apply IH.
  - injection Hin as -> ->. rewrite lookup_insert_eq. by eexists.
Qed.

(** An index that [rebuildIndexes] builds by ranging over an enumeration
    of the records holds what the records determine. *)
Lemma rebuilt_index_from {V} (f : V → string) (T : gmap string V) (l : list (string * V)) :
  go_range T l → rebuiltFrom f T (foldl (λ m kv, <[f kv.2 := kv.1]> m) ∅ l).
Proof.
  intros Hl. split.
  - intros k id [(v & Hin & Hf)|H0]%fold_index_lookup; [|by rewrite lookup_empty in H0].
    exists v. split; [|done]. by apply (go_range_elem _ _ _ _ Hl).
  - intros id v Hv. apply (fold_index_is_Some f l ∅ id v).
    by apply (go_range_elem _ _ _ _ Hl).
Qed.

End Recovered.

(** C3 (as amended). Every state recovered from the snapshot of a state
    [s] has the networks, allocations and audit list of [s], and indexes
    that hold what these records determine: each entry of the CIDR index
    and of the IP index names a stored record with that key, every key of a
    stored record has an entry, and each per-network list holds, without
    repetition, exactly the ids of the stored allocations of that network.
    Which of two records with the same key an index names, and the order
    within a list, depend on the enumeration of the restored maps.  The
    recovering replica keeps its own cluster and node id.  When an index of
    [s] itself holds exactly what the records of [s] determine, the
    recovered index is that of [s]. *)
Theorem snapshot_round_trip (s s0 s' : ipamStateMachine) :
  recovers (SaveSnapshot s) s0 s' →
  networks s' = networks s ∧ allocations s' = allocations s ∧ audit s' = audit s ∧
  clusterID s' = clusterID s0 ∧ nodeID s' = nodeID s0 ∧
  rebuiltFrom Network.CIDR (networks s) (networkByCIDR s') ∧
  rebuiltFrom (λ a, ipKey (IPAllocation.NetworkID a) (IPAllocation.IP a))
    (allocations s) (allocationByIP s') ∧
  (∀ nid, NoDup (default [] (allocationsByNet s' !! nid)) ∧
          ∀ id, id ∈ default [] (allocationsByNet s' !! nid) ↔
                ∃ a, allocations s !! id = Some a ∧ IPAllocation.NetworkID a = nid) ∧
  (cidrIndexed s → networkByCIDR s' = networkByCIDR s) ∧
  (ipIndexed s → allocationByIP s' = allocationByIP s) ∧
  (consistent s → exactLists s →
   ∀ nid, default [] (allocationsByNet s' !! nid)
          ≡ₚ default [] (allocationsByNet s !! nid)).
Proof.
  intros (nets & allocs & Hnets & Hallocs & ->). cbn in Hnets, Hallocs.
  unfold RecoverFromSnapshot, rebuildIndexes.
  cbn [networks allocations audit networkByCIDR allocationByIP allocationsByNet
       clusterID nodeID SaveSnapshot Networks Allocations Audit].
  assert (Hlist : ∀ nid id, id ∈ byNetOf allocs nid ↔
            ∃ a, allocations s !! id = Some a ∧ IPAllocation.NetworkID a = nid).
  { intros nid id. rewrite elem_of_byNetOf.
    by setoid_rewrite (go_range_elem _ _ _ _ Hallocs). }
  do 5 (split; [done|]).
  split; [by apply (rebuilt_index_from Network.CIDR)|].
  split.
  { rewrite rebuild_byIP.
    by apply (rebuilt_index_from
      (λ a, ipKey (IPAllocation.NetworkID a) (IPAllocation.IP a))). }
  split; [|split; [|split]].
  - intros nid. rewrite rebuild_byNet_default. split; [|apply Hlist].
    apply NoDup_byNetOf. by eapply go_range_NoDup.
  - intros [_ Hc]. by apply (rebuilt_index_eq Network.CIDR (networks s)).
  - intros Hip. rewrite rebuild_byIP.
    by apply (rebuilt_index_eq
      (λ a, ipKey (IPAllocation.NetworkID a) (IPAllocation.IP a)) (allocations s)).
  - intros [_ _ Hnd Hcomp] Hex nid. rewrite rebuild_byNet_default. apply NoDup_Permutation.
    + apply NoDup_byNetOf. by eapply go_range_NoDup.
    + destruct (allocationsByNet s !! nid) eqn:E; [by eapply Hnd | constructor].
    + intros id. rewrite Hlist. split.
      * intros (a & Hin & Hnid). specialize (Hcomp _ _ Hin). by rewrite Hnid in Hcomp.
      * apply Hex.
Qed.

Lemma snapshot_round_trip_witness :
  let s := applyAll reuseLog fresh in
  let s' := RecoverFromSnapshot (map_to_list (networks s)) (map_to_list (allocations s))
              (SaveSnapshot s) (newIPAMStateMachine 1 2) in
  recovers (SaveSnapshot s) (newIPAMStateMachine 1 2) s' ∧
  allocations s' = allocations s ∧ nodeID s' = 2%Z ∧
  (∃ id a, allocationByIP s' !! ipKey "net1" "10.0.0.10" = Some id ∧
           allocations s !! id = Some a ∧
           ipKey (IPAllocation.NetworkID a) (IPAllocation.IP a) = ipKey "net1" "10.0.0.10") ∧
  ("alloc1" ∈ default [] (allocationsByNet s' !! "net1") ∧
   "alloc3" ∈ default [] (allocationsByNet s' !! "net1")).
Proof.
  intros s s'.
  assert (Hr : recovers (SaveSnapshot s) (newIPAMStateMachine 1 2) s').
  { exists (map_to_list (networks s)), (map_to_list (allocations s)).
    split_and!; [apply Permutation_refl.. | exact eq_refl]. }
  split; [exact Hr|].
  destruct (snapshot_round_trip s (newIPAMStateMachine 1 2) s' Hr)
    as (_ & H1 & _ & _ & H2 & _ & [Hsound Hcompl] & Hlists & _).
  split; [exact H1|]. split; [exact H2|]. split.
  - destruct (Hcompl "alloc3" alloc3) as [id Hid]; [vm_compute; reflexivity|].
    destruct (Hsound _ _ Hid) as (a & Ha & Hk). exists id, a.
    split; [exact Hid|]. split; [exact Ha | exact Hk].
  - destruct (Hlists "net1") as [_ Hin]. split; apply Hin.
    + exists alloc1_released. split; [vm_compute|]; reflexivity.
    + exists alloc3. split; [vm_compute|]; reflexivity.
Defined.

(** C3, counterexample.  [alloc1] is saved under 10.0.0.10 and again under
    10.0.0.11, so the IP index of the state holds an entry for each address.
    The snapshot holds one network and one allocation, which leaves one
    enumeration of each map; the recovered IP index holds the entry of
    10.0.0.11 alone, and the lookup of (net1, 10.0.0.10) that found the
    allocation before the snapshot finds nothing after the recovery.
    After [alloc2] and then [alloc1] are saved, the list of "net1" is
    alloc2, alloc1; a recovery that enumerates the allocations as alloc1,
    alloc2 rebuilds it in that order.  After a release and reuse of
    10.0.0.10, the state holds the released [alloc1] and the active
    [alloc3] under the same network and address, and the lookup of (net1,
    10.0.0.10) finds [alloc3]; a recovery that enumerates [alloc3] before
    [alloc1] finds the released [alloc1], one that enumerates them the
    other way round finds [alloc3]: two replicas that recover from the same
    snapshot can answer differently. *)
Lemma snapshot_drops_earlier_address :
  (let s := applyAll readdressLog fresh in
   ∃ s', recovers (SaveSnapshot s) fresh s' ∧
         allocationByIP s !! ipKey "net1" "10.0.0.10" = Some "alloc1" ∧
         allocationByIP s' !! ipKey "net1" "10.0.0.10" = None ∧
         RaftStore.GetAllocationByIP [] "net1" "10.0.0.10" s
           = Returns (Some alloc1_readdressed, None) ∧
         RaftStore.GetAllocationByIP [] "net1" "10.0.0.10" s'
           = Returns (None, Some ErrIPNotAllocated)) ∧
  (let s := applyAll [saveAllocationCmd alloc2; saveAllocationCmd alloc1] fresh in
   ∃ s', recovers (SaveSnapshot s) fresh s' ∧
         allocationsByNet s !! "net1" = Some ["alloc2"; "alloc1"] ∧
         allocationsByNet s' !! "net1" = Some ["alloc1"; "alloc2"]) ∧
  (let s := applyAll reuseLog fresh in
   RaftStore.GetAllocationByIP [] "net1" "10.0.0.10" s = Returns (Some alloc3, None) ∧
   ∃ s' s'', recovers (SaveSnapshot s) fresh s' ∧ recovers (SaveSnapshot s) fresh s'' ∧
         RaftStore.GetAllocationByIP [] "net1" "10.0.0.10" s'
           = Returns (Some alloc1_released, None) ∧
         RaftStore.GetAllocationByIP [] "net1" "10.0.0.10" s''
           = Returns (Some alloc3, None)).
Proof.
  split_and!.
  - intros s.
    exists (RecoverFromSnapshot [("net1", net1)] [("alloc1", alloc1_readdressed)]
              (SaveSnapshot s) fresh).
    split.
    + exists [("net1", net1)], [("alloc1", alloc1_readdressed)].
      split_and!; [| |exact eq_refl]; unfold go_range; vm_compute; apply Permutation_refl.
    + vm_compute. done.
  - intros s.
    exists (RecoverFromSnapshot [] [("alloc1", alloc1); ("alloc2", alloc2)]
              (SaveSnapshot s) fresh).
    split.
    + exists [], [("alloc1", alloc1); ("alloc2", alloc2)].
      split_and!; [| |exact eq_refl]; unfold go_range; vm_compute; apply Permutation_refl.
    + vm_compute. done.
  - intros s. split; [vm_compute; reflexivity|].
    exists (RecoverFromSnapshot [("net1", net1)]
              [("alloc3", alloc3); ("alloc1", alloc1_released)] (SaveSnapshot s) fresh),
           (RecoverFromSnapshot [("net1", net1)]
              [("alloc1", alloc1_released); ("alloc3", alloc3)] (SaveSnapshot s) fresh).
    split_and!.
    + exists [("net1", net1)], [("alloc3", alloc3); ("alloc1", alloc1_released)].
      split_and!; [| |exact eq_refl]; unfold go_range; vm_compute;
        first [apply Permutation_refl | apply perm_swap].
    + exists [("net1", net1)], [("alloc1", alloc1_released); ("alloc3", alloc3)].
      split_and!; [| |exact eq_refl]; unfold go_range; vm_compute;
        first [apply Permutation_refl | apply perm_swap].
    + vm_compute. reflexivity.
    + vm_compute. reflexivity.
Qed.

(** ** The two stores in step *)

Section InStep.
Import PebbleStore.

Lemma ipIndexKey_eq networkID ip : ipIndexKey networkID ip = "index:ip:" +:+ ipKey networkID ip.
Proof. done. Qed.

Lemma ipIndex_inj k k' : "index:ip:" +:+ k = "index:ip:" +:+ k' → k = k'.
Proof. intros H. by simplify_eq/=. Qed.

Lemma allocations_apply_cases c s id x :
  allocations (apply c s) !! id = Some x →
  allocations s !! id = Some x ∨ (c = saveAllocationCmd x ∧ id = IPAllocation.ID x).
Proof.
  destruct c as [n|nid|a|aid|e]; cbn [apply].
  - by left.
  - destruct (networks s !! nid) as [n|] eqn:E.
    + rewrite (deleteNetwork_present _ _ _ E). cbn zeta. cbn [allocations].
      rewrite cascade_allocations. case_decide; [done | by left].
    + unfold applyDeleteNetwork. rewrite E. by left.
  - unfold applySaveAllocation. cbn [allocations].
    intros [[<- <-]|[_ H]]%lookup_insert_Some; [by right | by left].
  - unfold applyDeleteAllocation. destruct (allocations s !! aid); [|by left].
    cbn [allocations]. intros [_ H]%lookup_delete_Some. by left.
  - by left.
Qed.

Lemma allocationKey_deleted id aid n db :
  allocationKey aid ∈ deleteNetworkKeys id n db ↔
  ∃ a, (allocationKey aid, VAllocation a) ∈ prefixIter prefixAllocation db
       ∧ IPAllocation.NetworkID a = id.
Proof.
  unfold deleteNetworkKeys. rewrite !elem_of_cons, elem_of_cascadeKeys. split.
  - intros [H|[H|(k0 & a & Hin & Hnid & [H|H])]].
    + by destruct (ltac:(key_neq) : allocationKey aid ≠ networkKey id).
    + by destruct (ltac:(key_neq) : allocationKey aid ≠ cidrIndexKey (Network.CIDR n)).
    + subst k0. by exists a.
    + by destruct (ltac:(key_neq) : allocationKey aid ≠ ipIndexKey id (IPAllocation.IP a)).
  - intros (a & Hin & Hnid). do 2 right. exists (allocationKey aid), a. eauto.
Qed.

Lemma ipIndex_deleted id k n db :
  "index:ip:" +:+ k ∈ deleteNetworkKeys id n db ↔
  ∃ k0 a, (k0, VAllocation a) ∈ prefixIter prefixAllocation db
          ∧ IPAllocation.NetworkID a = id ∧ k = ipKey id (IPAllocation.IP a).
Proof.
  unfold deleteNetworkKeys. rewrite !elem_of_cons, elem_of_cascadeKeys. split.
  - intros [H|[H|(k0 & a & Hin & Hnid & [H|H])]].
    + by destruct (ltac:(key_neq) : "index:ip:" +:+ k ≠ networkKey id).
    + by destruct (ltac:(key_neq) : "index:ip:" +:+ k ≠ cidrIndexKey (Network.CIDR n)).
    + apply elem_of_prefixIter in Hin as [_ Hb]. rewrite <- H in Hb.
      by destruct (allocation_range_index ("ip:" +:+ k) Hb).
    + rewrite ipIndexKey_eq in H. apply ipIndex_inj in H. by exists k0, a.
  - intros (k0 & a & Hin & Hnid & ->). do 2 right. exists k0, a.
    split; [done|]. split; [done|]. by right.
Qed.

(** With the stores in step, the scan of the allocation range sees the
    stored allocations of the state machine. *)
Lemma inStep_scan db s k a :
  inStep db s →
  (k, VAllocation a) ∈ prefixIter prefixAllocation db ↔
  k = allocationKey (IPAllocation.ID a) ∧ allocations s !! IPAllocation.ID a = Some a.
Proof.
  intros [_ [HA _] _ _ Ht _ Htx]. split.
  - intros Hin. destruct (typed_allocation_range _ _ _ Ht Hin) as (a' & [= <-] & ->).
    split; [done|]. apply elem_of_prefixIter in Hin as [Hk _]. rewrite HA in Hk.
    destruct (allocations s !! IPAllocation.ID a); by simplify_eq/=.
  - intros [-> Hst]. apply elem_of_prefixIter. split; [by rewrite HA, Hst|].
    apply inBounds_prefix. by eapply Htx.
Qed.

End InStep.

Section InStepRun.
Import PebbleStore.

Lemma sameAllocations_deleteNetwork db s id n :
  inStep db s → networks s !! id = Some n →
  sameAllocations (DeleteNetwork id db).1 (applyDeleteNetwork id s).
Proof.
  intros Hin Hn. pose proof Hin as [[HN _] [HA HI] [_ Hkey _ Hcomp] Hex Ht _ Htx].
  assert (Hdb : db !! networkKey id = Some (VNetwork n)) by (by rewrite HN, Hn).
  rewrite (DeleteNetwork_present _ _ _ Hdb), (deleteNetwork_present _ _ _ Hn).
  cbn [fst]. cbn zeta.
  set (ids := default [] (allocationsByNet s !! id)).
  assert (Hids : ∀ aid, aid ∈ ids ↔
            ∃ a, allocations s !! aid = Some a ∧ IPAllocation.NetworkID a = id).
  { intros aid. split; [apply Hex|]. intros (a & Hst & <-). by apply Hcomp. }
  split; cbn [allocations allocationByIP].
  - intros aid. rewrite Commit_deletes, cascade_allocations.
    destruct (decide (aid ∈ ids)) as [Hi|Hi].
    + rewrite decide_True; [done|]. apply allocationKey_deleted.
      apply Hids in Hi as (a & Hst & Hnid). exists a. split; [|done].
      apply (inStep_scan db s _ _ Hin). by rewrite (Hkey _ _ Hst).
    + rewrite decide_False; [apply HA|].
      intros (a & [Hk Hst]%(inStep_scan db s _ _ Hin) & Hnid)%allocationKey_deleted.
      apply allocationKey_inj in Hk. subst aid. apply Hi, Hids. by exists a.
  - intros k. rewrite Commit_deletes.
    destruct (decide ("index:ip:" +:+ k ∈ deleteNetworkKeys id n db)) as [Hd|Hd].
    + apply ipIndex_deleted in Hd as (k0 & a & [_ Hst]%(inStep_scan db s _ _ Hin) & Hnid & ->).
      pose proof (cascade_index_gone ids (allocations s) (allocationByIP s)
                    (IPAllocation.ID a) a) as Hgone.
      rewrite Hnid in Hgone. rewrite Hgone; [done| |done].
      apply Hids. by exists a.
    + rewrite cascade_index_kept; [apply HI|].
      intros aid a Hi Hst Hk. apply Hd, ipIndex_deleted.
      apply Hids in Hi as (a' & Hst' & Hnid). assert (a' = a) as -> by congruence.
      exists (allocationKey (IPAllocation.ID a)), a. split.
      { apply (inStep_scan db s _ _ Hin). split; [done|].
        by rewrite (Hkey _ _ Hst). }
      split; [done|]. by rewrite <- Hk, Hnid.
Qed.

Lemma sameAllocations_step c db s :
  inStep db s → sameAllocations (pebbleMutate c db).1 (apply c s).
Proof.
  intros Hin. pose proof Hin as [[HN HC] [HA HI] _ _ _ _ _].
  destruct c as [n|id|a|id|e]; cbn [pebbleMutate apply].
  - unfold SaveNetwork, Commit, applySaveNetwork. cbn [fst foldl applyOp]. split.
    + intros id. cbn [allocations]. rewrite !lookup_insert_ne by key_neq. apply HA.
    + intros k. cbn [allocationByIP]. rewrite !lookup_insert_ne by key_neq. apply HI.
  - destruct (networks s !! id) as [n|] eqn:E.
    + by eapply sameAllocations_deleteNetwork.
    + destruct (DeleteNetwork_error id db) as (err & -> & _).
      { intros n. by rewrite HN, E. }
      unfold applyDeleteNetwork. by rewrite E.
  - unfold SaveAllocation, Commit, applySaveAllocation. cbn [fst foldl applyOp]. split.
    + intros id. cbn [allocations]. rewrite lookup_insert_ne by key_neq.
      destruct (decide (IPAllocation.ID a = id)) as [<-|Hne].
      * by rewrite !lookup_insert_eq.
      * rewrite !lookup_insert_ne; [apply HA | done |].
        by intros H%allocationKey_inj.
    + intros k. cbn [allocationByIP]. rewrite ipIndexKey_eq.
      destruct (decide (ipKey (IPAllocation.NetworkID a) (IPAllocation.IP a) = k))
        as [<-|Hne].
      * by rewrite !lookup_insert_eq.
      * rewrite (lookup_insert_ne (allocationByIP s)) by done.
        rewrite lookup_insert_ne by (by intros H%ipIndex_inj).
        rewrite lookup_insert_ne by key_neq. apply HI.
  - destruct (allocations s !! id) as [a|] eqn:E.
    + assert (Hdb : db !! allocationKey id = Some (VAllocation a)) by (by rewrite HA, E).
      rewrite (DeleteAllocation_present _ _ _ Hdb). cbn [fst].
      unfold applyDeleteAllocation. rewrite E. split; cbn [allocations allocationByIP].
      * intros aid. rewrite Commit_deletes.
        destruct (decide (aid = id)) as [->|Hne].
        -- rewrite decide_True by (by left). by rewrite lookup_delete_eq.
        -- rewrite lookup_delete_ne by done. rewrite decide_False; [apply HA|].
           intros [H|[H|H%elem_of_nil]%elem_of_cons]%elem_of_cons; [| |done].
           ++ by apply allocationKey_inj in H.
           ++ by destruct (ltac:(key_neq) : allocationKey aid ≠
                ipIndexKey (IPAllocation.NetworkID a) (IPAllocation.IP a)).
      * intros k. rewrite Commit_deletes, ipIndexKey_eq.
        destruct (decide (k = ipKey (IPAllocation.NetworkID a) (IPAllocation.IP a)))
          as [->|Hne].
        -- rewrite decide_True by (right; by left). by rewrite lookup_delete_eq.
        -- rewrite lookup_delete_ne by done. rewrite decide_False; [apply HI|].
           intros [H|[H|H%elem_of_nil]%elem_of_cons]%elem_of_cons; [| |done].
           ++ by destruct (ltac:(key_neq) : "index:ip:" +:+ k ≠ allocationKey id).
           ++ by apply ipIndex_inj in H.
    + destruct (DeleteAllocation_error id db) as (err & -> & _).
      { intros a. by rewrite HA, E. }
      unfold applyDeleteAllocation. by rewrite E.
  - unfold SaveAuditEntry, applySaveAudit. cbn [fst]. split.
    + intros id. cbn [allocations]. rewrite lookup_insert_ne by key_neq. apply HA.
    + intros k. cbn [allocationByIP]. rewrite lookup_insert_ne by key_neq. apply HI.
Qed.

Lemma inStep_new c0 n0 : inStep ∅ (newIPAMStateMachine c0 n0).
Proof.
  split.
  - apply sameNetworks_new.
  - split; intros; cbn; by rewrite !lookup_empty.
  - apply consistent_new.
  - intros nid id. cbn. rewrite lookup_empty. by intros ?%elem_of_nil.
  - apply typed_empty.
  - intros id n. cbn. by rewrite lookup_empty.
  - intros id a. cbn. by rewrite lookup_empty.
Qed.

Lemma inStep_step c db s :
  inStep db s → agreeable c s → inStep (pebbleMutate c db).1 (apply c s).
Proof.
  intros Hin [Hu Hk]. pose proof Hin as [HN HA Hcons Hex Ht Hnid Haid]. split.
  - by apply sameNetworks_step.
  - by apply sameAllocations_step.
  - by apply consistent_apply.
  - by apply exactLists_step.
  - by apply typed_mutate.
  - intros id n. rewrite networks_apply. destruct c as [n'| | | |]; cbn [networksAfter].
    + intros [[<- <-]|[_ H]]%lookup_insert_Some; [|by eapply Hnid].
      apply validUTF8_textual, Hu.
    + intros [_ H]%lookup_delete_Some. by eapply Hnid.
    + by apply Hnid.
    + by apply Hnid.
    + by apply Hnid.
  - intros id a [H|[-> ->]]%allocations_apply_cases; [by eapply Haid|].
    apply validUTF8_textual, Hu.
Qed.

Lemma inStep_run cs db s :
  inStep db s → agreeableLog cs s → inStep (pebbleRun cs db) (applyAll cs s).
Proof.
  revert db s. induction cs as [|c cs IH]; intros db s Hin Hlog; [done|].
  destruct Hlog as [Hc Hlog]. cbn [pebbleRun applyAll foldl].
  apply IH; [by apply inStep_step | done].
Qed.

End InStepRun.

Section Agreement.
Import PebbleStore.

Lemma inStep_point_lookups order db s :
  inStep db s →
  (∀ id n, GetNetwork id db = (Some n, None) ↔
           RaftStore.GetNetwork order id s = Returns (Some n, None)) ∧
  (∀ cidr n, GetNetworkByCIDR cidr db = (Some n, None) ↔
             RaftStore.GetNetworkByCIDR order cidr s = Returns (Some n, None)) ∧
  (∀ id a, GetAllocation id db = (Some a, None) ↔
           RaftStore.GetAllocation order id s = Returns (Some a, None)) ∧
  (∀ networkID ip a, GetAllocationByIP networkID ip db = (Some a, None) ↔
           RaftStore.GetAllocationByIP order networkID ip s = Returns (Some a, None)).
Proof.
  intros [[HN HC] [HA HI] _ _ _ _ _].
  assert (H1 : ∀ id n, GetNetwork id db = (Some n, None) ↔
                 RaftStore.GetNetwork order id s = Returns (Some n, None)).
  { intros id n. rewrite GetNetwork_Some, HN.
    unfold RaftStore.GetNetwork, RaftStore.executeQuery, Lookup.
    destruct (networks s !! id); cbn; split; congruence. }
  assert (H3 : ∀ id a, GetAllocation id db = (Some a, None) ↔
                 RaftStore.GetAllocation order id s = Returns (Some a, None)).
  { intros id a. rewrite GetAllocation_Some, HA.
    unfold RaftStore.GetAllocation, RaftStore.executeQuery, Lookup.
    destruct (allocations s !! id); cbn; split; congruence. }
  split_and!; [done | | done |].
  - intros cidr n. unfold GetNetworkByCIDR. rewrite HC.
    destruct (networkByCIDR s !! cidr) as [id|] eqn:E; cbn.
    + rewrite H1. unfold RaftStore.GetNetworkByCIDR, RaftStore.GetNetwork,
        RaftStore.executeQuery, Lookup. by rewrite E.
    + unfold RaftStore.GetNetworkByCIDR, RaftStore.executeQuery, Lookup. rewrite E.
      split; congruence.
  - intros networkID ip a. unfold GetAllocationByIP. rewrite ipIndexKey_eq, HI.
    destruct (allocationByIP s !! ipKey networkID ip) as [id|] eqn:E; cbn.
    + rewrite H3. unfold RaftStore.GetAllocationByIP, RaftStore.GetAllocation,
        RaftStore.executeQuery, Lookup. by rewrite E.
    + unfold RaftStore.GetAllocationByIP, RaftStore.executeQuery, Lookup. rewrite E.
      split; congruence.
Qed.

Lemma inStep_ListAllocations order db s nid :
  inStep db s →
  ∃ l1 l2, ListAllocations nid db = (l1, None) ∧
           RaftStore.ListAllocations order nid s = Returns (l2, None) ∧
           l1 ≡ₚ l2.
Proof.
  intros Hin. pose proof Hin as [_ _ [_ Hkey Hnd Hcomp] Hex Ht _ _].
  set (it := prefixIter prefixAllocation db).
  assert (Hall : ∀ k v, (k, v) ∈ it →
            ∃ a, unmarshalAllocation v = Some a ∧ k = allocationKey (IPAllocation.ID a)).
  { intros k v Hkv. destruct (typed_allocation_range _ _ _ Ht Hkv) as (a & -> & ->).
    by exists a. }
  eexists _, _. split.
  { unfold ListAllocations. fold it. rewrite decodeAll_ok; [done|].
    apply Forall_forall. intros [k v] Hkv. destruct (Hall k v Hkv) as (a & Ha & _).
    cbn. rewrite Ha. by eexists. }
  split; [apply ListAllocations_eq|].
  apply NoDup_Permutation.
  - apply NoDup_filter.
    apply (decoded_NoDup _ (λ a, allocationKey (IPAllocation.ID a))); [done|].
    apply NewIter_NoDup.
  - apply (NoDup_fmap_1 IPAllocation.ID). apply lookupAllocations_NoDup; [done|].
    destruct (allocationsByNet s !! nid) eqn:E; [by eapply Hnd | constructor].
  - intros a. unfold lookupAllocations.
    rewrite list_elem_of_filter, !list_elem_of_omap. split.
    + intros [Hnid ([k v] & Hkv & Hdec)]. cbn in Hdec.
      destruct v as [|a'| |]; try done. injection Hdec as ->.
      apply (inStep_scan db s _ _ Hin) in Hkv as [_ Hst].
      exists (IPAllocation.ID a). split; [|done]. rewrite <- Hnid. by apply Hcomp.
    + intros (aid & Haid & Hst). destruct (Hex _ _ Haid) as (a' & Hst' & Hnid).
      assert (a' = a) as -> by congruence. split; [done|].
      exists (allocationKey (IPAllocation.ID a), VAllocation a). split; [|done].
      apply (inStep_scan db s _ _ Hin). split; [done|]. by rewrite (Hkey _ _ Hst).
Qed.

Lemma inStep_ListNetworks order db s :
  inStep db s → go_range (networks s) order →
  ∃ l1 l2, ListNetworks db = (l1, None) ∧
           RaftStore.ListNetworks order s = Returns (l2, None) ∧
           l1 ≡ₚ l2.
Proof.
  intros [[HN _] _ [Hkey _ _ _] _ Ht Htx _] Horder.
  set (it := prefixIter prefixNetwork db).
  assert (Hall : ∀ k v, (k, v) ∈ it →
            ∃ n, unmarshalNetwork v = Some n ∧ k = networkKey (Network.ID n)).
  { intros k v Hkv. destruct (typed_network_range _ _ _ Ht Hkv) as (n & -> & ->).
    by exists n. }
  exists (omap (λ kv, unmarshalNetwork kv.2) it), (order.*2). split.
  { unfold ListNetworks. fold it. rewrite decodeAll_ok; [done|].
    apply Forall_forall. intros [k v] Hkv. destruct (Hall k v Hkv) as (n & Hn & _).
    cbn. rewrite Hn. by eexists. }
  split; [done|].
  assert (Hstored : ∀ id n, (id, n) ∈ order ↔ networks s !! id = Some n).
  { intros id n. by apply go_range_elem. }
  apply NoDup_Permutation.
  - apply (decoded_NoDup _ (λ n, networkKey (Network.ID n))); [done|].
    apply NewIter_NoDup.
  - apply NoDup_fmap_2_strong.
    + intros [id1 n1] [id2 n2] H1%Hstored H2%Hstored Heq. cbn in Heq. subst n2.
      by rewrite <- (Hkey _ _ H1), <- (Hkey _ _ H2).
    + apply (NoDup_fmap_1 fst). by eapply go_range_NoDup.
  - intros n. rewrite list_elem_of_omap, list_elem_of_fmap. split.
    + intros ([k v] & Hkv & Hdec). cbn in Hdec.
      destruct v as [n'| | |]; try done. injection Hdec as ->.
      destruct (typed_network_range _ _ _ Ht Hkv) as (n' & [= <-] & ->).
      apply elem_of_prefixIter in Hkv as [Hk _]. rewrite HN in Hk.
      exists (Network.ID n, n). split; [done|]. apply Hstored.
      destruct (networks s !! Network.ID n); by simplify_eq/=.
    + intros ([id n'] & -> & Hst%Hstored). cbn.
      exists (networkKey id, VNetwork n'). split; [|done].
      apply elem_of_prefixIter. split; [by rewrite HN, Hst|].
      apply inBounds_prefix. by eapply Htx.
Qed.

(** The results of a mutation on the two stores. *)
Lemma inStep_mutation_results c db s :
  inStep db s →
  (RaftStore.executeCommand c s).2 = None ∧
  match c with
  | deleteNetworkCmd id =>
      (pebbleMutate c db).2 =
        if decide (is_Some (networks s !! id)) then None else Some ErrNetworkNotFound
  | deleteAllocationCmd id =>
      (pebbleMutate c db).2 =
        if decide (is_Some (allocations s !! id)) then None else Some ErrIPNotAllocated
  | _ => (pebbleMutate c db).2 = None
  end.
Proof.
  intros [[HN _] [HA _] _ _ _ _ _]. split; [done|].
  destruct c as [n|id|a|id|e]; cbn [pebbleMutate]; try done.
  - unfold DeleteNetwork, GetNetwork. rewrite HN.
    destruct (networks s !! id) as [n|]; cbn.
    + by rewrite decide_True.
    + rewrite decide_False; [done|]. by intros [? ?].
  - unfold DeleteAllocation, GetAllocation. rewrite HA.
    destruct (allocations s !! id) as [a|]; cbn.
    + by rewrite decide_True.
    + rewrite decide_False; [done|]. by intros [? ?].
Qed.

End Agreement.

(** C1 (as amended). Along every log of mutations in which the strings of
    every saved record are valid UTF-8 and a re-save of a stored allocation
    keeps its network id, applied to both stores from empty: the four point
    lookups return a record on one store exactly when they return the same
    record on the other;
    [list_allocations] and [list_networks] return the same records up to
    order; every save, and every delete of a stored entity, succeeds on
    both stores, while a delete of an absent entity succeeds on the
    Raft-backed store and returns [network_not_found] or [ip_not_allocated]
    on the Pebble-backed store. *)
Theorem backends_agree (cs : list command) (c0 n0 : Z) order :
  agreeableLog cs (newIPAMStateMachine c0 n0) →
  let s := applyAll cs (newIPAMStateMachine c0 n0) in
  let db := pebbleRun cs ∅ in
  (∀ id n, PebbleStore.GetNetwork id db = (Some n, None) ↔
           RaftStore.GetNetwork order id s = Returns (Some n, None)) ∧
  (∀ cidr n, PebbleStore.GetNetworkByCIDR cidr db = (Some n, None) ↔
             RaftStore.GetNetworkByCIDR order cidr s = Returns (Some n, None)) ∧
  (∀ id a, PebbleStore.GetAllocation id db = (Some a, None) ↔
           RaftStore.GetAllocation order id s = Returns (Some a, None)) ∧
  (∀ networkID ip a, PebbleStore.GetAllocationByIP networkID ip db = (Some a, None) ↔
           RaftStore.GetAllocationByIP order networkID ip s = Returns (Some a, None)) ∧
  (∀ nid, ∃ l1 l2, PebbleStore.ListAllocations nid db = (l1, None) ∧
                   RaftStore.ListAllocations order nid s = Returns (l2, None) ∧
                   l1 ≡ₚ l2) ∧
  (go_range (networks s) order →
   ∃ l1 l2, PebbleStore.ListNetworks db = (l1, None) ∧
            RaftStore.ListNetworks order s = Returns (l2, None) ∧
            l1 ≡ₚ l2) ∧
  (∀ c, (RaftStore.executeCommand c s).2 = None ∧
        match c with
        | deleteNetworkCmd id =>
            (pebbleMutate c db).2 =
              if decide (is_Some (networks s !! id)) then None else Some ErrNetworkNotFound
        | deleteAllocationCmd id =>
            (pebbleMutate c db).2 =
              if decide (is_Some (allocations s !! id)) then None else Some ErrIPNotAllocated
        | _ => (pebbleMutate c db).2 = None
        end).
Proof.
  intros Hlog s db.
  assert (Hin : inStep db s) by (apply inStep_run; [apply inStep_new | done]).
  destruct (inStep_point_lookups order db s Hin) as (H1 & H2 & H3 & H4).
  split_and!; try done.
  - intros nid. by apply inStep_ListAllocations.
  - intros Horder. by apply inStep_ListNetworks.
  - intros c. by apply inStep_mutation_results.
Qed.

Lemma backends_agree_witness :
  let cs := [saveNetworkCmd net1; saveAllocationCmd alloc1; saveAllocationCmd alloc2;
             saveAllocationCmd alloc1_readdressed; deleteAllocationCmd "alloc2"] in
  agreeableLog cs fresh ∧
  (PebbleStore.GetAllocationByIP "net1" "10.0.0.11" (pebbleRun cs ∅)
     = (Some alloc1_readdressed, None) ↔
   RaftStore.GetAllocationByIP [] "net1" "10.0.0.11" (applyAll cs fresh)
     = Returns (Some alloc1_readdressed, None)) ∧
  ∃ l1 l2, PebbleStore.ListAllocations "net1" (pebbleRun cs ∅) = (l1, None) ∧
           RaftStore.ListAllocations [] "net1" (applyAll cs fresh) = Returns (l2, None) ∧
           l1 ≡ₚ l2.
Proof.
  intros cs.
  assert (Hlog : agreeableLog cs fresh).
  { unfold cs. cbn [agreeableLog]. unfold agreeable. cbn [keepsNetwork].
    split_and!; try done; try utf8_sample; intros a' Ha'; vm_compute in Ha';
      first [discriminate Ha' | injection Ha' as <-; reflexivity]. }
  split; [exact Hlog|].
  destruct (backends_agree cs 1 1 [] Hlog) as (_ & _ & _ & H4 & H5 & _).
  split; [apply H4 | apply H5].
Defined.

(** C1, counterexample.  After the same log on both stores, which saves
    [net1], deleting the absent network "net2" returns [network_not_found]
    on the Pebble-backed store and success on the Raft-backed store.  The
    two stores differ further, outside the amended statement: after
    [alloc2] and then [alloc1] are saved, the Pebble-backed store lists
    them in key order and the Raft-backed store in the order of saving;
    after [alloc1] is saved under "net1" and again under "net2", the
    Raft-backed store still lists it under "net1"; an allocation whose id
    is the byte [0xff] lies at the exclusive upper bound of the Pebble scan
    and is not listed there. *)
Lemma backends_differ_on_absent_delete :
  ((PebbleStore.DeleteNetwork "net2" (pebbleRun [saveNetworkCmd net1] ∅)).2
     = Some ErrNetworkNotFound ∧
   (RaftStore.DeleteNetwork "net2" (applyAll [saveNetworkCmd net1] fresh)).2 = None) ∧
  (let cs := [saveAllocationCmd alloc2; saveAllocationCmd alloc1] in
   PebbleStore.ListAllocations "net1" (pebbleRun cs ∅) = ([alloc1; alloc2], None) ∧
   RaftStore.ListAllocations [] "net1" (applyAll cs fresh)
     = Returns ([alloc2; alloc1], None)) ∧
  (let cs := [saveAllocationCmd alloc1; saveAllocationCmd alloc1_moved] in
   PebbleStore.ListAllocations "net1" (pebbleRun cs ∅) = ([], None) ∧
   RaftStore.ListAllocations [] "net1" (applyAll cs fresh)
     = Returns ([alloc1_moved], None)) ∧
  (let cs := [saveAllocationCmd allocFF] in
   PebbleStore.ListAllocations "net1" (pebbleRun cs ∅) = ([], None) ∧
   RaftStore.ListAllocations [] "net1" (applyAll cs fresh) = Returns ([allocFF], None)).
Proof. vm_compute. done. Qed.

(** * Further properties of the stores *)

(** ** Failed commands *)

(** X1. [Update] changes the state only when it succeeds: when it returns
    an error (empty entry, unknown command type, undecodable command) the
    state is the one before, the result value is 0 and the result data is
    the text of the error; when it returns no error the value is 1, the
    data is nil, and the state is the one [applyEntry] reaches on the
    decoded command of the type named by the first byte. *)
Theorem update_failure_keeps_state (g : gobDecoder) (s : ipamStateMachine)
    (data : list Byte.byte) :
  match Update g s data with
  | (s', (r, Some err)) =>
      s' = s ∧ Value r = 0%Z ∧
      Data r = Some (String.list_byte_of_string (errorString err))
  | (s', (r, None)) =>
      Value r = 1%Z ∧ Data r = None ∧
      ∃ b cmdData c, data = b :: cmdData ∧ Byte.to_N b = commandType c ∧
                     decodesCommand g cmdData c ∧ s' = apply c s
  end.
Proof.
  unfold Update, applyEntry. destruct data as [|b cmdData]; [by split_and!|].
  destruct (Byte.to_N b) as [|[[[|[]|]|[[]|[]|]|]|[[|[]|]|[]|]|]] eqn:Hb;
    try (cbn; by split_and!);
    match goal with
    | |- context [withDecoded ?d ?mk s] =>
        unfold withDecoded; destruct d as [x|] eqn:Hd; cbn; [|by split_and!];
        split_and!; try done; by exists b, cmdData, (mk x)
    end.
Qed.

(** ** Failed queries *)

(** X2. [Lookup] on the bytes of a query returns a value only without an
    error, and then it is the answer to the decoded query of the type that
    the first byte names; with an error (empty query, unknown query type,
    undecodable query) the value is the untyped nil.  It panics exactly
    on a decoded audit query whose limit [make] refuses as a capacity: a
    negative limit, or one above [maxSliceCap]. *)
Theorem lookup_bytes_failures (g : gobDecoder) (order : list (string * Network.t))
    (s : ipamStateMachine) (data : list Byte.byte) :
  match LookupBytes g order s data with
  | Returns (v, Some err) => v = INil
  | Returns (v, None) =>
      ∃ b queryData q, data = b :: queryData ∧ Byte.to_N b = queryType q ∧
                       decodesQuery g queryData q ∧ Lookup order s q = Returns (v, None)
  | Panics _ =>
      ∃ b queryData limit, data = b :: queryData ∧ Byte.to_N b = 6%N ∧
                           decodeListAuditQuery g queryData = Some limit ∧
                           (limit < 0 ∨ maxSliceCap < limit)%Z
  end ∧
  ∀ b queryData limit,
    data = b :: queryData → Byte.to_N b = 6%N →
    decodeListAuditQuery g queryData = Some limit →
    (limit < 0 ∨ maxSliceCap < limit)%Z →
    LookupBytes g order s data = Panics "makeslice: cap out of range".
Proof.
  split.
  2:{ intros b queryData limit -> Hb Hd Hl. unfold LookupBytes. rewrite Hb, Hd.
      cbn [lookupDecoded Lookup]. by rewrite decide_True. }
  unfold LookupBytes. destruct data as [|b queryData]; [done|].
  assert (Hok : ∀ q, Byte.to_N b = queryType q → decodesQuery g queryData q →
    match Lookup order s q with
    | Returns (v, Some err) => v = INil
    | Returns (v, None) =>
        ∃ b' queryData' q', b :: queryData = b' :: queryData' ∧
          Byte.to_N b' = queryType q' ∧ decodesQuery g queryData' q' ∧
          Lookup order s q' = Returns (v, None)
    | Panics _ =>
        ∃ b' queryData' limit, b :: queryData = b' :: queryData' ∧ Byte.to_N b' = 6%N ∧
          decodeListAuditQuery g queryData' = Some limit ∧
          (limit < 0 ∨ maxSliceCap < limit)%Z
    end).
  { intros q Hb Hd. destruct (Lookup order s q) as [[v [err|]]|msg] eqn:E.
    - destruct q; cbn in E; repeat case_match; by simplify_eq.
    - by exists b, queryData, q.
    - destruct q; cbn in E; repeat case_match; simplify_eq.
      by exists b, queryData, Limit. }
  destruct (Byte.to_N b) as [|[[[|[]|]|[[]|[]|]|]|[[|[]|]|[]|]|]] eqn:Hb; try done;
    try (apply (Hok listNetworksQuery); done);
    match goal with
    | |- context [lookupDecoded ?d ?mk order s] =>
        unfold lookupDecoded; destruct d as [x|] eqn:Hd; [|done];
        apply (Hok (mk x)); [done|]; try done; by destruct x
    end.
Qed.

(** ** A saved record is found *)

Section SavedIsFound.
Import PebbleStore.

Lemma decoded_range_ok {A} (dec : value → option A) (key : A → string) pfx db :
  (∀ k v, (k, v) ∈ prefixIter pfx db → ∃ x, dec v = Some x ∧ k = key x) →
  decodeAll dec (prefixIter pfx db)
  = (omap (λ kv, dec kv.2) (prefixIter pfx db), None).
Proof.
  intros Hall. apply decodeAll_ok, Forall_forall. intros [k v] Hkv.
  destruct (Hall k v Hkv) as (x & Hx & _). cbn. rewrite Hx. by eexists.
Qed.

Lemma ListNetworks_typed db :
  typed db →
  ListNetworks db = (omap (λ kv, unmarshalNetwork kv.2) (prefixIter prefixNetwork db), None).
Proof.
  intros Ht. apply (decoded_range_ok _ (λ n, networkKey (Network.ID n))).
  intros k v Hkv. destruct (typed_network_range _ _ _ Ht Hkv) as (n & -> & ->). by exists n.
Qed.

Lemma allocations_typed db :
  typed db →
  decodeAll unmarshalAllocation (prefixIter prefixAllocation db)
  = (omap (λ kv, unmarshalAllocation kv.2) (prefixIter prefixAllocation db), None).
Proof.
  intros Ht. apply (decoded_range_ok _ (λ a, allocationKey (IPAllocation.ID a))).
  intros k v Hkv. destruct (typed_allocation_range _ _ _ Ht Hkv) as (a & -> & ->). by exists a.
Qed.

Lemma elem_of_ListNetworks db n :
  typed db →
  n ∈ (ListNetworks db).1 ↔
  db !! networkKey (Network.ID n) = Some (VNetwork n) ∧ textual (Network.ID n).
Proof.
  intros Ht. rewrite (ListNetworks_typed _ Ht). cbn [fst].
  rewrite list_elem_of_omap. split.
  - intros ([k v] & Hkv & Hdec). cbn in Hdec.
    destruct (typed_network_range _ _ _ Ht Hkv) as (n' & -> & ->).
    injection Hdec as ->. apply elem_of_prefixIter in Hkv as [Hk Hb].
    split; [done|]. by apply inBounds_prefix in Hb.
  - intros [Hk Htx]. exists (networkKey (Network.ID n), VNetwork n). split; [|done].
    apply elem_of_prefixIter. split; [done|]. by apply inBounds_prefix.
Qed.

Lemma elem_of_ListAllocations db nid a :
  typed db →
  a ∈ (ListAllocations nid db).1 ↔
  db !! allocationKey (IPAllocation.ID a) = Some (VAllocation a) ∧
  textual (IPAllocation.ID a) ∧ IPAllocation.NetworkID a = nid.
Proof.
  intros Ht. unfold ListAllocations. rewrite (allocations_typed _ Ht). cbn [fst].
  rewrite list_elem_of_filter, list_elem_of_omap. split.
  - intros [Hnid ([k v] & Hkv & Hdec)]. cbn in Hdec.
    destruct (typed_allocation_range _ _ _ Ht Hkv) as (a' & -> & ->).
    injection Hdec as ->. apply elem_of_prefixIter in Hkv as [Hk Hb].
    split; [done|]. split; [|done]. by apply inBounds_prefix in Hb.
  - intros (Hk & Htx & Hnid). split; [done|].
    exists (allocationKey (IPAllocation.ID a), VAllocation a). split; [|done].
    apply elem_of_prefixIter. split; [done|]. by apply inBounds_prefix.
Qed.

Lemma ListAllocations_typed db nid :
  typed db → ListAllocations nid db = ((ListAllocations nid db).1, None).
Proof. intros Ht. unfold ListAllocations. by rewrite (allocations_typed _ Ht). Qed.

Lemma SaveNetwork_lookup n db k :
  (SaveNetwork n db).1 !! k =
    if decide (k = cidrIndexKey (Network.CIDR n)) then Some (VRaw (Network.ID n))
    else if decide (k = networkKey (Network.ID n)) then Some (VNetwork n)
    else db !! k.
Proof.
  unfold SaveNetwork, Commit. cbn [fst foldl applyOp].
  case_decide as H1; [subst; apply lookup_insert_eq|].
  rewrite lookup_insert_ne by done.
  case_decide as H2; [subst; apply lookup_insert_eq|].
  by rewrite lookup_insert_ne.
Qed.

Lemma SaveAllocation_lookup a db k :
  (SaveAllocation a db).1 !! k =
    if decide (k = ipIndexKey (IPAllocation.NetworkID a) (IPAllocation.IP a))
    then Some (VRaw (IPAllocation.ID a))
    else if decide (k = allocationKey (IPAllocation.ID a)) then Some (VAllocation a)
    else db !! k.
Proof.
  unfold SaveAllocation, Commit. cbn [fst foldl applyOp].
  case_decide as H1; [subst; apply lookup_insert_eq|].
  rewrite lookup_insert_ne by done.
  case_decide as H2; [subst; apply lookup_insert_eq|].
  by rewrite lookup_insert_ne.
Qed.

End SavedIsFound.

(** X3. On the Raft-backed store a saved network is found: whatever the
    state before, after [SaveNetwork(n)] the call returns no error,
    [GetNetwork(n.ID)] and [GetNetworkByCIDR(n.CIDR)] return [n], and
    [ListNetworks] lists it under every enumeration of the map. *)
Theorem raft_saved_network_is_found order (n : Network.t) (s : ipamStateMachine) :
  let s' := (RaftStore.SaveNetwork n s).1 in
  (RaftStore.SaveNetwork n s).2 = None ∧
  RaftStore.GetNetwork order (Network.ID n) s' = Returns (Some n, None) ∧
  RaftStore.GetNetworkByCIDR order (Network.CIDR n) s' = Returns (Some n, None) ∧
  ∀ order', go_range (networks s') order' →
    ∃ l, RaftStore.ListNetworks order' s' = Returns (l, None) ∧ n ∈ l.
Proof.
  cbn zeta. split_and!.
  - done.
  - unfold RaftStore.GetNetwork, RaftStore.executeQuery, Lookup. cbn.
    by rewrite lookup_insert_eq.
  - unfold RaftStore.GetNetworkByCIDR, RaftStore.executeQuery, Lookup. cbn.
    by rewrite !lookup_insert_eq.
  - intros order' Hr. eexists. split; [done|].
    apply list_elem_of_fmap. exists (Network.ID n, n). split; [done|].
    apply (go_range_elem _ _ _ _ Hr). cbn. apply lookup_insert_eq.
Qed.

(** X4. On the Pebble-backed store a saved network whose strings are
    valid UTF-8 is found: after [SaveNetwork(n)] the call returns no error
    and [GetNetwork(n.ID)] and [GetNetworkByCIDR(n.CIDR)] return [n]; on a
    well-formed database [ListNetworks] succeeds and lists [n]. *)
Theorem pebble_saved_network_is_found (n : Network.t) (db : gmap string PebbleStore.value) :
  utf8Network n →
  let db' := (PebbleStore.SaveNetwork n db).1 in
  (PebbleStore.SaveNetwork n db).2 = None ∧
  PebbleStore.GetNetwork (Network.ID n) db' = (Some n, None) ∧
  PebbleStore.GetNetworkByCIDR (Network.CIDR n) db' = (Some n, None) ∧
  (typed db → ∃ l, PebbleStore.ListNetworks db' = (l, None) ∧ n ∈ l).
Proof.
  intros Hu. cbn zeta.
  assert (Hn : PebbleStore.GetNetwork (Network.ID n) (PebbleStore.SaveNetwork n db).1
               = (Some n, None)).
  { apply GetNetwork_Some. rewrite SaveNetwork_lookup.
    rewrite decide_False by key_neq. by rewrite decide_True. }
  split_and!; [done | done | |].
  - unfold PebbleStore.GetNetworkByCIDR. rewrite SaveNetwork_lookup.
    by rewrite decide_True.
  - intros Ht.
    assert (Ht' : typed (PebbleStore.SaveNetwork n db).1)
      by apply (typed_mutate (saveNetworkCmd n) db Ht).
    exists (PebbleStore.ListNetworks (PebbleStore.SaveNetwork n db).1).1. split.
    { by rewrite (ListNetworks_typed _ Ht'). }
    rewrite (elem_of_ListNetworks _ _ Ht'). apply GetNetwork_Some in Hn.
    split; [done|]. apply validUTF8_textual, Hu.
Qed.

Lemma pebble_saved_network_is_found_witness :
  let db := pebbleRun [saveNetworkCmd net2; saveAllocationCmd alloc1] ∅ in
  utf8Network net1 ∧
  PebbleStore.GetNetworkByCIDR "10.0.0.0/24" (PebbleStore.SaveNetwork net1 db).1
    = (Some net1, None) ∧
  ∃ l, PebbleStore.ListNetworks (PebbleStore.SaveNetwork net1 db).1 = (l, None) ∧ net1 ∈ l.
Proof.
  intros db.
  assert (Hu : utf8Network net1) by utf8_sample.
  split; [exact Hu|].
  destruct (pebble_saved_network_is_found net1 db Hu) as (_ & _ & Hc & Hl).
  split; [exact Hc|]. apply Hl, pebbleReachable_typed, pebbleReachable_run.
Defined.

(** X5. On the Raft-backed store a saved allocation is found: whatever the
    state before, after [SaveAllocation(a)] the call returns no error,
    [GetAllocation(a.ID)] and [GetAllocationByIP(a.NetworkID, a.IP)] return
    [a], and [ListAllocations(a.NetworkID)] lists it. *)
Theorem raft_saved_allocation_is_found order (a : IPAllocation.t) (s : ipamStateMachine) :
  let s' := (RaftStore.SaveAllocation a s).1 in
  (RaftStore.SaveAllocation a s).2 = None ∧
  RaftStore.GetAllocation order (IPAllocation.ID a) s' = Returns (Some a, None) ∧
  RaftStore.GetAllocationByIP order (IPAllocation.NetworkID a) (IPAllocation.IP a) s'
    = Returns (Some a, None) ∧
  ∃ l, RaftStore.ListAllocations order (IPAllocation.NetworkID a) s' = Returns (l, None) ∧
       a ∈ l.
Proof.
  cbn zeta. split_and!.
  - done.
  - unfold RaftStore.GetAllocation, RaftStore.executeQuery, Lookup. cbn.
    by rewrite lookup_insert_eq.
  - unfold RaftStore.GetAllocationByIP, RaftStore.executeQuery, Lookup. cbn.
    by rewrite !lookup_insert_eq.
  - eexists. split; [apply ListAllocations_eq|].
    unfold lookupAllocations. apply list_elem_of_omap. exists (IPAllocation.ID a).
    unfold RaftStore.SaveAllocation, RaftStore.executeCommand. cbn [fst apply].
    split; [|cbn; apply lookup_insert_eq].
    rewrite saveAllocation_byNet, decide_True by done. cbn.
    destruct (found _ _) eqn:Hf; [by apply found_spec|].
    apply elem_of_app. right. by left.
Qed.

(** X6. On the Pebble-backed store a saved allocation whose strings are
    valid UTF-8 is found: after [SaveAllocation(a)] the call returns no
    error and [GetAllocation(a.ID)] and
    [GetAllocationByIP(a.NetworkID, a.IP)] return [a]; on a well-formed
    database [ListAllocations(a.NetworkID)] succeeds and lists [a]. *)
Theorem pebble_saved_allocation_is_found (a : IPAllocation.t)
    (db : gmap string PebbleStore.value) :
  utf8Allocation a →
  let db' := (PebbleStore.SaveAllocation a db).1 in
  (PebbleStore.SaveAllocation a db).2 = None ∧
  PebbleStore.GetAllocation (IPAllocation.ID a) db' = (Some a, None) ∧
  PebbleStore.GetAllocationByIP (IPAllocation.NetworkID a) (IPAllocation.IP a) db'
    = (Some a, None) ∧
  (typed db →
   ∃ l, PebbleStore.ListAllocations (IPAllocation.NetworkID a) db' = (l, None) ∧ a ∈ l).
Proof.
  intros Hu. cbn zeta.
  assert (Ha : PebbleStore.GetAllocation (IPAllocation.ID a)
                 (PebbleStore.SaveAllocation a db).1 = (Some a, None)).
  { apply GetAllocation_Some. rewrite SaveAllocation_lookup.
    rewrite decide_False by key_neq. by rewrite decide_True. }
  split_and!; [done | done | |].
  - unfold PebbleStore.GetAllocationByIP. rewrite SaveAllocation_lookup.
    by rewrite decide_True.
  - intros Ht.
    assert (Ht' : typed (PebbleStore.SaveAllocation a db).1)
      by apply (typed_mutate (saveAllocationCmd a) db Ht).
    exists (PebbleStore.ListAllocations (IPAllocation.NetworkID a)
              (PebbleStore.SaveAllocation a db).1).1. split.
    { unfold PebbleStore.ListAllocations. by rewrite (allocations_typed _ Ht'). }
    rewrite (elem_of_ListAllocations _ _ _ Ht'). apply GetAllocation_Some in Ha.
    split; [done|]. split; [|done]. apply validUTF8_textual, Hu.
Qed.

Lemma pebble_saved_allocation_is_found_witness :
  let db := pebbleRun [saveNetworkCmd net1; saveAllocationCmd alloc2] ∅ in
  utf8Allocation alloc1 ∧
  PebbleStore.GetAllocationByIP "net1" "10.0.0.10" (PebbleStore.SaveAllocation alloc1 db).1
    = (Some alloc1, None) ∧
  ∃ l, PebbleStore.ListAllocations "net1" (PebbleStore.SaveAllocation alloc1 db).1 = (l, None) ∧
       alloc1 ∈ l.
Proof.
  intros db.
  assert (Hu : utf8Allocation alloc1) by utf8_sample.
  split; [exact Hu|].
  destruct (pebble_saved_allocation_is_found alloc1 db Hu) as (_ & _ & Hc & Hl).
  split; [exact Hc|]. apply Hl, pebbleReachable_typed, pebbleReachable_run.
Defined.

(** ** Deleting a stored allocation *)

Section DeletePresent.
Import PebbleStore.

Lemma lookupAllocations_delete (A : gmap string IPAllocation.t) id ids :
  (∀ i a, A !! i = Some a → IPAllocation.ID a = i) →
  lookupAllocations (delete id A) ids
  = filter (λ a, IPAllocation.ID a ≠ id) (lookupAllocations A ids).
Proof.
  intros Hkey. unfold lookupAllocations. induction ids as [|x ids IH]; [done|].
  cbn [omap list_omap]. destruct (decide (x = id)) as [->|Hne].
  - rewrite lookup_delete_eq. destruct (A !! id) as [a|] eqn:E; [|done].
    rewrite filter_cons, decide_False; [done|]. rewrite (Hkey _ _ E). by intros [].
  - rewrite lookup_delete_ne by done. destruct (A !! x) as [a|] eqn:E; [|done].
    rewrite filter_cons, decide_True by (by rewrite (Hkey _ _ E)). by rewrite IH.
Qed.

Lemma lookupAllocations_delete_filter (A : gmap string IPAllocation.t) id ids :
  lookupAllocations (delete id A) (filter (λ x, x ≠ id) ids)
  = lookupAllocations (delete id A) ids.
Proof.
  unfold lookupAllocations. induction ids as [|x ids IH]; [done|].
  rewrite filter_cons. cbn [omap list_omap]. destruct (decide (x ≠ id)) as [Hne|Heq].
  - cbn [omap list_omap]. by rewrite IH.
  - apply dec_stable in Heq as ->. by rewrite lookup_delete_eq.
Qed.

Lemma DeleteAllocation_lookup id db a k :
  GetAllocation id db = (Some a, None) →
  (DeleteAllocation id db).1 !! k =
    if decide (k = allocationKey id ∨
               k = ipIndexKey (IPAllocation.NetworkID a) (IPAllocation.IP a))
    then None else db !! k.
Proof.
  intros Ha%GetAllocation_Some. rewrite (DeleteAllocation_present _ _ _ Ha). cbn [fst].
  rewrite Commit_deletes. destruct (decide (k = allocationKey id ∨ _)) as [H|H].
  - rewrite decide_True; [done|]. destruct H as [->| ->]; [by left | right; by left].
  - rewrite decide_False; [done|].
    intros [?|[?|[]%elem_of_nil]%elem_of_cons]%elem_of_cons; tauto.
Qed.

End DeletePresent.

(** X7. Deleting a stored allocation on the Raft-backed store, in a
    reachable state: the call returns no error; the record is gone and
    [GetAllocationByIP] on its network and address returns
    [ip_not_allocated]; every other allocation and every network is read
    as before; and every [ListAllocations] returns what it returned before
    without the deleted allocation, the others in their earlier order. *)
Theorem raft_delete_stored_allocation order (s : ipamStateMachine) (id : string)
    (a : IPAllocation.t) :
  reachable s → allocations s !! id = Some a →
  let s' := (RaftStore.DeleteAllocation id s).1 in
  (RaftStore.DeleteAllocation id s).2 = None ∧
  allocations s' !! id = None ∧
  RaftStore.GetAllocationByIP order (IPAllocation.NetworkID a) (IPAllocation.IP a) s'
    = Returns (None, Some ErrIPNotAllocated) ∧
  (∀ id', id' ≠ id →
     RaftStore.GetAllocation order id' s' = RaftStore.GetAllocation order id' s) ∧
  (∀ id', RaftStore.GetNetwork order id' s' = RaftStore.GetNetwork order id' s) ∧
  ∀ nid l, RaftStore.ListAllocations order nid s = Returns (l, None) →
    RaftStore.ListAllocations order nid s'
    = Returns (filter (λ x, IPAllocation.ID x ≠ id) l, None).
Proof.
  intros Hs Ha. pose proof (reachable_consistent s Hs) as [_ Hkey _ _].
  cbn zeta. unfold RaftStore.DeleteAllocation, RaftStore.executeCommand. cbn [fst snd apply].
  assert (Hal : allocations (applyDeleteAllocation id s) = delete id (allocations s)).
  { unfold applyDeleteAllocation. by rewrite Ha. }
  split_and!.
  - done.
  - rewrite Hal. apply lookup_delete_eq.
  - unfold RaftStore.GetAllocationByIP, RaftStore.executeQuery, Lookup.
    unfold applyDeleteAllocation at 1. rewrite Ha. cbn [allocationByIP].
    by rewrite lookup_delete_eq.
  - intros id' Hne. unfold RaftStore.GetAllocation, RaftStore.executeQuery, Lookup.
    by rewrite Hal, lookup_delete_ne.
  - intros id'. unfold RaftStore.GetNetwork, RaftStore.executeQuery, Lookup.
    unfold applyDeleteAllocation. by rewrite Ha.
  - intros nid l. rewrite !ListAllocations_eq, Hal. intros [= <-]. f_equal. f_equal.
    rewrite <- (lookupAllocations_delete _ _ _ Hkey).
    unfold applyDeleteAllocation. rewrite Ha. cbn [allocationsByNet].
    destruct (allocationsByNet s !! IPAllocation.NetworkID a) as [ids|] eqn:E; [|done].
    destruct (decide (nid = IPAllocation.NetworkID a)) as [->|Hne].
    + rewrite lookup_insert_eq, E. cbn [default]. apply lookupAllocations_delete_filter.
    + by rewrite lookup_insert_ne.
Qed.

Lemma raft_delete_stored_allocation_witness :
  let s := applyAll [saveAllocationCmd alloc1; saveAllocationCmd alloc2] fresh in
  (reachable s ∧ allocations s !! "alloc1" = Some alloc1) ∧
  RaftStore.ListAllocations [] "net1" s = Returns ([alloc1; alloc2], None) ∧
  RaftStore.ListAllocations [] "net1" (RaftStore.DeleteAllocation "alloc1" s).1
    = Returns ([alloc2], None).
Proof.
  intros s.
  assert (Hs : reachable s) by (apply reachable_applyAll; constructor).
  assert (Ha : allocations s !! "alloc1" = Some alloc1) by (vm_compute; reflexivity).
  assert (Hl : RaftStore.ListAllocations [] "net1" s = Returns ([alloc1; alloc2], None))
    by (vm_compute; reflexivity).
  split; [exact (conj Hs Ha)|]. split; [exact Hl|].
  destruct (raft_delete_stored_allocation [] s "alloc1" alloc1 Hs Ha)
    as (_ & _ & _ & _ & _ & H).
  exact (H "net1" [alloc1; alloc2] Hl).
Defined.

(** X8. Deleting a stored allocation on the Pebble-backed store: the call
    returns no error; afterwards [GetAllocation(id)] and [GetAllocationByIP]
    on its network and address return [ip_not_allocated]; every other
    allocation and every network is read as before; and on a well-formed
    database [ListAllocations] lists what it listed before, without the
    deleted allocation. *)
Theorem pebble_delete_stored_allocation (db : gmap string PebbleStore.value) (id : string)
    (a : IPAllocation.t) :
  PebbleStore.GetAllocation id db = (Some a, None) →
  let db' := (PebbleStore.DeleteAllocation id db).1 in
  (PebbleStore.DeleteAllocation id db).2 = None ∧
  PebbleStore.GetAllocation id db' = (None, Some ErrIPNotAllocated) ∧
  PebbleStore.GetAllocationByIP (IPAllocation.NetworkID a) (IPAllocation.IP a) db'
    = (None, Some ErrIPNotAllocated) ∧
  (∀ id', id' ≠ id → PebbleStore.GetAllocation id' db' = PebbleStore.GetAllocation id' db) ∧
  (∀ id', PebbleStore.GetNetwork id' db' = PebbleStore.GetNetwork id' db) ∧
  (typed db → ∀ nid x,
     x ∈ (PebbleStore.ListAllocations nid db').1 ↔
     x ∈ (PebbleStore.ListAllocations nid db).1 ∧ IPAllocation.ID x ≠ id).
Proof.
  intros Ha. cbn zeta.
  pose proof (DeleteAllocation_lookup id db a) as Hlook.
  split_and!.
  - apply GetAllocation_Some in Ha. by rewrite (DeleteAllocation_present _ _ _ Ha).
  - unfold PebbleStore.GetAllocation at 1. rewrite (Hlook _ Ha), decide_True; [done|by left].
  - unfold PebbleStore.GetAllocationByIP. rewrite (Hlook _ Ha), decide_True; [done|by right].
  - intros id' Hne. unfold PebbleStore.GetAllocation. rewrite (Hlook _ Ha), decide_False; [done|].
    intros [H%allocationKey_inj|H]; [done|].
    by destruct (ltac:(key_neq) : PebbleStore.allocationKey id'
      ≠ PebbleStore.ipIndexKey (IPAllocation.NetworkID a) (IPAllocation.IP a)).
  - intros id'. unfold PebbleStore.GetNetwork. rewrite (Hlook _ Ha), decide_False; [done|].
    intros [H|H].
    + by destruct (ltac:(key_neq) :
        PebbleStore.networkKey id' ≠ PebbleStore.allocationKey id).
    + by destruct (ltac:(key_neq) : PebbleStore.networkKey id'
        ≠ PebbleStore.ipIndexKey (IPAllocation.NetworkID a) (IPAllocation.IP a)).
  - intros Ht nid x.
    assert (Ht' : typed (PebbleStore.DeleteAllocation id db).1)
      by apply (typed_mutate (deleteAllocationCmd id) db Ht).
    rewrite (elem_of_ListAllocations _ _ _ Ht'), (elem_of_ListAllocations _ _ _ Ht).
    rewrite (Hlook _ Ha). case_decide as Hk.
    + split; [by intros [? _]|]. intros [_ Hne].
      destruct Hk as [H%allocationKey_inj|H]; [done|].
      by destruct (ltac:(key_neq) : PebbleStore.allocationKey (IPAllocation.ID x)
        ≠ PebbleStore.ipIndexKey (IPAllocation.NetworkID a) (IPAllocation.IP a)).
    + split; [|tauto]. intros H. split; [done|]. intros Heq. apply Hk. left. by rewrite Heq.
Qed.

Lemma pebble_delete_stored_allocation_witness :
  let db := pebbleRun [saveAllocationCmd alloc1; saveAllocationCmd alloc2] ∅ in
  PebbleStore.GetAllocation "alloc1" db = (Some alloc1, None) ∧
  PebbleStore.GetAllocation "alloc1" (PebbleStore.DeleteAllocation "alloc1" db).1
    = (None, Some ErrIPNotAllocated) ∧
  PebbleStore.GetAllocation "alloc2" (PebbleStore.DeleteAllocation "alloc1" db).1
    = (Some alloc2, None).
Proof.
  intros db.
  assert (Ha : PebbleStore.GetAllocation "alloc1" db = (Some alloc1, None))
    by (vm_compute; reflexivity).
  split; [exact Ha|].
  destruct (pebble_delete_stored_allocation db "alloc1" alloc1 Ha) as (_ & H1 & _ & H2 & _).
  split; [exact H1|]. rewrite (H2 "alloc2") by discriminate. vm_compute. reflexivity.
Defined.

(** ** What a network delete leaves alone *)

(** X9. On the Raft-backed store, in a state whose per-network lists hold
    only stored allocations of their network, [DeleteNetwork(id)] touches
    nothing outside the network: every other network, every allocation of
    another network and the audit log are as before, and [ListAllocations]
    of every other network returns what it returned before. *)
Theorem raft_delete_network_spares_others order (s : ipamStateMachine) (id : string) :
  exactLists s →
  let s' := (RaftStore.DeleteNetwork id s).1 in
  (∀ id', id' ≠ id → networks s' !! id' = networks s !! id') ∧
  (∀ aid a, allocations s !! aid = Some a → IPAllocation.NetworkID a ≠ id →
     allocations s' !! aid = Some a) ∧
  (∀ nid, nid ≠ id →
     RaftStore.ListAllocations order nid s' = RaftStore.ListAllocations order nid s) ∧
  audit s' = audit s.
Proof.
  intros Hex. cbn zeta. unfold RaftStore.DeleteNetwork, RaftStore.executeCommand.
  cbn [fst apply]. destruct (networks s !! id) as [n|] eqn:Hn.
  2:{ unfold applyDeleteNetwork. by rewrite Hn. }
  rewrite (deleteNetwork_present _ _ _ Hn). cbn zeta.
  assert (Hkeep : ∀ aid a, allocations s !! aid = Some a → IPAllocation.NetworkID a ≠ id →
    (foldl cascadeStep (allocations s, allocationByIP s)
       (default [] (allocationsByNet s !! id))).1 !! aid = Some a).
  { intros aid a Ha Hne. rewrite cascade_allocations, decide_False; [done|].
    intros Hin. destruct (Hex _ _ Hin) as (a' & Ha' & Hnid). congruence. }
  split_and!.
  - intros id' Hne. cbn [networks]. by rewrite lookup_delete_ne.
  - exact Hkeep.
  - intros nid Hne. rewrite !ListAllocations_eq. cbn [allocations allocationsByNet].
    rewrite lookup_delete_ne by done. f_equal. f_equal.
    pose proof (Hex nid) as Hnid. unfold lookupAllocations.
    induction (default [] (allocationsByNet s !! nid)) as [|x ids IH]; [done|].
    cbn [omap list_omap]. rewrite IH by (intros i Hi; apply Hnid; by right).
    destruct (Hnid x) as (a & Ha & Hn'); [by left|].
    by rewrite Ha, (Hkeep x a Ha) by congruence.
  - done.
Qed.

Lemma raft_delete_network_spares_others_witness :
  let s := applyAll [saveNetworkCmd net1; saveAllocationCmd alloc1;
                     saveAllocationCmd alloc1_moved] fresh in
  let t := applyAll [saveNetworkCmd net1; saveAllocationCmd alloc1] fresh in
  exactLists t ∧
  allocations (RaftStore.DeleteNetwork "net2" t).1 !! "alloc1" = Some alloc1 ∧
  (¬ exactLists s ∧
   allocations s !! "alloc1" = Some alloc1_moved ∧
   allocations (RaftStore.DeleteNetwork "net1" s).1 !! "alloc1" = None).
Proof.
  intros s t.
  assert (Ht : exactLists t).
  { apply indexed_run; [apply indexed_new|].
    cbn [disciplinedLog disciplined]. unfold saveRespectsCIDR, saveRespectsIP.
    split_and!; try done. }
  split; [exact Ht|].
  destruct (raft_delete_network_spares_others [] t "net2" Ht) as (_ & H & _).
  split; [apply H; [vm_compute; reflexivity | discriminate]|].
  split_and!; [|vm_compute; reflexivity..].
  intros Hs. destruct (Hs "net1" "alloc1") as (a & Ha & Hn); [vm_compute; by left|].
  vm_compute in Ha. by simplify_eq.
Defined.

(** X10. On the Pebble-backed store [DeleteNetwork(id)] touches nothing
    outside the network, whatever the database holds: every other network,
    every allocation record that names another network and every audit
    entry are read as before, and on a well-formed database
    [ListAllocations] of every other network lists what it listed before. *)
Theorem pebble_delete_network_spares_others (db : gmap string PebbleStore.value)
    (id : string) :
  let db' := (PebbleStore.DeleteNetwork id db).1 in
  (∀ id', id' ≠ id → PebbleStore.GetNetwork id' db' = PebbleStore.GetNetwork id' db) ∧
  (∀ aid a, PebbleStore.GetAllocation aid db = (Some a, None) →
     IPAllocation.NetworkID a ≠ id →
     PebbleStore.GetAllocation aid db' = (Some a, None)) ∧
  (∀ e, db' !! PebbleStore.auditKey e = db !! PebbleStore.auditKey e) ∧
  (typed db → ∀ nid x, nid ≠ id →
     x ∈ (PebbleStore.ListAllocations nid db').1 ↔ x ∈ (PebbleStore.ListAllocations nid db).1).
Proof.
  cbn zeta. destruct (db !! PebbleStore.networkKey id) as [v|] eqn:Hn.
  2:{ destruct (DeleteNetwork_error id db) as (err & -> & _); [by rewrite Hn|].
      by split_and!. }
  destruct v as [n|a|e|r].
  2-4: destruct (DeleteNetwork_error id db) as (err & -> & _);
       [by rewrite Hn | by split_and!].
  rewrite (DeleteNetwork_present _ _ _ Hn). cbn [fst].
  assert (Hkeep : ∀ aid a, db !! PebbleStore.allocationKey aid = Some (PebbleStore.VAllocation a) →
    IPAllocation.NetworkID a ≠ id →
    PebbleStore.Commit (PebbleStore.BatchDelete <$> deleteNetworkKeys id n db) db !! PebbleStore.allocationKey aid
    = Some (PebbleStore.VAllocation a)).
  { intros aid a Ha Hne. rewrite Commit_deletes, decide_False; [done|].
    intros (a' & [Hk _]%elem_of_prefixIter & Hnid)%allocationKey_deleted. congruence. }
  split_and!.
  - intros id' Hne. unfold PebbleStore.GetNetwork.
    rewrite Commit_deletes, decide_False; [done|]. by rewrite networkKey_deleted.
  - intros aid a Ha%GetAllocation_Some Hne. apply GetAllocation_Some. by apply Hkeep.
  - intros e. rewrite Commit_deletes, decide_False; [done|].
    unfold deleteNetworkKeys. rewrite !elem_of_cons, elem_of_cascadeKeys.
    intros [H|[H|(k0 & a & Hin & _ & [H|H])]].
    + by destruct (ltac:(key_neq) : PebbleStore.auditKey e ≠ PebbleStore.networkKey id).
    + by destruct (ltac:(key_neq) :
        PebbleStore.auditKey e ≠ PebbleStore.cidrIndexKey (Network.CIDR n)).
    + apply elem_of_prefixIter in Hin as [_ Hb]. rewrite <- H in Hb.
      by destruct (allocation_range_audit _ Hb).
    + by destruct (ltac:(key_neq) :
        PebbleStore.auditKey e ≠ PebbleStore.ipIndexKey id (IPAllocation.IP a)).
  - intros Ht nid x Hne.
    assert (Ht' : typed (PebbleStore.Commit (PebbleStore.BatchDelete <$> deleteNetworkKeys id n db) db))
      by by apply typed_deletes.
    rewrite (elem_of_ListAllocations _ _ _ Ht'), (elem_of_ListAllocations _ _ _ Ht).
    split.
    + intros (Hk%Commit_deletes_sub & Htx & Hnid). done.
    + intros (Hk & Htx & Hnid). split_and!; [|done..]. apply Hkeep; [done|congruence].
Qed.

(** ** The order of the Pebble listings *)

Section PebbleOrder.
Import PebbleStore.

Lemma leb_ne_ltb s t : String.leb s t = true → s ≠ t → String.ltb s t = true.
Proof.
  unfold String.leb, String.ltb. destruct (String.compare s t) eqn:E; try done.
  apply String.compare_eq_iff in E. by intros _ [].
Qed.

Lemma ltb_app_l p s t : String.ltb (p +:+ s) (p +:+ t) = String.ltb s t.
Proof. unfold String.ltb. by rewrite compare_app_l. Qed.

Lemma NewIter_increasing lower upper db :
  StronglySorted (λ x y, String.ltb x.1 y.1 = true) (NewIter lower upper db).
Proof.
  pose proof (NewIter_NoDup lower upper db) as Hnd.
  pose proof (NewIter_sorted lower upper db) as Hs.
  apply Sorted_StronglySorted in Hs.
  2:{ intros x y z. unfold keyLe. apply (transitivity (R := String.le)). }
  induction Hs as [|x l Hs IH Hall]; [constructor|].
  rewrite fmap_cons in Hnd. apply NoDup_cons in Hnd as [Hx Hnd].
  constructor; [by apply IH|].
  apply Forall_forall. intros y Hy. rewrite Forall_forall in Hall.
  apply leb_ne_ltb.
  - apply Is_true_true. exact (Hall y Hy).
  - intros Heq. apply Hx. rewrite Heq. apply list_elem_of_fmap. by exists y.
Qed.

Lemma decoded_increasing {A} (dec : value → option A) (ident : A → string) pfx
    (it : list (string * value)) :
  (∀ k v, (k, v) ∈ it → ∃ x, dec v = Some x ∧ k = pfx +:+ ident x) →
  StronglySorted (λ x y, String.ltb x.1 y.1 = true) it →
  StronglySorted (λ x y, String.ltb (ident x) (ident y) = true)
    (omap (λ kv, dec kv.2) it).
Proof.
  intros Hall Hs. induction Hs as [|[k v] l Hs IH Hlt]; [constructor|].
  destruct (Hall k v) as (x & Hx & ->); [by left|].
  cbn [omap list_omap snd]. rewrite Hx. constructor.
  - apply IH. intros k' v' Hin. apply Hall. by right.
  - apply Forall_forall. intros y ([k' v'] & Hin & Hy)%list_elem_of_omap. cbn in Hy.
    destruct (Hall k' v') as (y' & Hy' & ->); [by right|].
    assert (y' = y) as -> by congruence.
    rewrite Forall_forall in Hlt. specialize (Hlt _ Hin). cbn in Hlt.
    by rewrite ltb_app_l in Hlt.
Qed.

Lemma StronglySorted_filter_keep {A} (R : relation A) (P : A → Prop)
    `{∀ x, Decision (P x)} (l : list A) :
  StronglySorted R l → StronglySorted R (filter P l).
Proof.
  induction 1 as [|x l Hs IH Hall]; [constructor|].
  rewrite filter_cons. case_decide; [|done]. constructor; [done|].
  apply Forall_forall. intros y [_ Hy]%list_elem_of_filter.
  rewrite Forall_forall in Hall. by apply Hall.
Qed.

End PebbleOrder.

(** X11. On a well-formed Pebble database [ListNetworks] returns no error
    and lists the stored networks in strictly increasing byte order of
    their ids: exactly the networks that [GetNetwork] finds under their own
    id, except those whose id begins with the byte 0xff. *)
Theorem pebble_list_networks_sorted (db : gmap string PebbleStore.value) :
  typed db →
  ∃ l, PebbleStore.ListNetworks db = (l, None) ∧
       StronglySorted (λ n n', String.ltb (Network.ID n) (Network.ID n') = true) l ∧
       ∀ n, n ∈ l ↔
         PebbleStore.GetNetwork (Network.ID n) db = (Some n, None) ∧ textual (Network.ID n).
Proof.
  intros Ht. exists (PebbleStore.ListNetworks db).1. split_and!.
  - by rewrite (ListNetworks_typed _ Ht).
  - rewrite (ListNetworks_typed _ Ht). cbn [fst].
    apply (decoded_increasing _ Network.ID PebbleStore.prefixNetwork).
    + intros k v Hkv. destruct (typed_network_range _ _ _ Ht Hkv) as (n & -> & ->).
      by exists n.
    + apply NewIter_increasing.
  - intros n. by rewrite (elem_of_ListNetworks _ _ Ht), GetNetwork_Some.
Qed.

Lemma pebble_list_networks_sorted_witness :
  let db := pebbleRun [saveNetworkCmd net1; saveAllocationCmd alloc1] ∅ in
  typed db ∧
  ∃ l, PebbleStore.ListNetworks db = (l, None) ∧
       (net1 ∈ l ↔ PebbleStore.GetNetwork "net1" db = (Some net1, None) ∧ textual "net1").
Proof.
  intros db.
  assert (Ht : typed db).
  { apply pebbleReachable_typed. do 2 apply (pebbleReachable_mutate _ _). constructor. }
  split; [exact Ht|].
  destruct (pebble_list_networks_sorted db Ht) as (l & Hl & _ & Hin).
  exists l. split; [exact Hl|]. exact (Hin net1).
Defined.

(** X12. On a well-formed Pebble database [ListAllocations(networkID)]
    returns no error and lists, in strictly increasing byte order of their
    ids, exactly the allocations stored under their own id that name the
    network, except those whose id begins with the byte 0xff. *)
Theorem pebble_list_allocations_sorted (db : gmap string PebbleStore.value)
    (networkID : string) :
  typed db →
  ∃ l, PebbleStore.ListAllocations networkID db = (l, None) ∧
       StronglySorted
         (λ a a', String.ltb (IPAllocation.ID a) (IPAllocation.ID a') = true) l ∧
       ∀ a, a ∈ l ↔
         PebbleStore.GetAllocation (IPAllocation.ID a) db = (Some a, None) ∧
         textual (IPAllocation.ID a) ∧ IPAllocation.NetworkID a = networkID.
Proof.
  intros Ht. exists (PebbleStore.ListAllocations networkID db).1. split_and!.
  - unfold PebbleStore.ListAllocations. by rewrite (allocations_typed _ Ht).
  - unfold PebbleStore.ListAllocations. rewrite (allocations_typed _ Ht). cbn [fst].
    apply StronglySorted_filter_keep.
    apply (decoded_increasing _ IPAllocation.ID PebbleStore.prefixAllocation).
    + intros k v Hkv. destruct (typed_allocation_range _ _ _ Ht Hkv) as (a & -> & ->).
      by exists a.
    + apply NewIter_increasing.
  - intros a. by rewrite (elem_of_ListAllocations _ _ _ Ht), GetAllocation_Some.
Qed.

Lemma pebble_list_allocations_sorted_witness :
  let db := pebbleRun [saveAllocationCmd alloc2; saveAllocationCmd alloc1] ∅ in
  typed db ∧
  ∃ l, PebbleStore.ListAllocations "net1" db = (l, None) ∧
       StronglySorted
         (λ a a', String.ltb (IPAllocation.ID a) (IPAllocation.ID a') = true) l.
Proof.
  intros db.
  assert (Ht : typed db).
  { apply pebbleReachable_typed. do 2 apply (pebbleReachable_mutate _ _). constructor. }
  split; [exact Ht|].
  destruct (pebble_list_allocations_sorted db "net1" Ht) as (l & Hl & Hs & _).
  exists l. split; [exact Hl | exact Hs].
Defined.

(** ** Errors of the Pebble reads *)

Section PebbleReadErrors.
Import PebbleStore.

Lemma typed_network_key db id v :
  typed db → db !! networkKey id = Some v → ∃ n, v = VNetwork n ∧ Network.ID n = id.
Proof.
  intros Ht Hk. specialize (Ht _ _ Hk). destruct v as [n|a|e|r].
  - exists n. split; [done|]. by apply networkKey_inj in Ht.
  - by destruct (ltac:(key_neq) : networkKey id ≠ allocationKey (IPAllocation.ID a)).
  - by destruct (ltac:(key_neq) : networkKey id ≠ auditKey e).
  - destruct Ht as [r' Hr]. by destruct (ltac:(key_neq) : networkKey id ≠ prefixIndex +:+ r').
Qed.

Lemma typed_allocation_key db id v :
  typed db → db !! allocationKey id = Some v →
  ∃ a, v = VAllocation a ∧ IPAllocation.ID a = id.
Proof.
  intros Ht Hk. specialize (Ht _ _ Hk). destruct v as [n|a|e|r].
  - by destruct (ltac:(key_neq) : allocationKey id ≠ networkKey (Network.ID n)).
  - exists a. split; [done|]. by apply allocationKey_inj in Ht.
  - by destruct (ltac:(key_neq) : allocationKey id ≠ auditKey e).
  - destruct Ht as [r' Hr].
    by destruct (ltac:(key_neq) : allocationKey id ≠ prefixIndex +:+ r').
Qed.

Lemma typed_index_key db r v :
  typed db → db !! (prefixIndex +:+ r) = Some v → ∃ id, v = VRaw id.
Proof.
  intros Ht Hk. specialize (Ht _ _ Hk). destruct v as [n|a|e|id].
  - by destruct (ltac:(key_neq) : prefixIndex +:+ r ≠ networkKey (Network.ID n)).
  - by destruct (ltac:(key_neq) : prefixIndex +:+ r ≠ allocationKey (IPAllocation.ID a)).
  - by destruct (ltac:(key_neq) : prefixIndex +:+ r ≠ auditKey e).
  - by exists id.
Qed.

Lemma GetNetwork_typed db id :
  typed db →
  GetNetwork id db = (None, Some ErrNetworkNotFound) ∨
  ∃ n, GetNetwork id db = (Some n, None) ∧ Network.ID n = id.
Proof.
  intros Ht. unfold GetNetwork. destruct (db !! networkKey id) as [v|] eqn:E; [|by left].
  destruct (typed_network_key _ _ _ Ht E) as (n & -> & Hid). right. by exists n.
Qed.

Lemma GetAllocation_typed db id :
  typed db →
  GetAllocation id db = (None, Some ErrIPNotAllocated) ∨
  ∃ a, GetAllocation id db = (Some a, None) ∧ IPAllocation.ID a = id.
Proof.
  intros Ht. unfold GetAllocation. destruct (db !! allocationKey id) as [v|] eqn:E; [|by left].
  destruct (typed_allocation_key _ _ _ Ht E) as (a & -> & Hid). right. by exists a.
Qed.

End PebbleReadErrors.

(** X13. On every database that the Pebble-backed store reaches from the
    empty one by mutations whose saved records have valid UTF-8 strings, a
    read fails only with the error of its kind: [GetNetwork] and
    [GetNetworkByCIDR] return a network or [network_not_found],
    [GetAllocation] and [GetAllocationByIP] an allocation or
    [ip_not_allocated], a record found by id carries that id, and the three
    listings return no error; no read returns a decoding error. *)
Theorem pebble_reads_fail_only_with_not_found (cs : list command) :
  Forall utf8Command cs →
  let db := pebbleRun cs ∅ in
  (∀ id, PebbleStore.GetNetwork id db = (None, Some ErrNetworkNotFound) ∨
         ∃ n, PebbleStore.GetNetwork id db = (Some n, None) ∧ Network.ID n = id) ∧
  (∀ cidr, PebbleStore.GetNetworkByCIDR cidr db = (None, Some ErrNetworkNotFound) ∨
           ∃ n, PebbleStore.GetNetworkByCIDR cidr db = (Some n, None)) ∧
  (∀ id, PebbleStore.GetAllocation id db = (None, Some ErrIPNotAllocated) ∨
         ∃ a, PebbleStore.GetAllocation id db = (Some a, None) ∧ IPAllocation.ID a = id) ∧
  (∀ networkID ip,
     PebbleStore.GetAllocationByIP networkID ip db = (None, Some ErrIPNotAllocated) ∨
     ∃ a, PebbleStore.GetAllocationByIP networkID ip db = (Some a, None)) ∧
  (PebbleStore.ListNetworks db).2 = None ∧
  (∀ networkID, (PebbleStore.ListAllocations networkID db).2 = None) ∧
  (∀ limit, (PebbleStore.ListAuditEntries limit db).2 = None).
Proof.
  intros Hcs db.
  assert (Ht : typed db) by apply pebbleReachable_typed, pebbleReachable_run.
  split_and!.
  - intros id. by apply GetNetwork_typed.
  - intros cidr. unfold PebbleStore.GetNetworkByCIDR.
    destruct (db !! PebbleStore.cidrIndexKey cidr) as [v|] eqn:E; [|by left].
    destruct (typed_index_key db ("cidr:" +:+ cidr) v Ht E) as [id ->]. cbn.
    destruct (GetNetwork_typed db id Ht) as [->|(n & -> & _)]; [by left | right; by exists n].
  - intros id. by apply GetAllocation_typed.
  - intros networkID ip. unfold PebbleStore.GetAllocationByIP.
    destruct (db !! PebbleStore.ipIndexKey networkID ip) as [v|] eqn:E; [|by left].
    destruct (typed_index_key db ("ip:" +:+ networkID +:+ ":" +:+ ip) v Ht E) as [id ->]. cbn.
    destruct (GetAllocation_typed db id Ht) as [->|(a & -> & _)]; [by left | right; by exists a].
  - by rewrite (ListNetworks_typed _ Ht).
  - intros networkID. unfold PebbleStore.ListAllocations. by rewrite (allocations_typed _ Ht).
  - intros limit. unfold PebbleStore.ListAuditEntries. rewrite decodeAll_ok; [done|].
    apply Forall_forall. intros [k v] Hin.
    destruct (typed_audit_range _ _ _ Ht Hin) as (e & -> & _). by eexists.
Qed.

Lemma pebble_reads_fail_only_with_not_found_witness :
  let cs := [saveNetworkCmd net1; saveAllocationCmd alloc1; deleteNetworkCmd "net1"] in
  let db := pebbleRun cs ∅ in
  Forall utf8Command cs ∧
  (PebbleStore.ListNetworks db).2 = None ∧
  (PebbleStore.GetNetwork "net1" db = (None, Some ErrNetworkNotFound) ∨
   ∃ n, PebbleStore.GetNetwork "net1" db = (Some n, None) ∧ Network.ID n = "net1").
Proof.
  intros cs db.
  assert (Hcs : Forall utf8Command cs) by (repeat constructor; utf8_sample).
  split; [exact Hcs|].
  destruct (pebble_reads_fail_only_with_not_found cs Hcs) as (H1 & _ & _ & _ & H2 & _).
  split; [exact H2 | exact (H1 "net1")].
Defined.

(** ** Audit listings with a limit that is not positive *)

(** X14. On the Raft-backed store a limit of zero is no limit:
    [ListAuditEntries(0)] returns the whole audit list, newest first; a
    negative limit makes [Lookup] panic, since it is the capacity passed to
    [make]. *)
Theorem raft_list_audit_nonpositive_limit order (s : ipamStateMachine) (limit : Z) :
  (limit ≤ 0)%Z →
  RaftStore.ListAuditEntries order limit s =
    if decide (limit < 0)%Z then Panics "makeslice: cap out of range"
    else Returns (rev (audit s), None).
Proof.
  intros Hl. unfold RaftStore.ListAuditEntries, RaftStore.executeQuery, Lookup.
  destruct (decide (limit < 0)%Z) as [Hn|Hn].
  - by rewrite (decide_True (P := (limit < 0 ∨ maxSliceCap < limit)%Z)) by (by left).
  - rewrite (decide_False (P := (limit < 0 ∨ maxSliceCap < limit)%Z))
      by (unfold maxSliceCap; lia).
    rewrite decide_True by (by right). by unfold collect_down.
Qed.

Lemma raft_list_audit_nonpositive_limit_witness :
  let s := applyAll [saveAuditCmd (auditAt "audit0" 1); saveAuditCmd (auditAt "audit1" 2)]
             fresh in
  (0 ≤ 0)%Z ∧
  RaftStore.ListAuditEntries [] 0 s
    = Returns ([auditAt "audit1" 2; auditAt "audit0" 1], None).
Proof.
  intros s. split; [lia|].
  exact (raft_list_audit_nonpositive_limit [] s 0 (Z.le_refl 0)).
Defined.

(** X15. On the Pebble-backed store a limit that is not positive lists
    nothing: on a well-formed database [ListAuditEntries(limit)] with
    [limit <= 0] returns the empty list and no error (as long as
    [len - limit] does not overflow an [int]). *)
Theorem pebble_list_audit_nonpositive_limit (db : gmap string PebbleStore.value)
    (limit : Z) :
  typed db → (limit ≤ 0)%Z →
  (len (PebbleStore.prefixIter PebbleStore.prefixAudit db) - limit < 2 ^ 63)%Z →
  PebbleStore.ListAuditEntries limit db = ([], None).
Proof.
  intros Ht Hl Hn. unfold PebbleStore.ListAuditEntries.
  rewrite decodeAll_ok.
  2:{ apply Forall_forall. intros [k v] Hin.
      destruct (typed_audit_range _ _ _ Ht Hin) as (e & -> & _). by eexists. }
  pose proof (audit_range_decodes db Ht) as Hlen. unfold len in *. rewrite Hlen.
  set (n := length (PebbleStore.prefixIter PebbleStore.prefixAudit db)) in *.
  rewrite int_wrap_id by lia. rewrite decide_False by lia.
  unfold collect_down. rewrite drop_ge; [done|]. rewrite Hlen. lia.
Qed.

Lemma pebble_list_audit_nonpositive_limit_witness :
  let db := pebbleRun [saveAuditCmd (auditAt "audit0" 1); saveAuditCmd (auditAt "audit1" 2)]
              ∅ in
  (typed db ∧ (0 ≤ 0)%Z) ∧
  PebbleStore.ListAuditEntries 2 db = ([auditAt "audit1" 2; auditAt "audit0" 1], None) ∧
  PebbleStore.ListAuditEntries 0 db = ([], None).
Proof.
  intros db.
  assert (Ht : typed db) by (apply pebbleReachable_typed, (pebbleReachable_run _)).
  split; [split; [exact Ht | lia]|]. split; [vm_compute; reflexivity|].
  apply (pebble_list_audit_nonpositive_limit db 0 Ht (Z.le_refl 0)).
  vm_compute. reflexivity.
Defined.

(** ** The audit listing of the Pebble-backed store *)

(** X16. On a well-formed Pebble database [ListAuditEntries(K)], for a
    limit [K >= 1], returns the first [K] of the stored audit entries in
    decreasing byte order of their keys [audit:<UnixNano>_<ID>] (all of
    them when fewer are stored); every stored entry is among those
    ordered. *)
Theorem pebble_list_audit_by_key (db : gmap string PebbleStore.value) (K : Z) :
  typed db → (1 ≤ K < 2 ^ 63)%Z →
  (len (PebbleStore.prefixIter PebbleStore.prefixAudit db) < 2 ^ 63)%Z →
  ∃ all,
    StronglySorted
      (λ e e', String.ltb (PebbleStore.auditKey e) (PebbleStore.auditKey e') = true) all ∧
    (∀ e, e ∈ all ↔ db !! PebbleStore.auditKey e = Some (PebbleStore.VAuditEntry e)) ∧
    PebbleStore.ListAuditEntries K db = (take (Z.to_nat K) (rev all), None).
Proof.
  intros Ht HK Hn.
  set (it := PebbleStore.prefixIter PebbleStore.prefixAudit db) in *.
  assert (Hall : ∀ k v, (k, v) ∈ it →
            ∃ e, PebbleStore.unmarshalAuditEntry v = Some e ∧ k = "" +:+ PebbleStore.auditKey e).
  { intros k v Hkv. destruct (typed_audit_range _ _ _ Ht Hkv) as (e & -> & ->). by exists e. }
  exists (omap (λ kv, PebbleStore.unmarshalAuditEntry kv.2) it). split_and!.
  - apply (decoded_increasing _ PebbleStore.auditKey "" it Hall).
    apply NewIter_increasing.
  - intros e. rewrite list_elem_of_omap. split.
    + intros ([k v] & Hkv & Hdec). cbn in Hdec.
      destruct (typed_audit_range _ _ _ Ht Hkv) as (e' & -> & ->).
      injection Hdec as ->. by apply elem_of_prefixIter in Hkv as [Hk _].
    + intros Hk. exists (PebbleStore.auditKey e, PebbleStore.VAuditEntry e).
      split; [|done]. apply elem_of_prefixIter. split; [done | apply auditKey_inBounds].
  - unfold PebbleStore.ListAuditEntries. fold it. rewrite decodeAll_ok.
    2:{ apply Forall_forall. intros [k v] Hkv.
        destruct (Hall k v Hkv) as (e & He & _). cbn. rewrite He. by eexists. }
    pose proof (audit_range_decodes db Ht) as Hlen. fold it in Hlen.
    unfold len in *. rewrite Hlen. rewrite int_wrap_id by lia.
    unfold collect_down. rewrite firstn_rev, Hlen. do 3 f_equal.
    case_decide; lia.
Qed.

Lemma pebble_list_audit_by_key_witness :
  let db := pebbleRun [saveAuditCmd (auditAt "audit0" 999999999999999999);
                       saveAuditCmd (auditAt "audit1" 1000000000000000000)] ∅ in
  (typed db ∧ (1 ≤ 1 < 2 ^ 63)%Z) ∧
  PebbleStore.ListAuditEntries 1 db = ([auditAt "audit0" 999999999999999999], None) ∧
  ∃ all, PebbleStore.ListAuditEntries 1 db = (take 1 (rev all), None).
Proof.
  intros db.
  assert (Ht : typed db) by (apply pebbleReachable_typed, (pebbleReachable_run _)).
  assert (HK : (1 ≤ 1 < 2 ^ 63)%Z) by lia.
  split; [exact (conj Ht HK)|]. split; [vm_compute; reflexivity|].
  destruct (pebble_list_audit_by_key db 1 Ht HK) as (all & _ & _ & H).
  { vm_compute. reflexivity. }
  exists all. exact H.
Defined.

(** X17. The Pebble-backed store keys an audit entry by its timestamp and
    id: an entry saved after another with the same timestamp and id
    replaces it, and leaves the database as if the earlier entry had never
    been saved; entries that differ in timestamp or id are both kept. *)
Theorem pebble_audit_keyed_by_stamp_and_id (e e' : AuditEntry.t)
    (db : gmap string PebbleStore.value) :
  let db2 := (PebbleStore.SaveAuditEntry e' (PebbleStore.SaveAuditEntry e db).1).1 in
  if decide (AuditEntry.Timestamp e = AuditEntry.Timestamp e' ∧
             AuditEntry.ID e = AuditEntry.ID e')
  then db2 = (PebbleStore.SaveAuditEntry e' db).1
  else db2 !! PebbleStore.auditKey e = Some (PebbleStore.VAuditEntry e) ∧
       db2 !! PebbleStore.auditKey e' = Some (PebbleStore.VAuditEntry e').
Proof.
  cbn zeta. unfold PebbleStore.SaveAuditEntry. cbn [fst]. case_decide as Hk.
  - apply auditKey_inj in Hk. rewrite Hk. apply insert_insert_eq.
  - rewrite <- auditKey_inj in Hk. split.
    + rewrite lookup_insert_ne by done. apply lookup_insert_eq.
    + apply lookup_insert_eq.
Qed.

(** ** The newest audit entries of the Raft-backed store *)





(** ** Recovery from any snapshot *)

(** X19. After [RecoverFromSnapshot], whatever the snapshot and whatever
    the replica held before, the records are those of the snapshot and
    [ListAllocations(networkID)] returns, each once and in some order,
    exactly the allocations of the snapshot that name the network. *)
Theorem recovered_lists_are_exact order (snapshot : snapshotData)
    (s s' : ipamStateMachine) (networkID : string) :
  recovers snapshot s s' →
  networks s' = Networks snapshot ∧ allocations s' = Allocations snapshot ∧
  audit s' = Audit snapshot ∧
  ∃ l, RaftStore.ListAllocations order networkID s' = Returns (l, None) ∧
       l ≡ₚ filter (λ a, IPAllocation.NetworkID a = networkID)
              (map_to_list (Allocations snapshot)).*2.
Proof.
  intros (nets & allocs & Hnets & Hallocs & ->). split_and!; [done..|].
  eexists. split; [apply ListAllocations_eq|].
  unfold RecoverFromSnapshot, rebuildIndexes. cbn [allocations allocationsByNet].
  rewrite rebuild_byNet_default.
  assert (Hl : lookupAllocations (Allocations snapshot) (byNetOf allocs networkID)
             = filter (λ a, IPAllocation.NetworkID a = networkID) allocs.*2).
  { assert (Hin : ∀ kv, kv ∈ allocs → Allocations snapshot !! kv.1 = Some kv.2).
    { intros [k v] Hkv. by apply (go_range_elem _ _ _ _ Hallocs). }
    unfold lookupAllocations, byNetOf. clear Hallocs.
    induction allocs as [|kv allocs IH]; [done|].
    rewrite fmap_cons, !filter_cons.
    assert (IH' := IH (λ kv' H, Hin kv' (list_elem_of_further _ _ _ H))).
    case_decide.
    - rewrite fmap_cons. cbn [omap list_omap]. rewrite (Hin kv) by by left.
      by rewrite IH'.
    - done. }
  rewrite Hl. unfold go_range in Hallocs. by rewrite Hallocs.
Qed.

Lemma recovered_lists_are_exact_witness :
  let s0 := applyAll [saveAllocationCmd alloc1; saveAllocationCmd alloc2] fresh in
  let s' := RecoverFromSnapshot (map_to_list (networks s0)) (map_to_list (allocations s0))
              (SaveSnapshot s0) (newIPAMStateMachine 1 2) in
  recovers (SaveSnapshot s0) (newIPAMStateMachine 1 2) s' ∧
  allocations s' = allocations s0 ∧
  ∃ l, RaftStore.ListAllocations [] "net1" s' = Returns (l, None) ∧
       l ≡ₚ filter (λ a, IPAllocation.NetworkID a = "net1")
              (map_to_list (allocations s0)).*2.
Proof.
  intros s0 s'.
  assert (Hr : recovers (SaveSnapshot s0) (newIPAMStateMachine 1 2) s').
  { exists (map_to_list (networks s0)), (map_to_list (allocations s0)).
    split_and!; [apply Permutation_refl.. | exact eq_refl]. }
  split; [exact Hr|].
  destruct (recovered_lists_are_exact [] _ _ _ "net1" Hr) as (_ & H1 & _ & H2).
  split; [exact H1 | exact H2].
Defined.

(** ** The key of the IP index *)

Section IPKey.

Lemma ipKey_cons c nid ip : ipKey (String c nid) ip = String c (ipKey nid ip).
Proof. done. Qed.

Lemma ipKey_nil ip : ipKey "" ip = String colon ip.
Proof. done. Qed.

Lemma ipKey_inj nid nid' ip ip' :
  colonFree nid → colonFree nid' → ipKey nid ip = ipKey nid' ip' → nid = nid' ∧ ip = ip'.
Proof.
  revert nid'. induction nid as [|c nid IH]; intros [|d nid'] Hc Hc' Heq.
  - rewrite !ipKey_nil in Heq. by simplify_eq.
  - rewrite ipKey_nil, ipKey_cons in Heq. cbn in Hc'. injection Heq as Hd _.
    by destruct Hc' as [[] _].
  - rewrite ipKey_nil, ipKey_cons in Heq. cbn in Hc. injection Heq as Hd _.
    by destruct Hc as [[] _].
  - rewrite !ipKey_cons in Heq. cbn in Hc, Hc'. injection Heq as -> Heq.
    destruct (IH nid') as [-> ->]; tauto.
Qed.

End IPKey.

(** X20. The key of the IP index, [networkID:ip] (behind the prefix
    [index:ip:] in the Pebble store), tells network id and address apart
    whenever the network ids hold no colon: two pairs with the same key are
    the same pair.  Addresses may hold colons, as IPv6 addresses do. *)
Theorem ip_index_key_separates (networkID networkID' ip ip' : string) :
  colonFree networkID → colonFree networkID' →
  (ipKey networkID ip = ipKey networkID' ip' → networkID = networkID' ∧ ip = ip') ∧
  (PebbleStore.ipIndexKey networkID ip = PebbleStore.ipIndexKey networkID' ip' →
   networkID = networkID' ∧ ip = ip').
Proof.
  intros Hc Hc'. split; [by apply ipKey_inj|].
  rewrite !ipIndexKey_eq. intros H%ipIndex_inj. by apply ipKey_inj.
Qed.

Lemma ip_index_key_separates_witness :
  (colonFree "net1" ∧ colonFree "net2") ∧
  (ipKey "net1" "fd00::1" = ipKey "net2" "fd00::1" → "net1" = "net2" ∧ "fd00::1" = "fd00::1") ∧
  ipKey "a:b" "c" = ipKey "a" "b:c".
Proof.
  assert (H1 : colonFree "net1") by (cbn; by split_and!).
  assert (H2 : colonFree "net2") by (cbn; by split_and!).
  split; [exact (conj H1 H2)|].
  split; [|reflexivity].
  exact (proj1 (ip_index_key_separates "net1" "net2" "fd00::1" "fd00::1" H1 H2)).
Defined.

(** ** A network saved again under another CIDR *)

(** X21. Neither backend removes the index entry of the earlier CIDR when
    a network is saved again under another one: after both saves a lookup
    by the earlier CIDR still succeeds, and returns the network in its new
    form, whose CIDR is not the one asked for (on the Pebble-backed store,
    for a new form whose strings are valid UTF-8). *)
Theorem resaved_network_answers_to_old_cidr order (n n' : Network.t)
    (s : ipamStateMachine) (db : gmap string PebbleStore.value) :
  Network.ID n' = Network.ID n → Network.CIDR n' ≠ Network.CIDR n →
  let s2 := (RaftStore.SaveNetwork n' (RaftStore.SaveNetwork n s).1).1 in
  let db2 := (PebbleStore.SaveNetwork n' (PebbleStore.SaveNetwork n db).1).1 in
  RaftStore.GetNetworkByCIDR order (Network.CIDR n) s2 = Returns (Some n', None) ∧
  (utf8Network n' →
   PebbleStore.GetNetworkByCIDR (Network.CIDR n) db2 = (Some n', None)).
Proof.
  intros Hid Hcidr. cbn zeta. split.
  - unfold RaftStore.GetNetworkByCIDR, RaftStore.executeQuery, Lookup. cbn.
    rewrite lookup_insert_ne by done. rewrite lookup_insert_eq.
    by rewrite <- Hid, lookup_insert_eq.
  - intros _. unfold PebbleStore.GetNetworkByCIDR. rewrite !SaveNetwork_lookup.
    rewrite decide_False by (intros H%cidrIndexKey_inj; congruence).
    rewrite decide_False by key_neq. rewrite decide_True by done.
    cbn [PebbleStore.rawString]. rewrite <- Hid.
    apply GetNetwork_Some. rewrite SaveNetwork_lookup.
    rewrite decide_False by key_neq. by rewrite decide_True.
Qed.

Lemma resaved_network_answers_to_old_cidr_witness :
  let net1' := {| Network.ID := "net1"; Network.CIDR := "10.1.0.0/24";
                  Network.Description := "Test network"; Network.Tags := ["test"];
                  Network.CreatedAt := 1700000000000000000;
                  Network.UpdatedAt := 1700000000000000001 |} in
  (Network.ID net1' = Network.ID net1 ∧ Network.CIDR net1' ≠ Network.CIDR net1 ∧
   utf8Network net1') ∧
  PebbleStore.GetNetworkByCIDR "10.0.0.0/24"
    (PebbleStore.SaveNetwork net1' (PebbleStore.SaveNetwork net1 ∅).1).1
  = (Some net1', None).
Proof.
  intros net1'.
  assert (H1 : Network.ID net1' = Network.ID net1) by reflexivity.
  assert (H2 : Network.CIDR net1' ≠ Network.CIDR net1) by discriminate.
  assert (H3 : utf8Network net1') by utf8_sample.
  split; [exact (conj H1 (conj H2 H3))|].
  exact (proj2 (resaved_network_answers_to_old_cidr [] net1 net1' fresh ∅ H1 H2) H3).
Defined.

(** ** Cluster information *)

(** X22. When the node host answers both calls, [GetClusterInfo] reports
    the cluster id, the leader and whether there is one as it was told,
    and lists every member of the membership exactly once, with its
    address: a node is flagged as leader exactly when its id is the
    leader's, so at most one node is. *)
Theorem cluster_info_lists_each_member_once (clusterID leader : Z) (ok : bool)
    (m : Membership.t) (order : list (Z * string)) :
  go_range_nodes (Membership.Nodes m) order →
  ∃ info,
    GetClusterInfo clusterID (leader, ok, None) (m, None) order = (Some info, None) ∧
    ClusterInfo.ClusterID info = clusterID ∧ ClusterInfo.LeaderID info = leader ∧
    ClusterInfo.HasLeader info = ok ∧
    ClusterInfo.ConfigChangeID info = Membership.ConfigChangeID m ∧
    NoDup (NodeInfo.NodeID <$> ClusterInfo.Nodes info) ∧
    (∀ n, n ∈ ClusterInfo.Nodes info ↔
       Membership.Nodes m !! NodeInfo.NodeID n = Some (NodeInfo.RaftAddr n) ∧
       NodeInfo.IsLeader n = bool_decide (NodeInfo.NodeID n = leader)) ∧
    (∀ n n', n ∈ ClusterInfo.Nodes info → n' ∈ ClusterInfo.Nodes info →
       NodeInfo.IsLeader n = true → NodeInfo.IsLeader n' = true → n = n').
Proof.
  intros Hr. unfold go_range_nodes in Hr. eexists. split; [done|]. cbn.
  split_and!; try done.
  - rewrite <- list_fmap_compose.
    replace (NodeInfo.NodeID ∘ _) with (fst : Z * string → Z) by done.
    rewrite Hr. apply NoDup_fst_map_to_list.
  - intros n. rewrite list_elem_of_fmap. split.
    + intros ([k v] & -> & Hin). cbn. rewrite Hr in Hin.
      by apply elem_of_map_to_list in Hin.
    + intros [Hk Hl]. exists (NodeInfo.NodeID n, NodeInfo.RaftAddr n). split.
      * destruct n as [i a l]. cbn in *. by rewrite Hl.
      * rewrite Hr. by apply elem_of_map_to_list.
  - intros n n' ([k v] & -> & Hin)%list_elem_of_fmap ([k' v'] & -> & Hin')%list_elem_of_fmap.
    cbn. intros ->%bool_decide_eq_true ->%bool_decide_eq_true.
    rewrite Hr in Hin, Hin'. apply elem_of_map_to_list in Hin, Hin'.
    by simplify_eq.
Qed.

Lemma cluster_info_lists_each_member_once_witness :
  let m := {| Membership.ConfigChangeID := 1;
              Membership.Nodes := {[ 1%Z := "localhost:5001" ]} |} in
  go_range_nodes (Membership.Nodes m) [(1%Z, "localhost:5001")] ∧
  ∃ info,
    GetClusterInfo 1 (1%Z, true, None) (m, None) [(1%Z, "localhost:5001")]
      = (Some info, None) ∧
    NoDup (NodeInfo.NodeID <$> ClusterInfo.Nodes info).
Proof.
  intros m.
  assert (Hr : go_range_nodes (Membership.Nodes m) [(1%Z, "localhost:5001")]).
  { unfold go_range_nodes, m. cbn. by rewrite map_to_list_singleton. }
  split; [exact Hr|].
  destruct (cluster_info_lists_each_member_once 1 1 true m _ Hr)
    as (info & Hi & _ & _ & _ & _ & Hnd & _).
  exists info. split; [exact Hi | exact Hnd].
Defined.

(** ** The handler that deletes a network *)

Section DeleteHandler.

Lemma activeCount_pos allocations :
  (0 < Server.activeCount allocations)%Z ↔
  ∃ a, a ∈ allocations ∧ IPAllocation.ReleasedAt a = None.
Proof.
  unfold Server.activeCount, len. split.
  - intros Hpos.
    destruct (filter (λ alloc, IPAllocation.ReleasedAt alloc = None) allocations)
      as [|a l] eqn:E; [cbn in Hpos; lia|].
    assert (Hin : a ∈ filter (λ alloc, IPAllocation.ReleasedAt alloc = None) allocations)
      by (rewrite E; by left).
    apply list_elem_of_filter in Hin as [Hr Hin]. by exists a.
  - intros (a & Ha & Hr).
    assert (Hin : a ∈ filter (λ alloc, IPAllocation.ReleasedAt alloc = None) allocations)
      by by apply list_elem_of_filter.
    destruct (filter _ allocations); [by apply elem_of_nil in Hin | cbn; lia].
Qed.

End DeleteHandler.

(** X23. The handler [deleteNetwork] deletes nothing while the network
    has an allocation that is not released: when the store holds an
    allocation with a nil [ReleasedAt] (on the Pebble-backed store, one
    whose id does not begin with the byte 0xff), the request to delete its
    network is answered with 409 Conflict and the store is left as it was,
    on both backends. *)
Theorem api_delete_network_blocked_by_active_allocation order
    (db : gmap string PebbleStore.value) (s : ipamStateMachine) (a : IPAllocation.t) :
  IPAllocation.ReleasedAt a = None →
  (typed db → PebbleStore.GetAllocation (IPAllocation.ID a) db = (Some a, None) →
   textual (IPAllocation.ID a) →
   Server.deleteNetwork pebbleStore (IPAllocation.NetworkID a) db
   = Returns (db, Server.httpError "Network has active allocations" Server.StatusConflict)) ∧
  (reachable s → allocations s !! IPAllocation.ID a = Some a →
   Server.deleteNetwork (raftStore order) (IPAllocation.NetworkID a) s
   = Returns (s, Server.httpError "Network has active allocations" Server.StatusConflict)).
Proof.
  intros Hrel. split.
  - intros Ht Ha Htx. unfold Server.deleteNetwork. cbn [Store.ListAllocations pebbleStore].
    rewrite (ListAllocations_typed _ _ Ht). rewrite decide_True; [done|].
    apply activeCount_pos. exists a. split; [|done].
    apply (elem_of_ListAllocations _ _ _ Ht). by apply GetAllocation_Some in Ha.
  - intros Hs Ha. unfold Server.deleteNetwork. cbn [Store.ListAllocations raftStore].
    rewrite ListAllocations_eq. rewrite decide_True; [done|].
    apply activeCount_pos. exists a. split; [|done].
    unfold lookupAllocations. apply list_elem_of_omap. exists (IPAllocation.ID a).
    split; [|done]. by apply (byNet_complete s (reachable_consistent s Hs)).
Qed.

Lemma api_delete_network_blocked_by_active_allocation_witness :
  let db := pebbleRun [saveNetworkCmd net1; saveAllocationCmd alloc1] ∅ in
  let s := applyAll [saveNetworkCmd net1; saveAllocationCmd alloc1] fresh in
  IPAllocation.ReleasedAt alloc1 = None ∧
  Server.deleteNetwork pebbleStore "net1" db
    = Returns (db, Server.httpError "Network has active allocations" 409) ∧
  Server.deleteNetwork (raftStore []) "net1" s
    = Returns (s, Server.httpError "Network has active allocations" 409).
Proof.
  intros db s.
  assert (Hrel : IPAllocation.ReleasedAt alloc1 = None) by reflexivity.
  split; [exact Hrel|].
  destruct (api_delete_network_blocked_by_active_allocation [] db s alloc1 Hrel) as [H1 H2].
  split.
  - apply H1.
    + apply pebbleReachable_typed, (pebbleReachable_run _).
    + vm_compute. reflexivity.
    + vm_compute. discriminate.
  - apply H2.
    + apply reachable_applyAll. constructor.
    + vm_compute. reflexivity.
Defined.

(** X24. A request to delete a network that is not stored changes
    nothing on either backend, and is never answered with 404.  The answer
    is 409 Conflict exactly when the list of allocations that the store
    returns for the id holds an allocation with a nil [ReleasedAt];
    otherwise the Pebble-backed store answers 500 with the text of
    [network_not_found] and the Raft-backed store 204.  On a well-formed
    Pebble database the list holds the stored allocations that name the
    id, but for those whose id begins with the byte 0xff. *)
Theorem api_delete_unknown_network order (db : gmap string PebbleStore.value)
    (s : ipamStateMachine) (id : string) :
  typed db → PebbleStore.GetNetwork id db = (None, Some ErrNetworkNotFound) →
  networks s !! id = None →
  (∃ l, PebbleStore.ListAllocations id db = (l, None) ∧
        (∀ a, a ∈ l ↔
           PebbleStore.GetAllocation (IPAllocation.ID a) db = (Some a, None) ∧
           textual (IPAllocation.ID a) ∧ IPAllocation.NetworkID a = id) ∧
        Server.deleteNetwork pebbleStore id db =
          Returns (db,
            if decide (Exists (λ a, IPAllocation.ReleasedAt a = None) l)
            then Server.httpError "Network has active allocations" Server.StatusConflict
            else Server.httpError (errorString ErrNetworkNotFound)
                   Server.StatusInternalServerError)) ∧
  (∃ l, RaftStore.ListAllocations order id s = Returns (l, None) ∧
        Server.deleteNetwork (raftStore order) id s =
          Returns (s,
            if decide (Exists (λ a, IPAllocation.ReleasedAt a = None) l)
            then Server.httpError "Network has active allocations" Server.StatusConflict
            else {| statusCode := Server.StatusNoContent; body := BodyEmpty |})).
Proof.
  intros Ht Hget Hn.
  assert (Hact : ∀ l, (0 < Server.activeCount l)%Z ↔
            Exists (λ a, IPAllocation.ReleasedAt a = None) l).
  { intros l. rewrite activeCount_pos, Exists_exists. done. }
  split.
  - exists (PebbleStore.ListAllocations id db).1. split; [by apply ListAllocations_typed|].
    split.
    { intros a. by rewrite (elem_of_ListAllocations _ _ _ Ht), GetAllocation_Some. }
    unfold Server.deleteNetwork. cbn [Store.ListAllocations Store.DeleteNetwork pebbleStore].
    rewrite (ListAllocations_typed _ _ Ht).
    destruct (decide (Exists _ _)) as [He|He].
    + by rewrite decide_True by (by apply Hact).
    + rewrite decide_False by (by rewrite Hact).
      unfold PebbleStore.DeleteNetwork. by rewrite Hget.
  - eexists. split; [apply ListAllocations_eq|].
    unfold Server.deleteNetwork. cbn [Store.ListAllocations Store.DeleteNetwork raftStore].
    rewrite ListAllocations_eq.
    destruct (decide (Exists _ _)) as [He|He].
    + by rewrite decide_True by (by apply Hact).
    + rewrite decide_False by (by rewrite Hact).
      unfold RaftStore.DeleteNetwork, RaftStore.executeCommand. cbn [apply].
      unfold applyDeleteNetwork. by rewrite Hn.
Qed.

Lemma api_delete_unknown_network_witness :
  let db := pebbleRun [saveAllocationCmd alloc1_released; saveAllocationCmd alloc3] ∅ in
  let db0 := pebbleRun [saveAllocationCmd alloc1_released] ∅ in
  (typed db0 ∧ PebbleStore.GetNetwork "net1" db0 = (None, Some ErrNetworkNotFound) ∧
   networks fresh !! "net1" = None) ∧
  Server.deleteNetwork pebbleStore "net1" db0
    = Returns (db0, Server.httpError (errorString ErrNetworkNotFound) 500) ∧
  Server.deleteNetwork pebbleStore "net1" db
    = Returns (db, Server.httpError "Network has active allocations" 409) ∧
  Server.deleteNetwork (raftStore []) "net1" fresh
    = Returns (fresh, {| statusCode := 204; body := BodyEmpty |}).
Proof.
  intros db db0.
  assert (H1 : typed db0) by apply pebbleReachable_typed, pebbleReachable_run.
  assert (H2 : PebbleStore.GetNetwork "net1" db0 = (None, Some ErrNetworkNotFound))
    by reflexivity.
  assert (H3 : networks fresh !! "net1" = None) by reflexivity.
  split; [exact (conj H1 (conj H2 H3))|].
  destruct (api_delete_unknown_network [] db0 fresh "net1" H1 H2 H3)
    as [(l & Hl & _ & Hp) (l' & Hl' & Hr)].
  assert (l = [alloc1_released]) as ->
    by (vm_compute in Hl; injection Hl as <-; reflexivity).
  assert (l' = []) as -> by (vm_compute in Hl'; injection Hl' as <-; reflexivity).
  split; [exact Hp|]. split; [vm_compute; reflexivity | exact Hr].
Defined.

(** ** The handler that lists allocations *)

Section ListHandler.
Context {S : Type} (store : Store.t S).

Lemma visible_unreleased allocations :
  Forall (λ a, IPAllocation.ReleasedAt a = None) (Server.visible false allocations).
Proof.
  apply Forall_forall. intros a [Hv _]%list_elem_of_filter.
  destruct (IPAllocation.ReleasedAt a) as [t|] eqn:E; [|done].
  destruct Hv. by split.
Qed.

Lemma visible_all allocations : Server.visible true allocations = allocations.
Proof.
  unfold Server.visible. induction allocations as [|a l IH]; [done|].
  rewrite filter_cons, decide_True by (by intros [? _]). by rewrite IH.
Qed.

Lemma allocationsOf_unreleased networks s l :
  Server.allocationsOf store false networks s = Returns l →
  Forall (λ a, IPAllocation.ReleasedAt a = None) l.
Proof.
  revert l. induction networks as [|n networks IH]; intros l; cbn.
  - by intros [= <-].
  - destruct (Store.ListAllocations store (Network.ID n) s) as [[allocs [err|]]|msg];
      [by apply IH | | done].
    destruct (Server.allocationsOf store false networks s) as [rest|msg]; [|done].
    intros [= <-]. apply Forall_app. split; [apply visible_unreleased | by apply IH].
Qed.

End ListHandler.

(** X25. Unless the parameter [all] is [true], the handler
    [listAllocations] never returns a released allocation, whichever store
    serves it and whether or not a network is named: a response it writes
    is either a store error with status 500 or a list of allocations with
    a nil [ReleasedAt].  With [all] set and a network named it returns the
    store's list unchanged. *)
Theorem api_list_allocations_hides_released {S : Type} (store : Store.t S)
    (networkID : string) (s : S) :
  (∀ r, Server.listAllocations store networkID false s = Returns r →
     match body r with
     | BodyAllocations l =>
         statusCode r = Server.StatusOK ∧
         Forall (λ a, IPAllocation.ReleasedAt a = None) l
     | BodyError _ => statusCode r = Server.StatusInternalServerError
     | _ => False
     end) ∧
  (∀ allocations, networkID ≠ "" →
     Store.ListAllocations store networkID s = Returns (allocations, None) →
     Server.listAllocations store networkID true s
     = Returns {| statusCode := Server.StatusOK; body := BodyAllocations allocations |}).
Proof.
  split.
  - intros r. unfold Server.listAllocations. case_decide.
    + destruct (Store.ListAllocations store networkID s) as [[allocs [err|]]|msg];
        [by intros [= <-] | | done].
      intros [= <-]. cbn. split; [done | apply visible_unreleased].
    + destruct (Store.ListNetworks store s) as [[nets [err|]]|msg];
        [by intros [= <-] | | done].
      destruct (Server.allocationsOf store false nets s) as [l|msg] eqn:E; [|done].
      intros [= <-]. cbn. split; [done|]. by eapply allocationsOf_unreleased.
  - intros allocations Hne Hl. unfold Server.listAllocations.
    rewrite decide_True by done. by rewrite Hl, visible_all.
Qed.

(** ** The command that deletes a network *)

(** X26. The command [network delete] is stricter than the handler
    [deleteNetwork]: whichever store serves them, when the network has
    allocations and all of them are released, the command refuses and
    leaves the store as it was, while the handler passes the delete on to
    the store. *)
Theorem cli_delete_stricter_than_api {S : Type} (store : Store.t S) (id : string) (s : S)
    (allocations : list IPAllocation.t) :
  Store.ListAllocations store id s = Returns (allocations, None) →
  allocations ≠ [] → Forall (λ a, IPAllocation.ReleasedAt a ≠ None) allocations →
  networkDelete store id s
    = Returns (s, Some (ErrInternal "cannot delete network with active allocations")) ∧
  Server.deleteNetwork store id s =
    match Store.DeleteNetwork store id s with
    | Panics msg => Panics msg
    | Returns (s', Some err) =>
        Returns (s', Server.httpError (errorString err) Server.StatusInternalServerError)
    | Returns (s', None) =>
        Returns (s', {| statusCode := Server.StatusNoContent; body := BodyEmpty |})
    end.
Proof.
  intros Hl Hne Hrel. split.
  - unfold networkDelete. rewrite Hl. rewrite decide_True; [done|].
    unfold len. destruct allocations; [done | cbn; lia].
  - unfold Server.deleteNetwork. rewrite Hl. rewrite decide_False; [done|].
    rewrite activeCount_pos. intros (a & Ha & Hr).
    rewrite Forall_forall in Hrel. by destruct (Hrel a Ha).
Qed.

Lemma cli_delete_stricter_than_api_witness :
  let released := {| IPAllocation.ID := "alloc1"; IPAllocation.NetworkID := "net1";
                     IPAllocation.IP := "10.0.0.10"; IPAllocation.EndIP := "";
                     IPAllocation.Hostname := ""; IPAllocation.Description := "";
                     IPAllocation.Tags := []; IPAllocation.Status := "released";
                     IPAllocation.AllocatedAt := 1700000000000000000;
                     IPAllocation.ExpiresAt := None;
                     IPAllocation.ReleasedAt := Some 1700000000000000001%Z |} in
  let db := pebbleRun [saveNetworkCmd net1; saveAllocationCmd released] ∅ in
  (Store.ListAllocations pebbleStore "net1" db = Returns ([released], None) ∧
   [released] ≠ [] ∧ Forall (λ a, IPAllocation.ReleasedAt a ≠ None) [released]) ∧
  networkDelete pebbleStore "net1" db
    = Returns (db, Some (ErrInternal "cannot delete network with active allocations")) ∧
  ∃ db', Server.deleteNetwork pebbleStore "net1" db
           = Returns (db', {| statusCode := 204; body := BodyEmpty |}) ∧
         PebbleStore.GetAllocation "alloc1" db' = (None, Some ErrIPNotAllocated).
Proof.
  intros released db.
  assert (H1 : Store.ListAllocations pebbleStore "net1" db = Returns ([released], None))
    by (vm_compute; reflexivity).
  assert (H2 : [released] ≠ []) by discriminate.
  assert (H3 : Forall (λ a, IPAllocation.ReleasedAt a ≠ None) [released])
    by (repeat constructor; discriminate).
  split; [exact (conj H1 (conj H2 H3))|].
  destruct (cli_delete_stricter_than_api pebbleStore "net1" db [released] H1 H2 H3)
    as [Hcli Hapi].
  split; [exact Hcli|].
  exists (PebbleStore.DeleteNetwork "net1" db).1. split.
  - rewrite Hapi. vm_compute. reflexivity.
  - vm_compute. reflexivity.
Defined.

(** ** The network that the command release finds *)

Section Release.
Import PebbleStore.

Lemma detectNetwork_found db ip networks :
  typed db →
  detectNetwork db ip networks ≠ "" →
  ∃ n a, n ∈ networks ∧ detectNetwork db ip networks = Network.ID n ∧
         a ∈ (ListAllocations (Network.ID n) db).1 ∧
         IPAllocation.IP a = ip ∧ IPAllocation.ReleasedAt a = None.
Proof.
  intros Ht. induction networks as [|n networks IH]; cbn [detectNetwork]; [done|].
  rewrite (ListAllocations_typed _ _ Ht). cbn zeta.
  destruct (decide (Exists _ (ListAllocations (Network.ID n) db).1)) as [Hex|Hex].
  - destruct (decide (Network.ID n ≠ "")) as [Hne|Hne].
    + intros _. apply Exists_exists in Hex as (a & Ha & Hip & Hr).
      exists n, a. split; [by left|]. done.
    + intros H. destruct (IH H) as (n' & a & Hin & Heq & Ha).
      exists n', a. split; [by right | done].
  - rewrite decide_False by (by intros []).
    intros H. destruct (IH H) as (n' & a & Hin & Heq & Ha).
    exists n', a. split; [by right | done].
Qed.

Lemma detectNetwork_none db ip networks :
  typed db →
  detectNetwork db ip networks = "" →
  ∀ n a, n ∈ networks → Network.ID n ≠ "" →
         a ∈ (ListAllocations (Network.ID n) db).1 →
         ¬ (IPAllocation.IP a = ip ∧ IPAllocation.ReleasedAt a = None).
Proof.
  intros Ht. induction networks as [|n networks IH]; cbn [detectNetwork].
  { by intros _ n a ?%elem_of_nil. }
  rewrite (ListAllocations_typed _ _ Ht). cbn zeta.
  destruct (decide (Exists _ (ListAllocations (Network.ID n) db).1)) as [Hex|Hex].
  - destruct (decide (Network.ID n ≠ "")) as [Hne|Hne]; [done|]. apply dec_stable in Hne.
    intros H n' a [->|Hin]%elem_of_cons Hid; [done | by apply IH].
  - rewrite decide_False by (by intros []).
    intros H n' a [->|Hin]%elem_of_cons Hid; [|by apply IH].
    intros Ha Hm. apply Hex. apply Exists_exists. by exists a.
Qed.

End Release.

(** X27. The command [release] without the flag [network-id], on a
    well-formed Pebble database: when it passes a network id on, the id is
    that of a stored network under which an allocation of the address with
    a nil [ReleasedAt] is stored; and it fails with "IP ... not found in
    any network" only when no stored network (with an id that is not empty
    and does not begin with the byte 0xff) holds such an allocation (with
    an id that does not begin with that byte). *)
Theorem release_finds_the_network (ip : string) (db : gmap string PebbleStore.value) :
  typed db →
  match releaseNetwork ip "" db with
  | (Some networkID, None) =>
      networkID ≠ "" ∧
      ∃ n a, PebbleStore.GetNetwork networkID db = (Some n, None) ∧
             PebbleStore.GetAllocation (IPAllocation.ID a) db = (Some a, None) ∧
             IPAllocation.NetworkID a = networkID ∧ IPAllocation.IP a = ip ∧
             IPAllocation.ReleasedAt a = None
  | (None, Some err) =>
      err = ErrInternal ("IP " +:+ ip +:+ " not found in any network") ∧
      ∀ n a, PebbleStore.GetNetwork (Network.ID n) db = (Some n, None) →
             Network.ID n ≠ "" → textual (Network.ID n) →
             PebbleStore.GetAllocation (IPAllocation.ID a) db = (Some a, None) →
             textual (IPAllocation.ID a) → IPAllocation.NetworkID a = Network.ID n →
             ¬ (IPAllocation.IP a = ip ∧ IPAllocation.ReleasedAt a = None)
  | _ => False
  end.
Proof.
  intros Ht. unfold releaseNetwork. rewrite decide_True by done.
  rewrite (ListNetworks_typed _ Ht).
  set (networks := omap _ _).
  assert (Hnets : ∀ n, n ∈ networks ↔
    db !! PebbleStore.networkKey (Network.ID n) = Some (PebbleStore.VNetwork n) ∧
    textual (Network.ID n)).
  { intros n. rewrite <- (elem_of_ListNetworks _ _ Ht).
    by rewrite (ListNetworks_typed _ Ht). }
  case_decide as Hd.
  - split; [done|]. intros n a Hn Hid Htx Ha Hatx Hnid.
    apply (detectNetwork_none db ip networks Ht Hd n a); [|done|].
    + apply Hnets. by apply GetNetwork_Some in Hn.
    + apply (elem_of_ListAllocations _ _ _ Ht). by apply GetAllocation_Some in Ha.
  - split; [done|].
    destruct (detectNetwork_found db ip networks Ht Hd) as (n & a & Hn & -> & Ha & Hip & Hr).
    apply Hnets in Hn as [Hn _].
    apply (elem_of_ListAllocations _ _ _ Ht) in Ha as (Ha & _ & Hnid).
    exists n, a. split_and!; try done; [by apply GetNetwork_Some | by apply GetAllocation_Some].
Qed.

Lemma release_finds_the_network_witness :
  let db := pebbleRun [saveNetworkCmd net1; saveAllocationCmd alloc1] ∅ in
  typed db ∧
  releaseNetwork "10.0.0.10" "" db = (Some "net1", None) ∧
  releaseNetwork "10.0.0.99" "" db
    = (None, Some (ErrInternal "IP 10.0.0.99 not found in any network")) ∧
  match releaseNetwork "10.0.0.10" "" db with
  | (Some networkID, None) => networkID ≠ ""
  | _ => False
  end.
Proof.
  intros db.
  assert (Ht : typed db) by (apply pebbleReachable_typed, (pebbleReachable_run _)).
  split; [exact Ht|].
  assert (E : releaseNetwork "10.0.0.10" "" db = (Some "net1", None))
    by (vm_compute; reflexivity).
  split; [exact E|]. split; [vm_compute; reflexivity|].
  pose proof (release_finds_the_network "10.0.0.10" db Ht) as T.
  rewrite E in T |- *. exact (proj1 T).
Defined.

(** ** Truncation of a table cell *)

Section Truncate.

Lemma length_substring_0 n s : String.length (String.substring 0 n s) = Nat.min n (String.length s).
Proof.
  revert s. induction n as [|n IH]; intros [|c s]; cbn; try done. by rewrite IH.
Qed.

Lemma length_string_app s t : String.length (s +:+ t) = (String.length s + String.length t)%nat.
Proof. induction s as [|c s IH]; [done|]. rewrite string_app_cons. cbn. by rewrite IH. Qed.

End Truncate.

(** X28. [truncate(s, max)] returns a string of [min(len(s), max)] bytes
    whenever [max >= 3] or [s] is no longer than [max]: [s] itself when it
    fits, and otherwise its first [max-3] bytes followed by three dots.
    For a [max] below 3 and a longer [s] the slice bound is negative and
    the call panics. *)
Theorem truncate_fits_or_panics (s : string) (max : Z) :
  (- 2 ^ 63 + 3 ≤ max < 2 ^ 63)%Z →
  match truncate s max with
  | Returns r =>
      Z.of_nat (String.length r) = Z.min (Z.of_nat (String.length s)) max ∧
      (3 ≤ max ∨ Z.of_nat (String.length s) ≤ max)%Z ∧
      (r = s ∨ r = String.substring 0 (Z.to_nat (max - 3)) s +:+ "...")
  | Panics _ => (max < 3 ∧ max < Z.of_nat (String.length s))%Z
  end.
Proof.
  intros Hm. unfold truncate. case_decide as Hfit.
  - split_and!; [lia | by right | by left].
  - rewrite int_wrap_id by lia. case_decide as Hhigh.
    + split_and!; [|left; lia|by right].
      rewrite length_string_app, length_substring_0. cbn. lia.
    + lia.
Qed.

Lemma truncate_fits_or_panics_witness :
  (- 2 ^ 63 + 3 ≤ 20 < 2 ^ 63)%Z ∧
  truncate "2001:db8:85a3::8a2e:370:7334" 20 = Returns "2001:db8:85a3::8a..." ∧
  match truncate "2001:db8:85a3::8a2e:370:7334" 20 with
  | Returns r => Z.of_nat (String.length r) = 20%Z
  | Panics _ => False
  end.
Proof.
  assert (H : (- 2 ^ 63 + 3 ≤ 20 < 2 ^ 63)%Z) by lia.
  split; [exact H|].
  assert (E : truncate "2001:db8:85a3::8a2e:370:7334" 20 = Returns "2001:db8:85a3::8a...")
    by (vm_compute; reflexivity).
  split; [exact E|].
  pose proof (truncate_fits_or_panics "2001:db8:85a3::8a2e:370:7334" 20 H) as T.
  rewrite E in T |- *. exact (proj1 T).
Defined.

(** ** The cluster configuration *)

Section ConfigFacts.
Variable SplitHostPort : string → string + string * string.

Lemma validateMember_None kv :
  validateMember SplitHostPort kv = None ↔
  kv.1 ≠ 0%Z ∧ ∃ host port, SplitHostPort kv.2 = inr (host, port) ∧ host ≠ "" ∧ port ≠ "".
Proof.
  unfold validateMember. case_decide as H0; [by split; [|intros [? _]]|].
  destruct (SplitHostPort kv.2) as [err|[host port]].
  - split; [done|]. by intros [_ (? & ? & ? & _)].
  - case_decide as Hhp.
    + split; [done|]. intros [_ (h & p & [= <- <-] & ? & ?)]. tauto.
    + split; [|done]. intros _. split; [done|]. exists host, port.
      split; [done|]. split; intros ->; tauto.
Qed.

Lemma validateMembers_None order :
  validateMembers SplitHostPort order = None ↔
  ∀ kv, kv ∈ order → validateMember SplitHostPort kv = None.
Proof.
  induction order as [|kv order IH]; cbn.
  - split; [|done]. by intros _ kv ?%elem_of_nil.
  - destruct (validateMember SplitHostPort kv) eqn:E.
    + split; [done|]. intros H. specialize (H kv (list_elem_of_here _ _)). congruence.
    + rewrite IH. split.
      * intros H kv' [->|Hin]%elem_of_cons; [done | by apply H].
      * intros H kv' Hin. apply H. by right.
Qed.

End ConfigFacts.

Section SplitFacts.

Lemma SplitN2_two s sep before after :
  SplitN2 s sep = [before; after] → s = before +:+ String sep after.
Proof.
  revert before. induction s as [|c s IH]; intros before; cbn; [done|].
  case_decide as Hc; [by intros [= <- <-]; subst|].
  destruct (SplitN2 s sep) as [|b [|a [|]]] eqn:E; try done;
    try (intros [=]; simplify_eq; by destruct s).
  intros [= <- <-]. by rewrite (IH b eq_refl).
Qed.

Lemma Split_nonempty s sep : Split s sep ≠ [].
Proof.
  destruct s as [|c s]; [done|]. cbn. case_decide; [done|].
  by destruct (Split s sep).
Qed.

(** The example of the comment on [ParseInitialMembers]. *)
Lemma Split_example :
  Split "1:localhost:5000,2:localhost:5001,3:localhost:5002" comma
  = ["1:localhost:5000"; "2:localhost:5001"; "3:localhost:5002"] ∧
  SplitN2 "1:localhost:5000" colon = ["1"; "localhost:5000"] ∧
  SplitN2 "localhost" colon = ["localhost"] ∧
  Split "" comma = [""].
Proof. by vm_compute. Qed.

End SplitFacts.

(** X29. [Validate] accepts a configuration exactly when: node id and
    cluster id are not zero; the Raft address is not empty and splits into
    a host that is not empty and a port that is a number from 1 to 65535;
    the data directory is not empty; initial members are given unless the
    node runs as a single node and does not join; unless it joins, the
    node is among the given members; and every member has an id that is
    not zero and an address that splits into a host and a port, neither
    empty.  Which member the loop meets first does not matter. *)
Theorem validate_accepts_exactly (SplitHostPort : string → string + string * string)
    (Atoi : string → option Z) (order : list (Z * string)) (c : ClusterConfig.t) :
  go_range_nodes (ClusterConfig.InitialMembers c) order →
  Validate SplitHostPort Atoi order c = None ↔
    ClusterConfig.NodeID c ≠ 0%Z ∧ ClusterConfig.ClusterID c ≠ 0%Z ∧
    ClusterConfig.RaftAddr c ≠ "" ∧
    (∃ host port portNum,
       SplitHostPort (ClusterConfig.RaftAddr c) = inr (host, port) ∧ host ≠ "" ∧
       Atoi port = Some portNum ∧ (1 ≤ portNum ≤ 65535)%Z) ∧
    ClusterConfig.DataDir c ≠ "" ∧
    (ClusterConfig.InitialMembers c = ∅ →
     ClusterConfig.EnableSingleNode c = true ∧ ClusterConfig.Join c = false) ∧
    (ClusterConfig.InitialMembers c ≠ ∅ → ClusterConfig.Join c = false →
     is_Some (ClusterConfig.InitialMembers c !! ClusterConfig.NodeID c)) ∧
    map_Forall (λ nodeID addr,
      nodeID ≠ 0%Z ∧
      ∃ host port, SplitHostPort addr = inr (host, port) ∧ host ≠ "" ∧ port ≠ "")
      (ClusterConfig.InitialMembers c).
Proof.
  intros Hr.
  assert (Hmembers : validateMembers SplitHostPort order = None ↔
    map_Forall (λ nodeID addr,
      nodeID ≠ 0%Z ∧
      ∃ host port, SplitHostPort addr = inr (host, port) ∧ host ≠ "" ∧ port ≠ "")
      (ClusterConfig.InitialMembers c)).
  { rewrite validateMembers_None. unfold go_range_nodes in Hr. split.
    - intros H k v Hkv. apply (validateMember_None SplitHostPort (k, v)).
      apply H. rewrite Hr. by apply elem_of_map_to_list.
    - intros H [k v] Hin. apply validateMember_None. apply (H k v).
      rewrite Hr in Hin. by apply elem_of_map_to_list in Hin. }
  unfold Validate.
  case_decide as H1; [split; [done | tauto]|].
  case_decide as H2; [split; [done | tauto]|].
  case_decide as H3; [split; [done | tauto]|].
  destruct (SplitHostPort (ClusterConfig.RaftAddr c)) as [err|[host port]] eqn:Hsplit.
  { split; [done|]. by intros (_ & _ & _ & (? & ? & ? & ? & _) & _). }
  case_decide as H4.
  { split; [done|]. intros (_ & _ & _ & (h & p & n & [= <- <-] & ? & _) & _). done. }
  destruct (Atoi port) as [portNum|] eqn:Hport.
  2:{ split; [done|].
      intros (_ & _ & _ & (h & p & n & [= <- <-] & _ & ? & _) & _). congruence. }
  case_decide as H5.
  { split; [done|].
    intros (_ & _ & _ & (h & p & n & [= <- <-] & _ & ? & ?) & _). simplify_eq. lia. }
  case_decide as H6; [split; [done | tauto]|].
  case_decide as H7.
  { split; [done|]. intros (_ & _ & _ & _ & _ & H & _).
    destruct H7 as [He Hm]. destruct (H Hm) as [Ht _]. congruence. }
  case_decide as H8.
  { split; [done|]. intros (_ & _ & _ & _ & _ & H & _).
    destruct H8 as [Hj Hm]. destruct (H Hm) as [_ Hf]. congruence. }
  case_decide as H9.
  { split; [done|]. intros (_ & _ & _ & _ & _ & _ & H & _).
    destruct H9 as (Hm & Hn & Hj). destruct (H Hm Hj) as [? ?]. congruence. }
  rewrite Hmembers. split.
  - intros Hall. split_and!; try done.
    + exists host, port, portNum. split_and!; try done; lia.
    + intros Hm. split.
      * destruct (ClusterConfig.EnableSingleNode c); [done|]. destruct H7. by split.
      * destruct (ClusterConfig.Join c); [|done]. destruct H8. by split.
    + intros Hm Hj.
      destruct (ClusterConfig.InitialMembers c !! ClusterConfig.NodeID c) eqn:E; [done|].
      destruct H9. by split_and!.
  - tauto.
Qed.

Lemma validate_accepts_exactly_witness :
  let SplitHostPort := λ addr : string,
    match SplitN2 addr colon with
    | [host; port] => inr (host, port)
    | _ => inl "missing port in address"
    end in
  let Atoi := λ port : string, if decide (port = "5000") then Some 5000%Z else None in
  let c := {| ClusterConfig.NodeID := 1; ClusterConfig.ClusterID := 1;
              ClusterConfig.RaftAddr := "localhost:5000";
              ClusterConfig.APIAddr := "localhost:8080";
              ClusterConfig.DataDir := "ipam-cluster-data";
              ClusterConfig.Join := false;
              ClusterConfig.InitialMembers := {[ 1%Z := "localhost:5000" ]};
              ClusterConfig.EnableSingleNode := true |} in
  go_range_nodes (ClusterConfig.InitialMembers c) [(1%Z, "localhost:5000")] ∧
  Validate SplitHostPort Atoi [(1%Z, "localhost:5000")] c = None ∧
  ClusterConfig.NodeID c ≠ 0%Z.
Proof.
  intros SplitHostPort Atoi c.
  assert (Hr : go_range_nodes (ClusterConfig.InitialMembers c) [(1%Z, "localhost:5000")]).
  { unfold go_range_nodes, c. cbn. by rewrite map_to_list_singleton. }
  assert (Hv : Validate SplitHostPort Atoi [(1%Z, "localhost:5000")] c = None)
    by (vm_compute; reflexivity).
  split; [exact Hr|]. split; [exact Hv|].
  exact (proj1 (proj1 (validate_accepts_exactly SplitHostPort Atoi _ c Hr) Hv)).
Defined.

(** X30. [ParseInitialMembers] returns the nil map without error exactly
    for the empty string.  When it succeeds on another string the map is
    not empty, and every member in it comes from one of the pairs between
    the commas: the pair holds a colon, the text before its first colon,
    trimmed, parses to the node id, and the text after it, trimmed, is the
    address, which is not empty. *)
Theorem parse_initial_members_sound (ParseUint : string → string + Z)
    (TrimSpace : string → string) (membersStr : string) :
  match ParseInitialMembers ParseUint TrimSpace membersStr with
  | (None, None) => membersStr = ""
  | (Some members, None) =>
      membersStr ≠ "" ∧ members ≠ ∅ ∧
      ∀ nodeID address, members !! nodeID = Some address →
        address ≠ "" ∧
        ∃ item part0 part1,
          item ∈ Split membersStr comma ∧ item = part0 +:+ String colon part1 ∧
          ParseUint (TrimSpace part0) = inr nodeID ∧ address = TrimSpace part1
  | (_, Some _) => membersStr ≠ ""
  end.
Proof.
  unfold ParseInitialMembers. case_decide as Hs; [done|].
  set (P := λ (pairs : list string) (nodeID : Z) (address : string),
    address ≠ "" ∧
    ∃ item part0 part1,
      item ∈ pairs ∧ item = part0 +:+ String colon part1 ∧
      ParseUint (TrimSpace part0) = inr nodeID ∧ address = TrimSpace part1).
  assert (Hloop : ∀ pairs members0,
    match parseMembers ParseUint TrimSpace pairs members0 with
    | (Some members, None) =>
        (pairs ≠ [] ∨ members0 ≠ ∅ → members ≠ ∅) ∧
        ∀ nodeID address, members !! nodeID = Some address →
          members0 !! nodeID = Some address ∨ P pairs nodeID address
    | (None, None) => False
    | (_, Some _) => True
    end).
  { induction pairs as [|item pairs IH]; intros members0; cbn.
    - split; [by intros [?|?]|]. intros nodeID address H. by left.
    - unfold parseMember.
      destruct (SplitN2 item colon) as [|part0 [|part1 [|]]] eqn:Hsplit; try done.
      destruct (ParseUint (TrimSpace part0)) as [err|nodeID] eqn:Hid; [done|].
      case_decide as Haddr; [done|].
      specialize (IH (<[nodeID := TrimSpace part1]> members0)).
      destruct (parseMembers _ _ pairs _) as [[members|] [err|]]; try done.
      destruct IH as [Hne IH]. split.
      + intros _. apply Hne. right. apply insert_non_empty.
      + intros id address Hm. destruct (IH id address Hm) as [H0|(Ha & it & p0 & p1 & Hin & H)].
        * apply lookup_insert_Some in H0 as [[<- <-]|[_ H0]]; [|by left].
          right. split; [done|]. exists item, part0, part1.
          split; [by left|]. split; [by apply SplitN2_two|]. done.
        * right. split; [done|]. exists it, p0, p1. split; [by right | done]. }
  specialize (Hloop (Split membersStr comma) ∅).
  destruct (parseMembers _ _ _ _) as [[members|] [err|]]; try done.
  destruct Hloop as [Hne Hall]. split; [done|]. split; [apply Hne; left; apply Split_nonempty|].
  intros nodeID address Hm. destruct (Hall _ _ Hm) as [H0|H]; [|done].
  by rewrite lookup_empty in H0.
Qed.
